(** * dreamDownloader: the URL canonicalizer, the file cache, the transcoder
    checks, the in-flight registry and the voice batch aggregator

    A shallow embedding of the parts of [bot.py], [database.py] and
    [downloader.py] that the specification's claims are about, followed by
    the theorems that settle them.  The later modules embed the code
    around these parts (the other tables of the database, the retry loop,
    the link bookkeeping, the inline buttons and their handlers, the other
    transcoders, [normalize_url] of [api.py]) with properties of their own.

    Conventions.
    - A Python [str] is a Rocq [string]; a character is a code point below
      256.  Library functions ([str.strip], [json], [urllib.parse]) are
      modelled on that alphabet.  The transcripts of voice messages, which
      are Russian, are lists of code points ([Text.text]) with Python's
      [str.isspace] and [str.strip] on all of Unicode.
    - A Python exception caught by the function itself is the [None] (or
      the named error) branch of the model.
    - External processes (ffmpeg, ffprobe, the speech service) are
      parameters: the model says what the code does with their answers. *)

From Stdlib Require Import ZArith NArith QArith List String Ascii Bool Lia Lqa Floats.
From Stdlib Require Import DecimalString Sorting.Sorted Sorting.Permutation.
From Stdlib Require DecimalFacts DecimalPos DecimalZ.
From stdpp Require Import gmap strings list.

Local Open Scope Z_scope.

(* ===================================================================== *)
(** * Part I: definitions                                                 *)
(* ===================================================================== *)

(** ** Python strings *)

Module Py.

Definition ord (c : ascii) : N := N_of_ascii c.
Definition chr (n : N) : ascii := ascii_of_N n.

(** [len(s) == 0], the falsity of a string. *)
Definition is_empty (s : string) : bool :=
  match s with EmptyString => true | String _ _ => false end.

(** [c in s] for a single character. *)
Fixpoint has_char (c : ascii) (s : string) : bool :=
  match s with
  | EmptyString => false
  | String d r => Ascii.eqb c d || has_char c r
  end.

(** [all(p(c) for c in s)]. *)
Fixpoint str_all (p : ascii -> bool) (s : string) : bool :=
  match s with
  | EmptyString => true
  | String c r => p c && str_all p r
  end.

(** [s.startswith(p)]. *)
Fixpoint startswith (p s : string) {struct p} : bool :=
  match p with
  | EmptyString => true
  | String a p' =>
      match s with
      | EmptyString => false
      | String b s' => Ascii.eqb a b && startswith p' s'
      end
  end.

(** [sub in s] for strings. *)
Fixpoint contains (sub s : string) : bool :=
  match s with
  | EmptyString => startswith sub EmptyString
  | String _ r => startswith sub s || contains sub r
  end.

(** [x in l] for a list of strings. *)
Definition str_mem (x : string) (l : list string) : bool :=
  existsb (String.eqb x) l.

(** [str.isspace] on the code points below 256: TAB..CR, FS..US, SPACE,
    NEL (U+0085) and NBSP (U+00A0). *)
Definition isspace (c : ascii) : bool :=
  let n := ord c in
  ((9 <=? n) && (n <=? 13) || (28 <=? n) && (n <=? 32) ||
   (n =? 133) || (n =? 160))%N.

Fixpoint lstrip_by (p : ascii -> bool) (s : string) : string :=
  match s with
  | EmptyString => EmptyString
  | String c r => if p c then lstrip_by p r else s
  end.

Fixpoint rstrip_by (p : ascii -> bool) (s : string) : string :=
  match s with
  | EmptyString => EmptyString
  | String c r =>
      let r' := rstrip_by p r in
      if is_empty r' && p c then EmptyString else String c r'
  end.

(** [s.strip()], [s.rstrip()] and [s.rstrip(c)]. *)
Definition strip (s : string) : string := rstrip_by isspace (lstrip_by isspace s).
Definition rstrip (s : string) : string := rstrip_by isspace s.
Definition rstrip_char (c : ascii) (s : string) : string := rstrip_by (Ascii.eqb c) s.

(** [str.lower] on the code points below 256: A..Z and the Latin-1
    capitals U+00C0..U+00DE (U+00D7 apart) move up by 32. *)
Definition lower_char (c : ascii) : ascii :=
  let n := ord c in
  if ((65 <=? n) && (n <=? 90) ||
      (192 <=? n) && (n <=? 222) && negb (n =? 215))%N
  then chr (n + 32) else c.

Fixpoint lower (s : string) : string :=
  match s with
  | EmptyString => EmptyString
  | String c r => String (lower_char c) (lower r)
  end.

(** [s.partition(c)]: the text before the first [c] and, when there is
    one, the text after it. *)
Fixpoint partition (c : ascii) (s : string) : string * option string :=
  match s with
  | EmptyString => (EmptyString, None)
  | String d r =>
      if Ascii.eqb c d then (EmptyString, Some r)
      else let '(a, b) := partition c r in (String d a, b)
  end.

(** [s.rpartition(c)], with the same shape of result: the text before the
    last [c] and the text after it; [None] when [c] does not occur. *)
Fixpoint rpartition (c : ascii) (s : string) : option (string * string) :=
  match s with
  | EmptyString => None
  | String d r =>
      match rpartition c r with
      | Some (a, b) => Some (String d a, b)
      | None => if Ascii.eqb c d then Some (EmptyString, r) else None
      end
  end.

(** [s.split(c)] for a one-character separator (never the empty list). *)
Fixpoint split (c : ascii) (s : string) : list string :=
  match s with
  | EmptyString => [EmptyString]
  | String d r =>
      if Ascii.eqb c d then EmptyString :: split c r
      else match split c r with
           | h :: t => String d h :: t
           | [] => [String d EmptyString]
           end
  end.

(** [sep.join(l)]. *)
Fixpoint join (sep : string) (l : list string) : string :=
  match l with
  | [] => EmptyString
  | [x] => x
  | x :: r => x +:+ sep +:+ join sep r
  end.

(** [s.replace(c, "")]. *)
Fixpoint remove_char (p : ascii -> bool) (s : string) : string :=
  match s with
  | EmptyString => EmptyString
  | String c r => if p c then remove_char p r else String c (remove_char p r)
  end.

(** [s.endswith(c)] for a single character. *)
Fixpoint endswith_char (c : ascii) (s : string) : bool :=
  match s with
  | EmptyString => false
  | String d EmptyString => Ascii.eqb c d
  | String _ r => endswith_char c r
  end.

(** [str(n)] for an integer. *)
Definition str_of_Z (z : Z) : string := NilZero.string_of_int (Z.to_int z).

(** The first character of a string, if any, satisfies [p]. *)
Definition starts_with (p : ascii -> bool) (s : string) : bool :=
  match s with
  | EmptyString => true
  | String c _ => p c
  end.

End Py.

(** ** [os.path] on POSIX and a file system of sizes *)

Module OsPath.

(** [os.path.basename]. *)
Definition basename (p : string) : string :=
  match Py.rpartition "/" p with
  | Some (_, b) => b
  | None => p
  end.

(** [os.path.splitext] of a name without a slash: the extension starts at
    the last dot, unless only dots stand before it. *)
Definition splitext (p : string) : string * string :=
  match Py.rpartition "." p with
  | Some (a, b) =>
      if Py.str_all (Ascii.eqb ".") a then (p, EmptyString)
      else (a, String "." b)
  | None => (p, EmptyString)
  end.

(** [os.path.join(a, b)]. *)
Definition join (a b : string) : string :=
  if Py.startswith "/" b then b
  else if Py.is_empty a || Py.endswith_char "/" a then a +:+ b
  else a +:+ "/" +:+ b.

End OsPath.

(** The files of interest, by path, with their sizes in bytes:
    [os.path.exists] is membership, [os.path.getsize] is lookup. *)
Abbreviation filesystem := (gmap string Z).

(** How a [subprocess.run(..., check=True)] call ends. *)
Variant run_result : Type :=
  | Returned            (* exit status 0 *)
  | CalledProcessError  (* nonzero exit status *)
  | TimeoutExpired
  | OtherError.         (* e.g. the program is not installed *)

(** An external program: the command line and the files before give how
    the call ends and the files after. *)
Abbreviation process := (list string -> filesystem -> run_result * filesystem).

(** ** downloader.py: the transcoder *)

Module Downloader.

(** *** [needs_telegram_optimization] *)

(** One entry of ffprobe's [streams] array, as [json.loads] returns it; a
    field is [None] when the key is absent. *)
Record stream : Type := {
  codec_name : option string;
  width : option Z;
  height : option Z;
  display_aspect_ratio : option string
}.

(** The outcome of the ffprobe call followed by [json.loads]: an exception
    ([CalledProcessError], [TimeoutExpired], bad JSON), or the decoded
    object with its [streams] key ([None] when the key is absent). *)
Variant ffprobe_result : Type :=
  | ProbeRaised
  | ProbeData (streams : option (list stream)).

(** What the function observes of a file: [os.path.getsize] ([None] when
    it raises) and the probe. *)
Record media_file : Type := {
  getsize : option Z;
  ffprobe : ffprobe_result
}.

(** The second component of the result. *)
Variant reason : Type :=
  | FileSize (file_size : Z)                 (* "File size ... MB > 48 MB" *)
  | VideoCodec (codec : string)              (* "Video codec is ..., needs H.264 conversion" *)
  | Vertical (w h : Z)                       (* "Vertical video WxH without proper aspect ratio metadata" *)
  | CouldNotVerify                           (* "Could not verify codec, optimizing for safety: ..." *)
  | ErrorChecking.                           (* "Error checking: ..." *)

Definition MB : Z := 1024 * 1024.

(** [stream.get(key, default)]. *)
Definition get {A} (field : option A) (default : A) : A :=
  match field with Some v => v | None => default end.

(** [not display_aspect_ratio or display_aspect_ratio == 'N/A']. *)
Definition dar_missing (dar : string) : bool :=
  Py.is_empty dar || String.eqb dar "N/A".

(** [size_mb = file_size / (1024 * 1024)] is a binary64 quotient by a power
    of two, so [size_mb > 48] holds exactly when [file_size > 48 * MB]. *)
Definition needs_telegram_optimization (f : media_file) : bool * option reason :=
  match getsize f with
  | None => (true, Some ErrorChecking)
  | Some file_size =>
      if 48 * MB <? file_size then (true, Some (FileSize file_size))
      else
        match ffprobe f with
        | ProbeRaised => (true, Some CouldNotVerify)
        | ProbeData (Some (s :: _)) =>
            let codec := Py.lower (get (codec_name s) EmptyString) in
            let w := get (width s) 0 in
            let h := get (height s) 0 in
            let dar := get (display_aspect_ratio s) EmptyString in
            if negb (Py.str_mem codec ["h264"; "libx264"])
            then (true, Some (VideoCodec codec))
            else if (w <? h) && dar_missing dar
            then (true, Some (Vertical w h))
            else (false, None)
        | ProbeData _ => (false, None)
        end
  end.

(** The first video stream the probe reported, if any. *)
Definition first_stream (f : media_file) : option stream :=
  match ffprobe f with
  | ProbeData (Some (s :: _)) => Some s
  | _ => None
  end.

(** The stream's codec is H.264 (as ffprobe names it, in any letter case,
    or under its encoder's name). *)
Definition is_h264 (s : stream) : Prop :=
  exists c, codec_name s = Some c /\ (Py.lower c = "h264" \/ Py.lower c = "libx264").

(** Portrait: taller than wide, with absent dimensions read as 0. *)
Definition portrait (s : stream) : Prop := get (width s) 0 < get (height s) 0.

(** Display-aspect-ratio metadata is present: a value other than the empty
    string and ["N/A"]. *)
Definition has_aspect_ratio (s : stream) : Prop :=
  exists d, display_aspect_ratio s = Some d /\ d <> EmptyString /\ d <> "N/A".

(** *** [generate_thumbnail] *)

Section Thumbnail.

(** The ffmpeg binary, as [subprocess.run(cmd, check=True, ...)] sees it. *)
Variable subprocess_run : process.

(** [['nice', '-n', '15'] + cmd]: the model fixes [os.name] to a POSIX
    value, the deployment target. *)
Definition nice15 (cmd : list string) : list string := ["nice"; "-n"; "15"] ++ cmd.

Definition thumbnail_path_of (video_path output_dir : string) : string :=
  OsPath.join output_dir (fst (OsPath.splitext (OsPath.basename video_path)) +:+ "_thumb.jpg").

Definition temp_path_of (video_path output_dir : string) : string :=
  OsPath.join output_dir (fst (OsPath.splitext (OsPath.basename video_path)) +:+ "_thumb_temp.jpg").

Definition thumbnail_cmd (video_path time_offset thumbnail_path : string) : list string :=
  nice15 ["ffmpeg"; "-y"; "-ss"; time_offset; "-i"; video_path;
          "-vf"; "scale=320:320:force_original_aspect_ratio=decrease";
          "-frames:v"; "1"; "-q:v"; "2"; thumbnail_path].

Definition recompress_cmd (thumbnail_path temp_path : string) : list string :=
  nice15 ["ffmpeg"; "-y"; "-i"; thumbnail_path;
          "-vf"; "scale=320:320:force_original_aspect_ratio=decrease";
          "-q:v"; "5"; temp_path].

(** [os.replace(src, dst)] and [os.remove(p)]. *)
Definition os_replace (src dst : string) (fs : filesystem) : filesystem :=
  match fs !! src with
  | Some sz => <[dst := sz]> (delete src fs)
  | None => fs
  end.
Definition os_remove (p : string) (fs : filesystem) : filesystem := delete p fs.

(** [time_offset] is the text of [str(time_offset)], ["1.0"] by default.
    The result is the returned path ([None] for Python's [None]) and the
    files afterwards. *)
Definition generate_thumbnail (video_path output_dir time_offset : string)
    (fs : filesystem) : option string * filesystem :=
  let thumbnail_path := thumbnail_path_of video_path output_dir in
  match subprocess_run (thumbnail_cmd video_path time_offset thumbnail_path) fs with
  | (Returned, fs1) =>
      match fs1 !! thumbnail_path with
      | Some file_size =>
          if 200 * 1024 <? file_size then
            let temp_path := temp_path_of video_path output_dir in
            match subprocess_run (recompress_cmd thumbnail_path temp_path) fs1 with
            | (Returned, fs2) =>
                let fs3 :=
                  match fs2 !! temp_path with
                  | Some temp_size =>
                      if temp_size <? 200 * 1024
                      then os_replace temp_path thumbnail_path fs2
                      else os_remove temp_path fs2
                  | None => fs2
                  end in
                (* final_size = os.path.getsize(thumbnail_path) *)
                match fs3 !! thumbnail_path with
                | Some _ => (Some thumbnail_path, fs3)
                | None => (None, fs3)
                end
            | (_, fs2) => (None, fs2)
            end
          else (Some thumbnail_path, fs1)
      | None => (None, fs1)
      end
  | (_, fs1) => (None, fs1)
  end.

End Thumbnail.

(** *** [compress_video] *)

Section Compress.

Variable subprocess_run : process.

Local Open Scope float_scope.

(** [int(x)] for a float: truncation toward zero; [None] where Python
    raises ([OverflowError] on an infinity, [ValueError] on a NaN). *)
Definition py_int (x : float) : option Z :=
  match Prim2SF x with
  | S754_zero _ => Some 0%Z
  | S754_finite s m e =>
      let v := (if 0 <=? e then Z.pos m * 2 ^ e else Z.pos m / 2 ^ (- e))%Z in
      Some (if s then - v else v)%Z
  | S754_infinity _ | S754_nan => None
  end.

(** [target_size_mb * 8 * 1024 * 1024] for the default [target_size_mb=49]. *)
Definition target_bits : float := 411041792.

(** [audio_bits = audio_bitrate_kbps * 1024 * duration] with
    [audio_bitrate_kbps = 128]. *)
Definition audio_bits (duration : float) : float := 131072 * duration.

Definition video_bits (duration : float) : float := target_bits - audio_bits duration.

(** The value of [video_bitrate_kbps] when the command is built. *)
Definition video_bitrate_kbps (duration : float) : float :=
  let kbps :=
    if video_bits duration <=? 0 then 100
    else video_bits duration / duration / 1024 in
  let kbps := kbps * 0.9 in
  if kbps <? 50 then 50 else kbps.

Definition compressed_path_of (input_path output_dir : string) : string :=
  OsPath.join output_dir (fst (OsPath.splitext (OsPath.basename input_path)) +:+ "_compressed.mp4").

Definition kilo (n : Z) : string := Py.str_of_Z n +:+ "k".

Definition compress_cmd (input_path output_path : string) (b_v maxrate bufsize : Z) : list string :=
  nice15 ["ffmpeg"; "-y"; "-i"; input_path;
          "-c:v"; "libx264";
          "-b:v"; kilo b_v;
          "-maxrate"; kilo maxrate;
          "-bufsize"; kilo bufsize;
          "-preset"; "medium";
          "-pix_fmt"; "yuv420p";
          "-c:a"; "aac";
          "-b:a"; "128k";
          "-movflags"; "+faststart";
          output_path].

(** The ffmpeg command line [compress_video] builds for a measured
    duration; [None] where the function returns before building it
    ([duration <= 0]) or an [int()] raises. *)
Definition compress_video_cmd (input_path output_dir : string) (duration : float)
    : option (list string) :=
  if duration <=? 0 then None
  else
    let kbps := video_bitrate_kbps duration in
    match py_int kbps, py_int (kbps * 1.5), py_int (kbps * 2) with
    | Some b, Some m, Some u =>
        Some (compress_cmd input_path (compressed_path_of input_path output_dir) b m u)
    | _, _, _ => None
    end.

(** [probe] is the duration ffprobe printed, read by [float()]; [None] when
    the probe fails or prints no number. *)
Definition compress_video (input_path output_dir : string) (probe : option float)
    (fs : filesystem) : option string * filesystem :=
  match probe with
  | None => (None, fs)
  | Some duration =>
      match compress_video_cmd input_path output_dir duration with
      | None => (None, fs)
      | Some cmd =>
          let output_path := compressed_path_of input_path output_dir in
          match subprocess_run cmd fs with
          | (Returned, fs1) =>
              match fs1 !! output_path with
              | Some sz => if 0 <? sz then (Some output_path, fs1) else (None, fs1)
              | None => (None, fs1)
              end%Z
          | (_, fs1) => (None, fs1)
          end
      end
  end.

(** The bitrate as the specification words it: [(target_bits - audio_bits)
    / d * 0.9], in kbit/s, floored at 50. *)
Definition spec_video_bitrate_kbps (duration : float) : float :=
  let kbps := (target_bits - audio_bits duration) / duration / 1024 * 0.9 in
  if kbps <? 50 then 50 else kbps.

End Compress.

End Downloader.

(** ** The [json] module, as far as the cache uses it *)

Module Json.

(** A decoded JSON value.  Numbers keep their text (Python turns it into
    an [int] or a [float]); an object keeps its members in source order
    (Python's [dict] keeps the last value of a repeated key). *)
Inductive json : Type :=
  | JNull
  | JBool (b : bool)
  | JNum (lexeme : string)
  | JStr (s : string)
  | JArr (items : list json)
  | JObj (members : list (string * json)).

(** The double quote and the backslash. *)
Definition dq : ascii := "034"%char.
Definition bs : ascii := "\"%char.

Definition hexdigit (n : N) : ascii :=
  (if n <? 10 then Py.chr (48 + n) else Py.chr (87 + n))%N.

(** ['\\u{0:04x}'.format(n)] for a code point below 256. *)
Definition u_escape (n : N) : string :=
  String bs (String "u" (String "0" (String "0"
    (String (hexdigit (n / 16)) (String (hexdigit (n mod 16)) EmptyString))))).

(** One character of [json.dumps(..., ensure_ascii=True)]: the printable
    ASCII characters stand for themselves, the quote, the backslash and
    five control characters have two-character escapes, everything else
    is written [\u00xx]. *)
Definition escape_char (c : ascii) : string :=
  let n := Py.ord c in
  (if n =? 34 then String bs (String dq EmptyString)
   else if n =? 92 then String bs (String bs EmptyString)
   else if n =? 10 then String bs "n"
   else if n =? 13 then String bs "r"
   else if n =? 9 then String bs "t"
   else if n =? 8 then String bs "b"
   else if n =? 12 then String bs "f"
   else if (32 <=? n) && (n <=? 126) then String c EmptyString
   else u_escape n)%N.

Fixpoint escape (s : string) : string :=
  match s with
  | EmptyString => EmptyString
  | String c r => escape_char c +:+ escape r
  end.

(** [json.dumps(s)] for a string. *)
Definition dumps_str (s : string) : string :=
  String dq (escape s +:+ String dq EmptyString).

(** [json.dumps(l)] for a list of strings: the default separators. *)
Definition dumps (l : list string) : string :=
  "[" +:+ Py.join ", " (map dumps_str l) +:+ "]".

(** The decoder's white space: space, TAB, LF, CR. *)
Definition is_ws (c : ascii) : bool :=
  let n := Py.ord c in ((n =? 32) || (n =? 9) || (n =? 10) || (n =? 13))%N.

Definition skip_ws (s : string) : string := Py.lstrip_by is_ws s.

Definition hexval (c : ascii) : option N :=
  let n := Py.ord c in
  (if (48 <=? n) && (n <=? 57) then Some (n - 48)
   else if (97 <=? n) && (n <=? 102) then Some (n - 87)
   else if (65 <=? n) && (n <=? 70) then Some (n - 55)
   else None)%N.

Definition hex4 (a b c d : ascii) : option N :=
  match hexval a, hexval b, hexval c, hexval d with
  | Some x, Some y, Some z, Some w => Some (((x * 16 + y) * 16 + z) * 16 + w)%N
  | _, _, _, _ => None
  end.

(** The character a two-character escape stands for. *)
Definition simple_escape (e : ascii) : option ascii :=
  let n := Py.ord e in
  (if n =? 34 then Some dq
   else if n =? 92 then Some bs
   else if n =? 47 then Some "/"%char
   else if n =? 98 then Some (Py.chr 8)
   else if n =? 102 then Some (Py.chr 12)
   else if n =? 110 then Some (Py.chr 10)
   else if n =? 114 then Some (Py.chr 13)
   else if n =? 116 then Some (Py.chr 9)
   else None)%N.

Definition cons_to {A} (c : ascii) (r : option (string * A)) : option (string * A) :=
  match r with
  | Some (s, k) => Some (String c s, k)
  | None => None
  end.

(** [scanstring], strict: the text after the opening quote gives the
    decoded string and the text after the closing quote.  A [\u] escape
    of a code point above 255 names a character outside the model's
    alphabet and is refused here. *)
Fixpoint scanstring (s : string) : option (string * string) :=
  match s with
  | EmptyString => None
  | String c r =>
      if Ascii.eqb c dq then Some (EmptyString, r)
      else if Ascii.eqb c bs then
        match r with
        | String e r1 =>
            match simple_escape e with
            | Some ch => cons_to ch (scanstring r1)
            | None =>
                if Ascii.eqb e "u" then
                  match r1 with
                  | String h1 (String h2 (String h3 (String h4 r2))) =>
                      match hex4 h1 h2 h3 h4 with
                      | Some n => if (n <? 256)%N then cons_to (Py.chr n) (scanstring r2) else None
                      | None => None
                      end
                  | _ => None
                  end
                else None
            end
        | EmptyString => None
        end
      else if (Py.ord c <? 32)%N then None
      else cons_to c (scanstring r)
  end.

Definition is_digit (c : ascii) : bool :=
  let n := Py.ord c in ((48 <=? n) && (n <=? 57))%N.

(** The longest run of digits at the start, and the rest. *)
Fixpoint span_digits (s : string) : string * string :=
  match s with
  | EmptyString => (EmptyString, EmptyString)
  | String c r =>
      if is_digit c then let '(d, t) := span_digits r in (String c d, t)
      else (EmptyString, s)
  end.

(** The number at the start of the text: an optional minus, then 0 or a
    digit run that does not start with 0, then an optional fraction (a dot
    and digits) and an optional exponent (e or E, a sign, digits). *)
Definition match_number (s : string) : option (string * string) :=
  let '(sign, s1) :=
    match s with
    | String "-" r => ("-", r)
    | _ => (EmptyString, s)
    end in
  let int_part :=
    match s1 with
    | String c r =>
        if Ascii.eqb c "0" then Some ("0", r)
        else if is_digit c then let '(d, t) := span_digits r in Some (String c d, t)
        else None
    | EmptyString => None
    end in
  match int_part with
  | None => None
  | Some (ip, s2) =>
      let '(fp, s3) :=
        match s2 with
        | String "." r =>
            let '(d, t) := span_digits r in
            if Py.is_empty d then (EmptyString, s2) else (String "." d, t)
        | _ => (EmptyString, s2)
        end in
      let '(ep, s4) :=
        match s3 with
        | String e r =>
            if Ascii.eqb e "e" || Ascii.eqb e "E" then
              let '(sg, r1) :=
                match r with
                | String "+" r0 => ("+", r0)
                | String "-" r0 => ("-", r0)
                | _ => (EmptyString, r)
                end in
              let '(d, t) := span_digits r1 in
              if Py.is_empty d then (EmptyString, s3) else (String e (sg +:+ d), t)
            else (EmptyString, s3)
        | EmptyString => (EmptyString, s3)
        end in
      Some (sign +:+ ip +:+ fp +:+ ep, s4)
  end.

(** [s[len(p):]] when [s] starts with [p]. *)
Fixpoint strip_prefix (p s : string) : option string :=
  match p, s with
  | EmptyString, _ => Some s
  | String a p', String b s' => if Ascii.eqb a b then strip_prefix p' s' else None
  | String _ _, EmptyString => None
  end.

(** A value that is neither a string, an array nor an object. *)
Definition scan_scalar (s : string) : option (json * string) :=
  match strip_prefix "null" s with
  | Some r => Some (JNull, r)
  | None =>
  match strip_prefix "true" s with
  | Some r => Some (JBool true, r)
  | None =>
  match strip_prefix "false" s with
  | Some r => Some (JBool false, r)
  | None =>
  match strip_prefix "NaN" s with
  | Some r => Some (JNum "NaN", r)
  | None =>
  match strip_prefix "Infinity" s with
  | Some r => Some (JNum "Infinity", r)
  | None =>
  match strip_prefix "-Infinity" s with
  | Some r => Some (JNum "-Infinity", r)
  | None =>
  match match_number s with
  | Some (n, r) => Some (JNum n, r)
  | None => None
  end end end end end end end.

(** [scan_once]: one value at the start of the text.  [fuel] bounds the
    number of nested calls; [loads] gives enough for any text. *)
Fixpoint scan_once (fuel : nat) (s : string) : option (json * string) :=
  match fuel with
  | O => None
  | S fuel' =>
      match s with
      | EmptyString => None
      | String c r =>
          if Ascii.eqb c dq then
            match scanstring r with
            | Some (v, t) => Some (JStr v, t)
            | None => None
            end
          else if Ascii.eqb c "[" then
            match skip_ws r with
            | String "]" t => Some (JArr [], t)
            | t =>
                match scan_items fuel' t with
                | Some (vs, t') => Some (JArr vs, t')
                | None => None
                end
            end
          else if Ascii.eqb c "{" then
            match skip_ws r with
            | String "}" t => Some (JObj [], t)
            | t =>
                match scan_members fuel' t with
                | Some (ms, t') => Some (JObj ms, t')
                | None => None
                end
            end
          else scan_scalar s
      end
  end
with scan_items (fuel : nat) (s : string) : option (list json * string) :=
  match fuel with
  | O => None
  | S fuel' =>
      match scan_once fuel' s with
      | Some (v, r) =>
          match skip_ws r with
          | String "]" t => Some ([v], t)
          | String "," t =>
              match scan_items fuel' (skip_ws t) with
              | Some (vs, t') => Some (v :: vs, t')
              | None => None
              end
          | _ => None
          end
      | None => None
      end
  end
with scan_members (fuel : nat) (s : string) : option (list (string * json) * string) :=
  match fuel with
  | O => None
  | S fuel' =>
      match s with
      | String q r =>
          if Ascii.eqb q dq then
            match scanstring r with
            | Some (k, r1) =>
                match skip_ws r1 with
                | String ":" r2 =>
                    match scan_once fuel' (skip_ws r2) with
                    | Some (v, r3) =>
                        match skip_ws r3 with
                        | String "}" t => Some ([(k, v)], t)
                        | String "," t =>
                            match scan_members fuel' (skip_ws t) with
                            | Some (ms, t') => Some ((k, v) :: ms, t')
                            | None => None
                            end
                        | _ => None
                        end
                    | None => None
                    end
                | _ => None
                end
            | None => None
            end
          else None
      | EmptyString => None
      end
  end.

(** [json.loads(s)]: one value between optional white space, and nothing
    after it; [None] for [JSONDecodeError]. *)
Definition loads (s : string) : option json :=
  match scan_once (2 * String.length s + 2) (skip_ws s) with
  | Some (v, r) => if Py.is_empty (skip_ws r) then Some v else None
  | None => None
  end.

End Json.

(** ** database.py: the file cache *)

Module Database.

Import Json.

(** A row of [file_cache]. *)
Record cache_row : Type := {
  id : Z;
  url : string;
  file_id : string;      (* a JSON array of ids, or one raw id *)
  media_type : string;
  uploader_id : Z;
  created_at : Z
}.

(** The table, in rowid order, and the largest id ever given out (SQLite's
    [sqlite_sequence] entry of an AUTOINCREMENT key). *)
Record database : Type := {
  file_cache : list cache_row;
  file_cache_seq : Z
}.

(** The [file_ids] argument: a list of ids, or anything else through
    [str(file_ids)]. *)
Variant file_ids_arg : Type :=
  | IdList (ids : list string)
  | IdOther (text : string).

(** [SELECT ... FROM file_cache WHERE url = ?] followed by [fetchone()]. *)
Definition select_by_url (db : database) (u : string) : option cache_row :=
  List.find (fun r => String.eqb (url r) u) (file_cache db).

(** [UPDATE file_cache SET file_id = ?, media_type = ?, uploader_id = ?,
    created_at = ? WHERE id = ?]. *)
Definition update_by_id (cache_id : Z) (fid mt : string) (uid now : Z)
    (rows : list cache_row) : list cache_row :=
  map (fun r =>
         if id r =? cache_id
         then {| id := id r; url := url r; file_id := fid; media_type := mt;
                 uploader_id := uid; created_at := now |}
         else r) rows.

(** The key an [INSERT] receives: one more than every id in the table and
    every id given out before. *)
Definition next_id (db : database) : Z :=
  1 + fold_right Z.max (file_cache_seq db) (map id (file_cache db)).

(** [get_cached_file(url)]: the ids and the media type of the row, [None]
    when there is no row.  A [file_id] that is not JSON is one raw id. *)
Definition get_cached_file (db : database) (u : string) : option (list json * string) :=
  match select_by_url db u with
  | Some r =>
      match loads (file_id r) with
      | Some (JArr file_ids) => Some (file_ids, media_type r)
      | Some v => Some ([v], media_type r)
      | None => Some ([JStr (file_id r)], media_type r)
      end
  | None => None
  end.

(** [save_file_to_cache(url, file_ids, media_type, user_id)] at time
    [now]: the returned id and the database afterwards.  The [except]
    branch ([None]) answers an SQLite error, which the model does not
    have. *)
Definition save_file_to_cache (db : database) (u : string) (file_ids : file_ids_arg)
    (mt : string) (user_id now : Z) : option Z * database :=
  let '(file_id_str, mt) :=
    match file_ids with
    | IdList ids =>
        (dumps ids, if (1 <? length ids)%nat then "carousel" else mt)
    | IdOther text => (text, mt)
    end in
  match select_by_url db u with
  | Some existing =>
      let cache_id := id existing in
      (Some cache_id,
       {| file_cache := update_by_id cache_id file_id_str mt user_id now (file_cache db);
          file_cache_seq := file_cache_seq db |})
  | None =>
      let cache_id := next_id db in
      (Some cache_id,
       {| file_cache := file_cache db ++
            [{| id := cache_id; url := u; file_id := file_id_str; media_type := mt;
                uploader_id := user_id; created_at := now |}];
          file_cache_seq := cache_id |})
  end.

(** The media type the cache stores for a list of ids. *)
Definition coerce (mt : string) (n : nat) : string :=
  if (1 <? n)%nat then "carousel" else mt.

(** [SELECT file_id, media_type FROM file_cache WHERE id = ?] followed by
    [fetchone()]. *)
Definition select_by_id (db : database) (cache_id : Z) : option cache_row :=
  List.find (fun r => id r =? cache_id) (file_cache db).

(** [get_file_by_id(cache_id)]. *)
Definition get_file_by_id (db : database) (cache_id : Z) : option (list json * string) :=
  match select_by_id db cache_id with
  | Some r =>
      match loads (file_id r) with
      | Some (JArr file_ids) => Some (file_ids, media_type r)
      | Some v => Some ([v], media_type r)
      | None => Some ([JStr (file_id r)], media_type r)
      end
  | None => None
  end.

(** [get_cache_id_by_url(url)]. *)
Definition get_cache_id_by_url (db : database) (u : string) : option Z :=
  match select_by_url db u with
  | Some r => Some (id r)
  | None => None
  end.

(** What the schema of [file_cache] keeps: [url TEXT UNIQUE],
    [id INTEGER PRIMARY KEY AUTOINCREMENT] with its sequence. *)
Definition schema_ok (db : database) : Prop :=
  NoDup (map url (file_cache db)) /\
  NoDup (map id (file_cache db)) /\
  Forall (fun r => id r <= file_cache_seq db) (file_cache db).

Definition empty : database := {| file_cache := []; file_cache_seq := 0 |}.

(** A call of [save_file_to_cache] and a sequence of calls. *)
Record save_request : Type := {
  req_url : string;
  req_file_ids : file_ids_arg;
  req_media_type : string;
  req_user_id : Z;
  req_time : Z
}.

Definition save (db : database) (q : save_request) : database :=
  snd (save_file_to_cache db (req_url q) (req_file_ids q) (req_media_type q)
         (req_user_id q) (req_time q)).

Definition saves (reqs : list save_request) (db : database) : database :=
  fold_left save reqs db.

(** A letter that starts none of the JSON literals [null], [true],
    [false], [NaN] and [Infinity]. *)
Definition plain_letter (c : ascii) : bool :=
  let n := Py.ord c in
  ((65 <=? n) && (n <=? 90) || (97 <=? n) && (n <=? 122))%N &&
  negb (Py.has_char c "ntfNI").

End Database.

(** ** database.py: the transcriptions *)

Module Transcriptions.

(** A row of [transcriptions]. *)
Record row : Type := {
  id : Z;
  file_unique_id : string;
  user_id : Z;
  transcription_text : string;
  created_at : Z
}.

(** The table in rowid order and its AUTOINCREMENT sequence. *)
Record table : Type := {
  rows : list row;
  seq : Z
}.

Definition empty : table := {| rows := []; seq := 0 |}.

Definition next_id (t : table) : Z :=
  1 + fold_right Z.max (seq t) (map id (rows t)).

(** [if user_id:] for an argument that is [None] or an integer: the
    filter on the user applies to a non-zero integer only. *)
Definition user_filter (user_id : option Z) : option Z :=
  match user_id with
  | Some u => if u =? 0 then None else Some u
  | None => None
  end.

Definition matches (fuid : string) (user : option Z) (r : row) : bool :=
  String.eqb (file_unique_id r) fuid &&
  match user_filter user with
  | Some u => user_id r =? u
  | None => true
  end.

(** [save_transcription(file_unique_id, user_id, transcription_text)] at
    time [now].  [INSERT OR REPLACE] on the table with
    [file_unique_id TEXT UNIQUE]: the rows with that [file_unique_id] are
    deleted and one row is inserted under a fresh id. *)
Definition save_transcription (t : table) (fuid : string) (user : Z) (text : string)
    (now : Z) : bool * table :=
  let kept := List.filter (fun r => negb (String.eqb (file_unique_id r) fuid)) (rows t) in
  let new_id := next_id t in
  (true,
   {| rows := kept ++ [{| id := new_id; file_unique_id := fuid; user_id := user;
                          transcription_text := text; created_at := now |}];
      seq := new_id |}).

(** [get_transcription(file_unique_id, user_id=None)]. *)
Definition get_transcription (t : table) (fuid : string) (user : option Z) : option string :=
  match List.find (matches fuid user) (rows t) with
  | Some r => Some (transcription_text r)
  | None => None
  end.

(** [delete_transcription(file_unique_id, user_id=None)]. *)
Definition delete_transcription (t : table) (fuid : string) (user : option Z)
    : bool * table :=
  (true,
   {| rows := List.filter (fun r => negb (matches fuid user r)) (rows t);
      seq := seq t |}).

(** [file_unique_id TEXT UNIQUE]. *)
Definition schema_ok (t : table) : Prop := NoDup (map file_unique_id (rows t)).

End Transcriptions.

(** ** database.py: the downloaded files *)

Module DownloadedFiles.

(** A row of [downloaded_files].  Times are instants on one clock, as
    integers; SQLite compares the ISO texts of [datetime.now()], which are
    in the order of the instants. *)
Record row : Type := {
  id : Z;
  url : string;
  file_path : string;
  file_size : Z;
  file_type : string;
  media_type : string;
  task_dir : string;
  downloaded_at : Z;
  expires_at : Z;
  cache_id : option Z
}.

Record table : Type := {
  rows : list row;
  seq : Z
}.

Definition empty : table := {| rows := []; seq := 0 |}.

Definition next_id (t : table) : Z :=
  1 + fold_right Z.max (seq t) (map id (rows t)).

(** [os.path.exists(p)] for the path of a file. *)
Definition exists_ (fs : filesystem) (p : string) : bool :=
  match fs !! p with Some _ => true | None => false end.

(** [timedelta(hours=h)] in the unit of the clock, microseconds. *)
Definition hours (h : Z) : Z := h * 3600000000.

(** The dictionary [get_downloaded_file] returns. *)
Record file_info : Type := {
  info_file_path : string;
  info_file_size : Z;
  info_file_type : string;
  info_media_type : string;
  info_task_dir : string;
  info_cache_id : option Z
}.

(** [save_downloaded_file(url, file_path, file_size, file_type,
    media_type, task_dir, cache_id, expires_hours)] at time [now]: the
    returned id ([None] when the file does not exist) and the table. *)
Definition save_downloaded_file (t : table) (fs : filesystem) (u path : string)
    (size : Z) (ftype mtype dir : string) (cid : option Z) (expires_hours now : Z)
    : option Z * table :=
  if negb (exists_ fs path) then (None, t)
  else
    let expires := now + hours expires_hours in
    match List.find (fun r => String.eqb (url r) u) (rows t) with
    | Some existing =>
        let file_id := id existing in
        (Some file_id,
         {| rows := map (fun r =>
                           if id r =? file_id
                           then {| id := id r; url := url r; file_path := path;
                                   file_size := size; file_type := ftype;
                                   media_type := mtype; task_dir := dir;
                                   downloaded_at := now; expires_at := expires;
                                   cache_id := cid |}
                           else r) (rows t);
            seq := seq t |})
    | None =>
        let file_id := next_id t in
        (Some file_id,
         {| rows := rows t ++
              [{| id := file_id; url := u; file_path := path; file_size := size;
                  file_type := ftype; media_type := mtype; task_dir := dir;
                  downloaded_at := now; expires_at := expires; cache_id := cid |}];
            seq := file_id |})
    end.

(** [get_downloaded_file(url)] at time [now].  A row whose file is gone
    is deleted. *)
Definition get_downloaded_file (t : table) (fs : filesystem) (u : string) (now : Z)
    : option file_info * table :=
  match List.find (fun r => String.eqb (url r) u && (now <? expires_at r)) (rows t) with
  | Some r =>
      if exists_ fs (file_path r)
      then (Some {| info_file_path := file_path r; info_file_size := file_size r;
                    info_file_type := file_type r; info_media_type := media_type r;
                    info_task_dir := task_dir r; info_cache_id := cache_id r |}, t)
      else (None,
            {| rows := List.filter (fun r => negb (String.eqb (url r) u)) (rows t);
               seq := seq t |})
  | None => (None, t)
  end.

(** [delete_downloaded_file(url)]. *)
Definition delete_downloaded_file (t : table) (u : string) : bool * table :=
  (true,
   {| rows := List.filter (fun r => negb (String.eqb (url r) u)) (rows t);
      seq := seq t |}).

(** The rows [cleanup_expired_files] selects at time [now]. *)
Definition expired (now : Z) (r : row) : bool := expires_at r <? now.

(** [DELETE FROM downloaded_files WHERE id = ?]. *)
Definition delete_by_id (file_id : Z) (l : list row) : list row :=
  List.filter (fun r => negb (id r =? file_id)) l.

(** [cleanup_expired_files()] at time [now]: the count it returns, the
    table afterwards and, row by row, the [file_path] and [task_dir] the
    loop goes through.  It removes each of them from the disk where it is
    not empty and exists, and only logs a failure; the disk itself is not
    part of this result. *)
Definition cleanup_expired_files (t : table) (now : Z)
    : Z * table * list (string * string) :=
  let selected := List.filter (expired now) (rows t) in
  (Z.of_nat (length selected),
   {| rows := fold_left (fun l r => delete_by_id (id r) l) selected (rows t);
      seq := seq t |},
   map (fun r => (file_path r, task_dir r)) selected).

(** [url TEXT UNIQUE] and the primary key. *)
Definition schema_ok (t : table) : Prop :=
  NoDup (map url (rows t)) /\ NoDup (map id (rows t)) /\
  Forall (fun r => id r <= seq t) (rows t).

End DownloadedFiles.

(** ** [urllib.parse], as far as [normalize_url] uses it *)

Module Url.

(** The code points of a string, and back. *)
Definition code_points (s : string) : list N := map Py.ord (list_ascii_of_string s).

(** *** UTF-8, for the percent escapes of a query *)

(** U+FFFD, the replacement character. *)
Definition REPLACEMENT : N := 65533.

Definition between (lo hi b : N) : bool := ((lo <=? b) && (b <=? hi))%N.

(** The bytes allowed after the first byte [b0] of a three-byte and of a
    four-byte sequence. *)
Definition second_of_3 (b0 b1 : N) : bool :=
  (if b0 =? 224 then between 160 191 b1
   else if b0 =? 237 then between 128 159 b1
   else between 128 191 b1)%N.
Definition second_of_4 (b0 b1 : N) : bool :=
  (if b0 =? 240 then between 144 191 b1
   else if b0 =? 244 then between 128 143 b1
   else between 128 191 b1)%N.

(** [bytes.decode('utf-8', 'replace')]: every maximal ill-formed piece
    becomes one U+FFFD and decoding resumes at the byte that broke it. *)
Fixpoint utf8_decode (b : list N) : list N :=
  match b with
  | [] => []
  | b0 :: r0 =>
      if (b0 <? 128)%N then b0 :: utf8_decode r0
      else if between 194 223 b0 then
        match r0 with
        | b1 :: r1 =>
            if between 128 191 b1
            then ((b0 - 192) * 64 + (b1 - 128))%N :: utf8_decode r1
            else REPLACEMENT :: utf8_decode r0
        | [] => [REPLACEMENT]
        end
      else if between 224 239 b0 then
        match r0 with
        | b1 :: r1 =>
            if second_of_3 b0 b1 then
              match r1 with
              | b2 :: r2 =>
                  if between 128 191 b2
                  then (((b0 - 224) * 64 + (b1 - 128)) * 64 + (b2 - 128))%N :: utf8_decode r2
                  else REPLACEMENT :: utf8_decode r1
              | [] => [REPLACEMENT]
              end
            else REPLACEMENT :: utf8_decode r0
        | [] => [REPLACEMENT]
        end
      else if between 240 244 b0 then
        match r0 with
        | b1 :: r1 =>
            if second_of_4 b0 b1 then
              match r1 with
              | b2 :: r2 =>
                  if between 128 191 b2 then
                    match r2 with
                    | b3 :: r3 =>
                        if between 128 191 b3
                        then ((((b0 - 240) * 64 + (b1 - 128)) * 64 + (b2 - 128)) * 64
                              + (b3 - 128))%N :: utf8_decode r3
                        else REPLACEMENT :: utf8_decode r2
                    | [] => [REPLACEMENT]
                    end
                  else REPLACEMENT :: utf8_decode r1
              | [] => [REPLACEMENT]
              end
            else REPLACEMENT :: utf8_decode r0
        | [] => [REPLACEMENT]
        end
      else REPLACEMENT :: utf8_decode r0
  end.

(** [chr(c).encode('utf-8')]; [None] for [UnicodeEncodeError] (a
    surrogate) and for a number that is no code point. *)
Definition utf8_encode_char (c : N) : option (list N) :=
  (if c <? 128 then Some [c]
   else if c <? 2048 then Some [192 + c / 64; 128 + c mod 64]
   else if c <? 65536 then
     if between 55296 57343 c then None
     else Some [224 + c / 4096; 128 + (c / 64) mod 64; 128 + c mod 64]
   else if c <? 1114112 then
     Some [240 + c / 262144; 128 + (c / 4096) mod 64; 128 + (c / 64) mod 64; 128 + c mod 64]
   else None)%N.

Fixpoint utf8_encode (s : list N) : option (list N) :=
  match s with
  | [] => Some []
  | c :: r =>
      match utf8_encode_char c, utf8_encode r with
      | Some b, Some t => Some (b ++ t)
      | _, _ => None
      end
  end.

(** *** [quote_plus] and [unquote] *)

(** [_ALWAYS_SAFE]: letters, digits and [_.-~]. *)
Definition always_safe (b : N) : bool :=
  (between 65 90 b || between 97 122 b || between 48 57 b ||
   (b =? 95) || (b =? 46) || (b =? 45) || (b =? 126))%N.

Definition HEXDIGIT (n : N) : ascii :=
  (if n <? 10 then Py.chr (48 + n) else Py.chr (55 + n))%N.

(** One byte of [quote_from_bytes(bs, safe)]. *)
Definition quote_byte (safe : list N) (b : N) : string :=
  if always_safe b || existsb (N.eqb b) safe
  then String (Py.chr b) EmptyString
  else String "%" (String (HEXDIGIT (b / 16)) (String (HEXDIGIT (b mod 16)) EmptyString)).

(** [quote(string, safe)] of a text given by its code points. *)
Definition quote (s : list N) (safe : list N) : option string :=
  match utf8_encode s with
  | Some b => Some (String.concat EmptyString (map (quote_byte safe) b))
  | None => None
  end.

(** [s.replace(' ', '+')]. *)
Fixpoint space_to_plus (s : string) : string :=
  match s with
  | EmptyString => EmptyString
  | String c r => String (if Ascii.eqb c " " then "+"%char else c) (space_to_plus r)
  end.

(** [s.replace('+', ' ')]. *)
Fixpoint plus_to_space (s : string) : string :=
  match s with
  | EmptyString => EmptyString
  | String c r => String (if Ascii.eqb c "+" then " "%char else c) (plus_to_space r)
  end.

(** [quote_plus(string)] with the default [safe='']. *)
Definition quote_plus (s : list N) : option string :=
  if negb (existsb (N.eqb 32) s) then quote s []
  else option_map space_to_plus (quote s [32%N]).

Definition hexval (c : ascii) : option N := Json.hexval c.

(** [unquote_to_bytes] of a run of ASCII characters: [%xx] with two hex
    digits is the byte, any other [%] stays. *)
Fixpoint unquote_to_bytes (s : string) : list N :=
  match s with
  | EmptyString => []
  | String c r =>
      if Ascii.eqb c "%" then
        match r with
        | String a (String b t) =>
            match hexval a, hexval b with
            | Some x, Some y => (x * 16 + y)%N :: unquote_to_bytes t
            | _, _ => Py.ord c :: unquote_to_bytes r
            end
        | _ => Py.ord c :: unquote_to_bytes r
        end
      else Py.ord c :: unquote_to_bytes r
  end.

(** [_asciire.split]: the maximal runs of ASCII ([true]) and of other
    characters ([false]), in order. *)
Fixpoint ascii_runs (s : string) : list (bool * string) :=
  match s with
  | EmptyString => []
  | String c r =>
      let a := (Py.ord c <? 128)%N in
      match ascii_runs r with
      | (b, t) :: g =>
          if Bool.eqb a b then (b, String c t) :: g
          else (a, String c EmptyString) :: (b, t) :: g
      | [] => [(a, String c EmptyString)]
      end
  end.

(** [unquote(string)] with the defaults [encoding='utf-8'],
    [errors='replace'], as code points. *)
Definition unquote (s : string) : list N :=
  if negb (Py.has_char "%" s) then code_points s
  else
    concat (map (fun '(a, t) =>
                   if a : bool then utf8_decode (unquote_to_bytes t)
                   else code_points t)
                (ascii_runs s)).

(** *** [parse_qs] and [urlencode] *)

(** [parse_qsl(qs)] with the defaults: fields without [=] and fields with
    an empty value are dropped. *)
Definition parse_qsl (qs : string) : list (list N * list N) :=
  let query_args := if Py.is_empty qs then [] else Py.split "&" qs in
  flat_map (fun name_value =>
              match Py.partition "=" name_value with
              | (name, Some value) =>
                  if Py.is_empty value then []
                  else [(unquote (plus_to_space name), unquote (plus_to_space value))]
              | (_, None) => []
              end)
           query_args.

(** A [dict] from names to lists of values, in insertion order. *)
Abbreviation query_dict := (list (list N * list (list N))).

Definition key_eqb (a b : list N) : bool := bool_decide (a = b).

(** [d[k].append(v)] if [k in d], else [d[k] = [v]]. *)
Fixpoint dict_append (k v : list N) (d : query_dict) : query_dict :=
  match d with
  | [] => [(k, [v])]
  | (k', vs) :: r =>
      if key_eqb k k' then (k', vs ++ [v]) :: r
      else (k', vs) :: dict_append k v r
  end.

Definition parse_qs (qs : string) : query_dict :=
  fold_left (fun d '(name, value) => dict_append name value d) (parse_qsl qs) [].

(** [d.get(k)]. *)
Definition dict_get (k : list N) (d : query_dict) : option (list (list N)) :=
  match List.find (fun '(k', _) => key_eqb k k') d with
  | Some (_, vs) => Some vs
  | None => None
  end.

(** The items of [urlencode(d, doseq=True)] before the join; [None] for
    [UnicodeEncodeError]. *)
Fixpoint urlencode_items (d : query_dict) : option (list string) :=
  match d with
  | [] => Some []
  | (k, vs) :: r =>
      match quote_plus k with
      | Some kq =>
          let items :=
            fold_right (fun v acc =>
                          match quote_plus v, acc with
                          | Some vq, Some l => Some ((kq +:+ "=" +:+ vq) :: l)
                          | _, _ => None
                          end) (Some []) vs in
          match items, urlencode_items r with
          | Some l1, Some l2 => Some (l1 ++ l2)
          | _, _ => None
          end
      | None => None
      end
  end.

Definition urlencode (d : query_dict) : option string :=
  option_map (Py.join "&") (urlencode_items d).

(** *** [urlparse] and [urlunparse] *)

Record parse_result : Type := {
  scheme : string;
  netloc : string;
  path : string;
  params : string;
  query : string;
  fragment : string
}.

Definition uses_params : list string :=
  [""; "ftp"; "hdl"; "prospero"; "http"; "imap"; "https"; "shttp"; "rtsp";
   "rtspu"; "sip"; "sips"; "mms"; "sftp"; "tel"].

Definition uses_netloc : list string :=
  [""; "ftp"; "http"; "gopher"; "nntp"; "telnet"; "imap"; "wais"; "file";
   "mms"; "https"; "shttp"; "snews"; "prospero"; "rtsp"; "rtspu"; "rsync";
   "svn"; "svn+ssh"; "sftp"; "nfs"; "git"; "git+ssh"; "ws"; "wss"].

Definition is_ascii_alpha (c : ascii) : bool :=
  let n := Py.ord c in between 65 90 n || between 97 122 n.

(** [scheme_chars]: letters, digits and [+-.]. *)
Definition scheme_char (c : ascii) : bool :=
  let n := Py.ord c in
  (between 65 90 n || between 97 122 n || between 48 57 n ||
   (n =? 43) || (n =? 45) || (n =? 46))%N.

(** [_WHATWG_C0_CONTROL_OR_SPACE] and [_UNSAFE_URL_BYTES_TO_REMOVE]. *)
Definition c0_or_space (c : ascii) : bool := (Py.ord c <=? 32)%N.
Definition unsafe_byte (c : ascii) : bool :=
  let n := Py.ord c in ((n =? 9) || (n =? 13) || (n =? 10))%N.

(** The text before the first character that satisfies [p], and the text
    from that character on. *)
Fixpoint break_at (p : ascii -> bool) (s : string) : string * string :=
  match s with
  | EmptyString => (EmptyString, EmptyString)
  | String c r =>
      if p c then (EmptyString, s)
      else let '(a, b) := break_at p r in (String c a, b)
  end.

Definition netloc_end (c : ascii) : bool :=
  Ascii.eqb c "/" || Ascii.eqb c "?" || Ascii.eqb c "#".

(** The scheme, when the text before the first colon is one, and the text
    that remains. *)
Definition split_scheme (url : string) : string * string :=
  match Py.partition ":" url with
  | (String c0 _ as before, Some after) =>
      if is_ascii_alpha c0 && Py.str_all scheme_char before
      then (Py.lower before, after)
      else (EmptyString, url)
  | _ => (EmptyString, url)
  end.

(** [_splitparams]. *)
Definition splitparams (url : string) : string * string :=
  match Py.rpartition "/" url with
  | Some (dir, name) =>
      match Py.partition ";" name with
      | (a, Some b) => (dir +:+ "/" +:+ a, b)
      | (_, None) => (url, EmptyString)
      end
  | None =>
      match Py.partition ";" url with
      | (a, Some b) => (a, b)
      | (_, None) => (url, EmptyString)
      end
  end.

Section Parse.

(** The check newer Pythons run on a netloc that holds both [[] and []]
    (an IPv6 or IPvFuture literal, through the [ipaddress] module): [true]
    when it raises no [ValueError].  Older Pythons have no such check. *)
Variable check_bracketed_netloc : string -> bool.

(** [urlsplit(url)]: scheme, netloc, path, query, fragment; [None] for
    [ValueError].  [_checknetloc] never raises on this alphabet: no
    character below U+0100 normalizes (NFKC) to one of [/?#@:]. *)
Definition urlsplit (url : string) : option (string * string * string * string * string) :=
  let url := Py.lstrip_by c0_or_space url in
  let url := Py.remove_char unsafe_byte url in
  let '(scheme, url) := split_scheme url in
  let '(netloc, url) :=
    match url with
    | String "/" (String "/" r) => break_at netloc_end r
    | _ => (EmptyString, url)
    end in
  let lb := Py.has_char "[" netloc in
  let rb := Py.has_char "]" netloc in
  if xorb lb rb then None
  else if lb && rb && negb (check_bracketed_netloc netloc) then None
  else
    let '(url, fragment) :=
      match Py.partition "#" url with
      | (a, Some b) => (a, b)
      | (_, None) => (url, EmptyString)
      end in
    let '(url, query) :=
      match Py.partition "?" url with
      | (a, Some b) => (a, b)
      | (_, None) => (url, EmptyString)
      end in
    Some (scheme, netloc, url, query, fragment).

Definition urlparse (url : string) : option parse_result :=
  match urlsplit url with
  | Some (scheme, netloc, url, query, fragment) =>
      let '(url, params) :=
        if Py.str_mem scheme uses_params && Py.has_char ";" url
        then splitparams url
        else (url, EmptyString) in
      Some {| scheme := scheme; netloc := netloc; path := url; params := params;
              query := query; fragment := fragment |}
  | None => None
  end.

End Parse.

Definition urlunsplit (scheme netloc url query fragment : string) : string :=
  let url :=
    if negb (Py.is_empty netloc) ||
       (negb (Py.is_empty scheme) && Py.str_mem scheme uses_netloc &&
        negb (Py.startswith "//" url))
    then
      let url := if negb (Py.is_empty url) && negb (Py.startswith "/" url)
                 then "/" +:+ url else url in
      "//" +:+ netloc +:+ url
    else url in
  let url := if negb (Py.is_empty scheme) then scheme +:+ ":" +:+ url else url in
  let url := if negb (Py.is_empty query) then url +:+ "?" +:+ query else url in
  let url := if negb (Py.is_empty fragment) then url +:+ "#" +:+ fragment else url in
  url.

Definition urlunparse (scheme netloc url params query fragment : string) : string :=
  let url := if negb (Py.is_empty params) then url +:+ ";" +:+ params else url in
  urlunsplit scheme netloc url query fragment.

(** *** Words for the statements about links and queries *)

(** The query and the fragment of a link with their delimiters. *)
Definition query_part (q : option string) : string :=
  match q with
  | None => EmptyString
  | Some x => "?" +:+ x
  end.

Definition fragment_part (f : option string) : string :=
  match f with
  | None => EmptyString
  | Some x => "#" +:+ x
  end.

(** A pair of [parse_qsl], from the two parts of its field. *)
Definition decode (p : string * string) : list N * list N :=
  (unquote (plus_to_space (fst p)), unquote (plus_to_space (snd p))).

(** The step of the fold in [parse_qs], and a test on the key of an
    item. *)
Definition add_pair (d : query_dict) (p : list N * list N) : query_dict :=
  let '(name, value) := p in dict_append name value d.

Definition on_key (P : list N -> bool) (kv : list N * list (list N)) : bool :=
  P (fst kv).

(** The entry of name [n] in the dictionary of the pairs [l]. *)
Definition entry (l : list (string * string)) (n : string) : list N * list (list N) :=
  (code_points n,
   map (fun p => code_points (snd p)) (List.filter (fun p => String.eqb (fst p) n) l)).

Definition code_pair (p : string * string) : list N * list N :=
  (code_points (fst p), code_points (snd p)).

End Url.

(** ** bot.py: the URL canonicalizer *)

Module Canon.

Import Url.

Definition SUPPORTED_PLATFORMS : list string :=
  ["instagram.com"; "tiktok.com"; "vt.tiktok.com"; "youtube.com"; "youtu.be";
   "soundcloud.com"].

(** [is_supported_url(url)]. *)
Definition is_supported_url (url : string) : bool :=
  if Py.is_empty url then false
  else existsb (fun platform => Py.contains platform (Py.lower url)) SUPPORTED_PLATFORMS.

Definition img_index : list N := code_points "img_index".
Definition allowed_params : list (list N) := [code_points "v"; code_points "t"].

Section Normalize.

Variable check_bracketed_netloc : string -> bool.

(** The [try] block of [normalize_url] on the stripped text: the value it
    returns, or [None] when it raises or takes no branch. *)
Definition normalize_parsed (url : string) : option string :=
  match urlparse check_bracketed_netloc url with
  | None => None
  | Some parsed =>
      if Py.contains "instagram.com" (netloc parsed) ||
         Py.contains "facebook.com" (netloc parsed) then
        let query := parse_qs (query parsed) in
        let filtered_query :=
          match dict_get img_index query with
          | Some vs => [(img_index, vs)]
          | None => []
          end in
        match urlencode filtered_query with
        | Some new_query =>
            let path := Py.rstrip_char "/" (path parsed) in
            Some (urlunparse (scheme parsed) (netloc parsed) path (params parsed)
                             new_query EmptyString)
        | None => None
        end
      else if Py.contains "tiktok.com" (netloc parsed) then
        let path := Py.rstrip_char "/" (path parsed) in
        Some (urlunparse (scheme parsed) (netloc parsed) path (params parsed)
                         EmptyString EmptyString)
      else if Py.contains "youtube.com" (netloc parsed) ||
              Py.contains "youtu.be" (netloc parsed) then
        let query := parse_qs (query parsed) in
        let filtered_query :=
          filter (fun '(k, _) => existsb (key_eqb k) allowed_params) query in
        match urlencode filtered_query with
        | Some new_query =>
            let path := Py.rstrip_char "/" (path parsed) in
            Some (urlunparse (scheme parsed) (netloc parsed) path (params parsed)
                             new_query EmptyString)
        | None => None
        end
      else if Py.contains "soundcloud.com" (netloc parsed) then
        let path := Py.rstrip_char "/" (path parsed) in
        Some (urlunparse (scheme parsed) (netloc parsed) path (params parsed)
                         EmptyString EmptyString)
      else None
  end.

(** [normalize_url(url)]. *)
Definition normalize_url (url : string) : string :=
  if Py.is_empty url then url
  else
    let url := Py.strip url in
    match normalize_parsed url with
    | Some canonical => canonical
    | None => Py.rstrip url
    end.

End Normalize.

End Canon.

(** ** The canonical form of a link, in the words of the specification

    The definitions of this module follow the text of the specification,
    not the source: a link in its parts, its variants (trailing slashes,
    tracking parameters, a fragment) and its minimal form. *)

Module CanonSpec.

Variant platform : Type := Instagram | TikTok | YouTube | SoundCloud.

(** The platform of a host, by the domain it holds. *)
Definition platform_of (host : string) : option platform :=
  if Py.contains "instagram.com" host || Py.contains "facebook.com" host then Some Instagram
  else if Py.contains "tiktok.com" host then Some TikTok
  else if Py.contains "youtube.com" host || Py.contains "youtu.be" host then Some YouTube
  else if Py.contains "soundcloud.com" host then Some SoundCloud
  else None.

(** The query parameters that survive: [img_index], [v] and [t]. *)
Definition whitelist (p : platform) : list string :=
  match p with
  | Instagram => ["img_index"]
  | YouTube => ["v"; "t"]
  | TikTok | SoundCloud => []
  end.

Record url_parts : Type := {
  url_scheme : string;
  url_host : string;
  url_path : string;            (* without its trailing slashes *)
  trailing_slashes : nat;
  query_fields : list string;   (* the fields between [?], [&] and [#] *)
  url_fragment : option string
}.

Fixpoint slashes (n : nat) : string :=
  match n with
  | O => EmptyString
  | S n => String "/" (slashes n)
  end.

(** The text of a link. *)
Definition render (u : url_parts) : string :=
  url_scheme u +:+ "://" +:+ url_host u +:+ url_path u +:+
  slashes (trailing_slashes u) +:+
  match query_fields u with
  | [] => EmptyString
  | fields => "?" +:+ Py.join "&" fields
  end +:+
  match url_fragment u with
  | None => EmptyString
  | Some f => "#" +:+ f
  end.

(** A field [name=value] with a value, in its two parts. *)
Definition parse_field (field : string) : option (string * string) :=
  match Py.partition "=" field with
  | (name, Some value) => if Py.is_empty value then None else Some (name, value)
  | (_, None) => None
  end.

Definition render_pair (p : string * string) : string := fst p +:+ "=" +:+ snd p.

(** The names of a list, each once, in the order of their first
    appearance. *)
Definition first_seen (names : list string) : list string :=
  fold_left (fun seen n => if Py.str_mem n seen then seen else seen ++ [n]) names [].

(** The parameters grouped by name, the names in the order of their first
    appearance, the values of a name in their order. *)
Definition grouped (pairs : list (string * string)) : list (string * string) :=
  flat_map (fun n => List.filter (fun p => String.eqb (fst p) n) pairs)
           (first_seen (map fst pairs)).

(** The whitelisted parameters of a query. *)
Definition survivors (allowed : list string) (fields : list string) : list (string * string) :=
  grouped (List.filter (fun p => Py.str_mem (fst p) allowed) (omap parse_field fields)).

(** The characters of the parts: visible ASCII, without the delimiters of
    the part that follows. *)
Definition visible (c : ascii) : bool :=
  let n := Py.ord c in ((33 <=? n) && (n <=? 126))%N.
Definition none_of (delimiters : string) (c : ascii) : bool :=
  visible c && negb (Py.has_char c delimiters).
Definition token_char (c : ascii) : bool :=
  let n := Py.ord c in
  ((65 <=? n) && (n <=? 90) || (97 <=? n) && (n <=? 122) || (48 <=? n) && (n <=? 57) ||
   (n =? 95) || (n =? 46) || (n =? 45) || (n =? 126))%N.

(** A field of the query: its name is a plain token; the value of a
    whitelisted name is a plain token too, any other value is free. *)
Definition plain_field (allowed : list string) (field : string) : bool :=
  Py.str_all (none_of "&#") field &&
  match Py.partition "=" field with
  | (name, value) =>
      Py.str_all token_char name &&
      (negb (Py.str_mem name allowed) ||
       match value with
       | Some v => Py.str_all token_char v
       | None => true
       end)
  end.

(** A link that carries its scheme, with a host of a supported platform,
    a path without parameters and plain query fields. *)
Definition well_formed (u : url_parts) : bool :=
  Py.str_mem (url_scheme u) ["http"; "https"] &&
  Py.str_all (none_of "/?#[]") (url_host u) &&
  Py.str_all (none_of "?#;") (url_path u) &&
  (Py.is_empty (url_path u) || Py.startswith "/" (url_path u)) &&
  negb (Py.endswith_char "/" (url_path u)) &&
  match platform_of (url_host u) with
  | Some p => forallb (plain_field (whitelist p)) (query_fields u)
  | None => false
  end &&
  match url_fragment u with
  | Some f => Py.str_all visible f
  | None => true
  end.

(** The minimal form: no trailing slash, no fragment, and of the query
    the whitelisted parameters only. *)
Definition minimal (u : url_parts) : url_parts :=
  {| url_scheme := url_scheme u;
     url_host := url_host u;
     url_path := url_path u;
     trailing_slashes := 0;
     query_fields :=
       match platform_of (url_host u) with
       | Some p => map render_pair (survivors (whitelist p) (query_fields u))
       | None => query_fields u
       end;
     url_fragment := None |}.

(** The fields of a query that are not tracking parameters: those whose
    name is whitelisted. *)
Definition field_name (field : string) : string := fst (Py.partition "=" field).
Definition kept_fields (allowed : list string) (fields : list string) : list string :=
  List.filter (fun field => Py.str_mem (field_name field) allowed) fields.

(** [v] differs from [u] only in trailing slashes, the fragment and the
    tracking parameters. *)
Definition variant_of (u v : url_parts) : Prop :=
  url_scheme v = url_scheme u /\ url_host v = url_host u /\ url_path v = url_path u /\
  forall p, platform_of (url_host u) = Some p ->
    kept_fields (whitelist p) (query_fields v) = kept_fields (whitelist p) (query_fields u).

End CanonSpec.

(** ** bot.py: the in-flight registry [active_downloads] *)

Module Registry.

(** What a download's future is completed with. *)
Variant outcome : Type :=
  | Delivered (file_ids : list string) (file_type : string)
  | NoFiles            (* [(None, None)] or [([], None)] *)
  | Cancelled.         (* [future.cancel()] *)

(** Where a request stands between two [await]s.  The coroutines run on
    one event loop, so the code between two [await]s is one step. *)
Variant pc : Type :=
  (* download_and_cache_inline *)
  | InlineStart (k : string)             (* before [if normalized_url in active_downloads] *)
  | InlineJoined (k : string) (f : nat)  (* [await future] of an existing entry *)
  | InlineWorking (k : string) (f : nat) (* inside [try], the own future pending *)
  | InlineResolved (k : string) (f : nat)(* own future done, [finally] not yet run *)
  (* inline_handler, waiting on an entry it found *)
  | HandlerJoined (k : string) (f : nat) (* [await asyncio.wait_for(future, 8.0)] *)
  (* process_single_url *)
  | MsgStart (k : string)                (* before [if normalized_url in active_downloads] *)
  | MsgJoined (k : string) (f : nat)     (* [await asyncio.wait_for(future, 300.0)] *)
  | MsgReuse (k : string)                (* after the wait or while sending a file from disk *)
  | MsgWorking (k : string) (f : nat)    (* inside [try], the own future pending *)
  | MsgResolved (k : string) (f : nat)   (* own future done, [finally] not yet run *)
  | Finished.

(** The registry, the futures created so far ([Some None] is a pending
    future, [Some (Some o)] a done one) and the requests by task. *)
Record state : Type := {
  active_downloads : gmap string nat;
  futures : gmap nat (option outcome);
  tasks : gmap nat pc
}.

Definition init : state :=
  {| active_downloads := ∅; futures := ∅; tasks := ∅ |}.

Definition set_task (t : nat) (p : pc) (s : state) : state :=
  {| active_downloads := active_downloads s; futures := futures s;
     tasks := <[t := p]> (tasks s) |}.

(** [future = asyncio.Future(); active_downloads[normalized_url] = future]. *)
Definition install (k : string) (f : nat) (s : state) : state :=
  {| active_downloads := <[k := f]> (active_downloads s);
     futures := <[f := None]> (futures s);
     tasks := tasks s |}.

(** [if not future.done(): future.set_result(result)], and
    [future.cancel()] alike: a done future keeps its value. *)
Definition complete (f : nat) (o : outcome) (s : state) : state :=
  {| active_downloads := active_downloads s;
     futures := match futures s !! f with
                | Some None => <[f := Some o]> (futures s)
                | _ => futures s
                end;
     tasks := tasks s |}.

Definition is_done (f : nat) (s : state) : bool :=
  match futures s !! f with
  | Some (Some _) => true
  | _ => false
  end.

(** The [finally] of download_and_cache_inline:
    [if normalized_url in active_downloads: if future.done():
    active_downloads.pop(normalized_url, None)]. *)
Definition finally_pop (k : string) (f : nat) (s : state) : state :=
  {| active_downloads :=
       match active_downloads s !! k with
       | Some _ => if is_done f s then delete k (active_downloads s) else active_downloads s
       | None => active_downloads s
       end;
     futures := futures s;
     tasks := tasks s |}.

(** The steps of download_and_cache_inline and of inline_handler. *)
Inductive inline_step : state -> state -> Prop :=
  | spawn_inline s t k :
      tasks s !! t = None ->
      inline_step s (set_task t (InlineStart k) s)
  | inline_join s t k f :
      tasks s !! t = Some (InlineStart k) ->
      active_downloads s !! k = Some f ->
      inline_step s (set_task t (InlineJoined k f) s)
  | inline_claim s t k f :
      tasks s !! t = Some (InlineStart k) ->
      active_downloads s !! k = None ->
      futures s !! f = None ->
      inline_step s (set_task t (InlineWorking k f) (install k f s))
  | inline_wake s t k f o :
      tasks s !! t = Some (InlineJoined k f) ->
      futures s !! f = Some (Some o) ->
      inline_step s (set_task t Finished s)
  | inline_resolve s t k f o :
      tasks s !! t = Some (InlineWorking k f) ->
      inline_step s (set_task t (InlineResolved k f) (complete f o s))
  | inline_finally s t k f :
      tasks s !! t = Some (InlineResolved k f) ->
      inline_step s (set_task t Finished (finally_pop k f s))
  | handler_join s t k f :
      tasks s !! t = None ->
      active_downloads s !! k = Some f ->
      inline_step s (set_task t (HandlerJoined k f) s)
  | handler_wake s t k f o :
      tasks s !! t = Some (HandlerJoined k f) ->
      futures s !! f = Some (Some o) ->
      inline_step s (set_task t Finished s)
  | handler_timeout s t k f :
      (* [wait_for] cancels the future it waited for *)
      tasks s !! t = Some (HandlerJoined k f) ->
      inline_step s (set_task t Finished (complete f Cancelled s)).

(** The steps of process_single_url. *)
Inductive msg_step : state -> state -> Prop :=
  | spawn_msg s t k :
      tasks s !! t = None ->
      msg_step s (set_task t (MsgStart k) s)
  | msg_join s t k f :
      tasks s !! t = Some (MsgStart k) ->
      active_downloads s !! k = Some f ->
      msg_step s (set_task t (MsgJoined k f) s)
  | msg_wake_sent s t k f o :
      (* the files of the other download were sent: [return] *)
      tasks s !! t = Some (MsgJoined k f) ->
      futures s !! f = Some (Some o) ->
      msg_step s (set_task t Finished s)
  | msg_wake_on s t k f o :
      (* no files, or the sending raised: on to step 3 *)
      tasks s !! t = Some (MsgJoined k f) ->
      futures s !! f = Some (Some o) ->
      msg_step s (set_task t (MsgReuse k) s)
  | msg_timeout s t k f :
      (* [wait_for] cancels the future, [TimeoutError] is caught: on to step 3 *)
      tasks s !! t = Some (MsgJoined k f) ->
      futures s !! f = Some None ->
      msg_step s (set_task t (MsgReuse k) (complete f Cancelled s))
  | msg_claim_direct s t k f :
      (* no entry and no file on disk: lines 2430-2633 without an [await] *)
      tasks s !! t = Some (MsgStart k) ->
      active_downloads s !! k = None ->
      futures s !! f = None ->
      msg_step s (set_task t (MsgWorking k f) (install k f s))
  | msg_disk s t k :
      (* no entry, a file on disk: it is sent, with [await]s *)
      tasks s !! t = Some (MsgStart k) ->
      active_downloads s !! k = None ->
      msg_step s (set_task t (MsgReuse k) s)
  | msg_reuse_sent s t k :
      tasks s !! t = Some (MsgReuse k) ->
      msg_step s (set_task t Finished s)
  | msg_claim_late s t k f :
      (* line 2633, without a look at the registry *)
      tasks s !! t = Some (MsgReuse k) ->
      futures s !! f = None ->
      msg_step s (set_task t (MsgWorking k f) (install k f s))
  | msg_resolve s t k f o :
      tasks s !! t = Some (MsgWorking k f) ->
      msg_step s (set_task t (MsgResolved k f) (complete f o s))
  | msg_finish s t k f :
      (* [finally: ... pass]: the entry stays *)
      tasks s !! t = Some (MsgResolved k f) ->
      msg_step s (set_task t Finished s).

Definition step (s s' : state) : Prop := inline_step s s' \/ msg_step s s'.

(** No request is running. *)
Definition quiescent (s : state) : Prop :=
  forall t p, tasks s !! t = Some p -> p = Finished.

(** Task [t] is the leader for [k] with future [f]: a
    download_and_cache_inline between its install and its [finally]. *)
Definition leader (s : state) (t : nat) (k : string) (f : nat) : Prop :=
  tasks s !! t = Some (InlineWorking k f) \/ tasks s !! t = Some (InlineResolved k f).

(** Task [t] waits for [f], which it found under [k]. *)
Definition follower (s : state) (t : nat) (k : string) (f : nat) : Prop :=
  tasks s !! t = Some (InlineJoined k f) \/ tasks s !! t = Some (HandlerJoined k f).

(** The key of a request of process_single_url. *)
Definition msg_key (p : pc) : option string :=
  match p with
  | MsgStart k | MsgReuse k => Some k
  | MsgJoined k _ | MsgWorking k _ | MsgResolved k _ => Some k
  | _ => None
  end.

(** No request of process_single_url for [k] is under way. *)
Definition msg_free (k : string) (s : state) : Prop :=
  forall t p, tasks s !! t = Some p -> msg_key p <> Some k.

(** A step of an execution in which process_single_url is never asked
    for [k]: any request may take the step, and since a request of
    process_single_url starts at [MsgStart], none for [k] is ever under
    way.  Requests of process_single_url for other keys, and inline
    requests for every key, are free to run. *)
Definition step_sparing (k : string) (s s' : state) : Prop :=
  step s s' /\ msg_free k s'.

(** What holds for [k] in every state of such an execution. *)
Record key_inv (k : string) (s : state) : Prop := {
  inv_owner : forall f,
    active_downloads s !! k = Some f -> exists t, leader s t k f;
  inv_registered : forall t f,
    leader s t k f -> active_downloads s !! k = Some f;
  inv_single : forall t1 t2 f1 f2,
    leader s t1 k f1 -> leader s t2 k f2 -> t1 = t2;
  inv_resolved : forall t f,
    tasks s !! t = Some (InlineResolved k f) -> is_done f s = true;
  inv_created : forall t f,
    leader s t k f -> is_Some (futures s !! f);
  inv_follower_created : forall t f,
    follower s t k f -> is_Some (futures s !! f);
  inv_follower : forall t f,
    follower s t k f -> futures s !! f = Some None ->
    active_downloads s !! k = Some f
}.

End Registry.

(** ** Python text beyond Latin-1 *)

Module Text.

(** A [str] as the list of its code points: what the speech service
    returns is Russian. *)
Definition text : Type := list N.

(** [str.isspace] of one character, which is also what [str.strip]
    removes (Unicode 14.0, as Python 3.11 has it). *)
Definition isspace (c : N) : bool :=
  ((9 <=? c) && (c <=? 13) || (28 <=? c) && (c <=? 32) || (c =? 133) || (c =? 160) ||
   (c =? 5760) || (8192 <=? c) && (c <=? 8202) || (c =? 8232) || (c =? 8233) ||
   (c =? 8239) || (c =? 8287) || (c =? 12288))%N.

Definition is_empty (s : text) : bool :=
  match s with [] => true | _ :: _ => false end.

Fixpoint lstrip (s : text) : text :=
  match s with
  | [] => []
  | c :: r => if isspace c then lstrip r else s
  end.

Fixpoint rstrip (s : text) : text :=
  match s with
  | [] => []
  | c :: r =>
      let r' := rstrip r in
      if is_empty r' && isspace c then [] else c :: r'
  end.

(** [s.strip()]. *)
Definition strip (s : text) : text := rstrip (lstrip s).

(** A text of characters below 256, and [str(n)]. *)
Definition of_string (s : string) : text := map Py.ord (list_ascii_of_string s).
Definition of_nat (n : nat) : text := of_string (Py.str_of_Z (Z.of_nat n)).

End Text.

(** ** bot.py: the voice batch aggregator *)

Module Batch.

Variant content_type : Type := voice | video_note | text_message | other_content.

(** What the aggregator reads of a Telegram message. *)
Record message : Type := {
  message_id : Z;
  kind : content_type;          (* [message.content_type] *)
  file_unique_id : string
}.

(** Seconds. *)
Definition BATCH_TIMEOUT : Q := (1 # 2)%Q.
Definition BATCH_MAX_SIZE : nat := 50.

(** The module's three dictionaries, by user id.  A timer is the time at
    which a started, not cancelled [threading.Timer] runs
    [run_process_batch]. *)
Record state : Type := {
  user_message_batches : gmap Z (list message);
  batch_timers : gmap Z Q;
  user_last_message_time : gmap Z Q
}.

Definition init : state :=
  {| user_message_batches := ∅; batch_timers := ∅; user_last_message_time := ∅ |}.

Definition is_voice (m : message) : bool :=
  match kind m with
  | voice | video_note => true
  | _ => false
  end.

(** The locked part of [process_batch(user_id)] at time [now]: the
    messages it takes out of the buffer, if any. *)
Definition process_batch (now : Q) (user_id : Z) (st : state)
    : state * option (list message) :=
  match user_message_batches st !! user_id with
  | None | Some [] => (st, None)
  | Some messages =>
      ({| user_message_batches := <[user_id := []]> (user_message_batches st);
          batch_timers := delete user_id (batch_timers st);
          user_last_message_time := <[user_id := now]> (user_last_message_time st) |},
       Some messages)
  end.

(** [add_message_to_batch(user_id, message)] at [current_time]: the new
    state and the batch it hands to [process_batch] at once, if any. *)
Definition add_message_to_batch (current_time : Q) (user_id : Z) (m : message)
    (st : state) : state * option (list message) :=
  let buffer := default [] (user_message_batches st !! user_id) in
  let is_rapid :=
    match user_last_message_time st !! user_id with
    | Some last => if Qlt_le_dec (current_time - last)%Q 2%Q then true else false
    | None => false
    end in
  let buffer := buffer ++ [m] in
  (* the existing timer is cancelled; each branch below replaces it *)
  let st1 :=
    {| user_message_batches := <[user_id := buffer]> (user_message_batches st);
       batch_timers := batch_timers st;
       user_last_message_time := <[user_id := current_time]> (user_last_message_time st) |} in
  let with_timer :=
    {| user_message_batches := user_message_batches st1;
       batch_timers := <[user_id := (current_time + BATCH_TIMEOUT)%Q]> (batch_timers st1);
       user_last_message_time := user_last_message_time st1 |} in
  if is_voice m then (with_timer, None)
  else if is_rapid || (BATCH_MAX_SIZE <=? length buffer)%nat then
    process_batch current_time user_id
      {| user_message_batches := user_message_batches st1;
         batch_timers := delete user_id (batch_timers st1);
         user_last_message_time := user_last_message_time st1 |}
  else (with_timer, None).

(** What happens to the aggregator: a message arrives, or a user's timer
    expires. *)
Variant event : Type :=
  | Arrive (t : Q) (user_id : Z) (m : message)
  | Expire (t : Q) (user_id : Z).

(** One event; [None] when it cannot happen in this state: a timer
    expires at its own time only, and no message of a user arrives once
    that user's timer is due. *)
Definition run_event (e : event) (st : state) : option (state * option (Z * list message)) :=
  match e with
  | Arrive t u m =>
      let due :=
        match batch_timers st !! u with
        | Some d => if Qlt_le_dec t d then false else true
        | None => false
        end in
      if due then None
      else
        let '(st', b) := add_message_to_batch t u m st in
        Some (st', option_map (pair u) b)
  | Expire t u =>
      match batch_timers st !! u with
      | Some d =>
          if Qeq_bool d t then
            let '(st', b) := process_batch t u st in
            Some (st', option_map (pair u) b)
          else None
      | None => None
      end
  end.

(** A run: the final state and the batches flushed, in order. *)
Fixpoint run (es : list event) (st : state) : option (state * list (Z * list message)) :=
  match es with
  | [] => Some (st, [])
  | e :: r =>
      match run_event e st with
      | Some (st', b) =>
          match run r st' with
          | Some (st'', bs) => Some (st'', option_list b ++ bs)
          | None => None
          end
      | None => None
      end
  end.

(** Arrivals of one user given by time and message, each less than
    [BATCH_TIMEOUT] after the one before. *)
Fixpoint rapid (l : list (Q * message)) : Prop :=
  match l with
  | (t1, _) :: (((t2, _) :: _) as r) =>
      (t1 <= t2)%Q /\ (t2 < t1 + BATCH_TIMEOUT)%Q /\ rapid r
  | _ => True
  end.

Definition arrivals (u : Z) (l : list (Q * message)) : list event :=
  map (fun '(t, m) => Arrive t u m) l.

(** *** [process_batch], second half: order *)

(** [voice_messages.sort(key=lambda msg: msg.message_id)]: a stable sort,
    given here by insertion from the right. *)
Fixpoint insert_by_id (m : message) (l : list message) : list message :=
  match l with
  | [] => [m]
  | h :: t =>
      if (message_id m <=? message_id h)%Z then m :: l
      else h :: insert_by_id m t
  end.

Definition sort_by_id (l : list message) : list message :=
  fold_right insert_by_id [] l.

(** The list [process_batch] passes to [process_voice_batch]. *)
Definition voice_batch (messages : list message) : list message :=
  sort_by_id (filter is_voice messages).

(** *** [process_voice_batch]: transcription and the transcript *)

(** The labels of the sections: "Голосовое" and "Видеосообщение". *)
Definition GOLOSOVOE : Text.text :=
  [1043; 1086; 1083; 1086; 1089; 1086; 1074; 1086; 1077]%N.
Definition VIDEOSOOBSHCHENIE : Text.text :=
  [1042; 1080; 1076; 1077; 1086; 1089; 1086; 1086; 1073; 1097; 1077; 1085; 1080; 1077]%N.

Section Transcribe.

(** What happens to one message outside this function, for the message
    [m] at position [i] of the batch.  [download i m]: [bot.get_file] and
    [bot.download_file] return ([false]: one of them raises).
    [convert i m]: the conversion of the download to WAV returns.
    [transcribe_audio_segments i m]: what the function of that name
    returns for that WAV file; [None] when [future.result()] raises. *)
Variable download : nat -> message -> bool.
Variable convert : nat -> message -> bool.
Variable transcribe_audio_segments : nat -> message -> option Text.text.

(** The pairs of [enumerate(voice_messages)] that the download loop does
    not skip ([continue] for a content type other than voice and
    video_note): [downloaded_files] and [audio_files] hold one file for
    each, in this order. *)
Definition downloaded (voice_messages : list message) : list (nat * message) :=
  List.filter (fun im => is_voice (snd im)) (imap pair voice_messages).

(** [ThreadPoolExecutor(max_workers=min(len(audio_files), 16))]. *)
Definition max_workers (n : nat) : nat := Nat.min n 16.

(** The executor: the indices of [audio_files] not yet started, in
    submission order, the indices being transcribed, and the slots of
    [transcribed_texts] filled so far. *)
Record pool : Type := {
  queue : list nat;
  running : list nat;
  results : gmap nat Text.text
}.

Definition submit_all (n : nat) : pool :=
  {| queue := seq 0 n; running := []; results := ∅ |}.

(** A free worker takes the next index; any running index may finish,
    and its slot gets the text returned, or [""] when
    [future.result()] raises. *)
Inductive pool_step (workers : nat) (audio_files : list (nat * message))
    : pool -> pool -> Prop :=
  | pool_start j q r d :
      (length r < workers)%nat ->
      pool_step workers audio_files
        {| queue := j :: q; running := r; results := d |}
        {| queue := q; running := j :: r; results := d |}
  | pool_finish j i m q r1 r2 d :
      audio_files !! j = Some (i, m) ->
      pool_step workers audio_files
        {| queue := q; running := r1 ++ j :: r2; results := d |}
        {| queue := q; running := r1 ++ r2;
           results := <[j := match transcribe_audio_segments i m with
                             | Some text => text
                             | None => []
                             end]> d |}.

Definition pool_done (p : pool) : Prop := queue p = [] /\ running p = [].

(** Every index is waiting, running, or has the text of its own file. *)
Definition pool_inv (workers : nat) (audio_files : list (nat * message)) (p : pool) : Prop :=
  (length (running p) <= workers)%nat /\
  forall j i m, audio_files !! j = Some (i, m) ->
    In j (queue p) \/ In j (running p) \/
    results p !! j = Some (match transcribe_audio_segments i m with
                           | Some text => text
                           | None => []
                           end).

(** [transcribed_texts] after the collecting loop; a slot never written
    is [None]. *)
Definition transcribed_texts (n : nat) (p : pool) : list (option Text.text) :=
  map (fun j => results p !! j) (seq 0 n).

(** [text and text.strip()]. *)
Definition spoken (text : option Text.text) : bool :=
  match text with
  | Some s => negb (Text.is_empty s) && negb (Text.is_empty (Text.strip s))
  | None => false
  end.

(** ["Голосовое" if message.content_type == 'voice' else "Видеосообщение"]. *)
Definition message_type (m : message) : Text.text :=
  match kind m with
  | voice => GOLOSOVOE
  | _ => VIDEOSOOBSHCHENIE
  end.

(** The sections of the transcript: number, message and text of every
    pair of [enumerate(zip(transcribed_texts, voice_messages))] whose text
    is spoken; [i] is the index of the first pair. *)
Fixpoint sections (i : nat) (texts : list (option Text.text)) (batch : list message)
    : list (nat * message * Text.text) :=
  match texts, batch with
  | t :: texts', m :: batch' =>
      (if spoken t then [(S i, m, default [] t)] else [])
      ++ sections (S i) texts' batch'
  | _, _ => []
  end.

(** [f"\n\n--- {message_type} {i+1} ---\n{text}"]. *)
Definition render (s : nat * message * Text.text) : Text.text :=
  let '(number, m, text) := s in
  [10; 10]%N ++ Text.of_string "--- " ++ message_type m ++ [32]%N ++ Text.of_nat number
    ++ Text.of_string " ---" ++ [10]%N ++ text.

(** [combined_text] after [combined_text.strip()]. *)
Definition combined_text (texts : list (option Text.text)) (batch : list message)
    : Text.text :=
  Text.strip (concat (map render (sections 0 texts batch))).

(** How the function ends. *)
Variant outcome : Type :=
  | NoMessages                                (* [if not voice_messages: return] *)
  | Failed                                    (* the outer [except]: the error goes to the status message *)
  | NothingRecognised                         (* "Не удалось распознать речь ..." *)
  | Transcribed (combined_text : Text.text).  (* sent as one message, in parts or as a file *)

(** [process_voice_batch(voice_messages)] up to the text it goes on to
    send, for the state [p] in which the executor leaves its [with]
    block.  The calls that edit the status message are taken to
    return. *)
Definition process_voice_batch (voice_messages : list message) (p : pool) : outcome :=
  match voice_messages with
  | [] => NoMessages
  | _ :: _ =>
      let audio_files := downloaded voice_messages in
      if negb (forallb (fun im => download (fst im) (snd im)) audio_files) then Failed
      else if negb (forallb (fun im => convert (fst im) (snd im)) audio_files) then Failed
      else if Nat.eqb (length audio_files) 0 then Failed   (* [max_workers=0]: [ValueError] *)
      else
        let texts := transcribed_texts (length audio_files) p in
        let combined := combined_text texts voice_messages in
        let valid_transcriptions := length (sections 0 texts voice_messages) in
        if Text.is_empty combined || Nat.eqb valid_transcriptions 0 then NothingRecognised
        else Transcribed combined
  end.

End Transcribe.

(** The last arrival time of a run that starts at [t]. *)
Definition final_time (t : Q) (l : list (Q * message)) : Q :=
  List.last (map fst l) t.

(** The order of the message ids. *)
Definition id_le (a b : message) : Prop := message_id a <= message_id b.
Definition id_lt (a b : message) : Prop := message_id a < message_id b.

End Batch.

(** ** Stand-ins for the external programs, for the worked examples *)

Module Demo.

(** An ffmpeg that always succeeds and writes its last argument: 300 KB
    at JPEG quality 2, 250 KB at any other quality. *)
Definition ffmpeg : process := fun cmd fs =>
  let out := List.last cmd EmptyString in
  let size := if Py.str_mem "2" cmd then 300 * 1024 else 250 * 1024 in
  (Returned, <[out := size]> fs).

Definition portrait_h264 : Downloader.media_file :=
  {| Downloader.getsize := Some (10 * Downloader.MB);
     Downloader.ffprobe :=
       Downloader.ProbeData (Some [
         {| Downloader.codec_name := Some "h264";
            Downloader.width := Some 1080; Downloader.height := Some 1920;
            Downloader.display_aspect_ratio := Some "9:16" |}]) |}.

Definition unreadable : Downloader.media_file :=
  {| Downloader.getsize := Some (10 * Downloader.MB);
     Downloader.ffprobe := Downloader.ProbeRaised |}.

(** Voice message number [i], and a burst of 51 of them, one every 10 ms. *)
Definition voice_message (i : Z) : Batch.message :=
  {| Batch.message_id := 1000 + i; Batch.kind := Batch.voice;
     Batch.file_unique_id := "uid" +:+ Py.str_of_Z (1000 + i) |}.

Definition burst : list (Q * Batch.message) :=
  map (fun i => (Qmake (Z.of_nat i) 100, voice_message (Z.of_nat i))) (seq 0 51).

(** Three voice notes with ids 1001, 1002, 1003 that arrive in the order
    1003, 1001, 1002; the second one transcribes to nothing. *)
Definition arrived3 : list Batch.message :=
  [voice_message 3; voice_message 1; voice_message 2].
Definition sorted3 : list Batch.message :=
  [voice_message 1; voice_message 2; voice_message 3].
Definition transcribe (i : nat) (m : Batch.message) : option Text.text :=
  if (Batch.message_id m =? 1002)%Z then Some []
  else if (Batch.message_id m =? 1001)%Z
  then Some [1091; 1089; 1087; 1077; 1093]%N               (* "успех" *)
  else Some [1087; 1088; 1080; 1074; 1077; 1090; 10]%N.    (* "привет" and a newline *)

(** Every download and conversion succeeds. *)
Definition fetched (i : nat) (m : Batch.message) : bool := true.

(** The executor after the tasks finished in the order 1002, 1001, 1003. *)
Definition finished3 : Batch.pool :=
  {| Batch.queue := []; Batch.running := [];
     Batch.results :=
       <[2%nat := [1087; 1088; 1080; 1074; 1077; 1090; 10]%N]>
         (<[0%nat := [1091; 1089; 1087; 1077; 1093]%N]>
            (<[1%nat := []]> ∅)) |}.

(** A Python whose [urlsplit] accepts every bracketed host. *)
Definition check_bracketed_netloc : string -> bool := fun _ => true.

(** A YouTube link with a trailing slash, tracking parameters around the
    whitelisted ones and a fragment. *)
Definition youtube_link : CanonSpec.url_parts :=
  {| CanonSpec.url_scheme := "https";
     CanonSpec.url_host := "www.youtube.com";
     CanonSpec.url_path := "/watch";
     CanonSpec.trailing_slashes := 1;
     CanonSpec.query_fields := ["si=Ab%3D="; "v=dQw4w9WgXcQ"; "feature=share"; "t=42"];
     CanonSpec.url_fragment := Some "top" |}.

(** The registry key of a link, and what its download delivers. *)
Definition key : string := "https://tiktok.com/a".
Definition delivered : Registry.outcome := Registry.Delivered ["file-1"] "video".

(** An inline request (task 0) that found no entry for [key] and
    installed future 0; a message request (task 2) for another link that
    installed future 1; and a second inline request (task 1) that found
    the entry of [key] and waits for it. *)
Definition other_key : string := "https://tiktok.com/b".
Definition mixed_claimed : Registry.state :=
  Registry.set_task 1 (Registry.InlineJoined key 0)
    (Registry.set_task 1 (Registry.InlineStart key)
       (Registry.set_task 2 (Registry.MsgWorking other_key 1)
          (Registry.install other_key 1
             (Registry.set_task 2 (Registry.MsgStart other_key)
                (Registry.set_task 0 (Registry.InlineWorking key 0)
                   (Registry.install key 0
                      (Registry.set_task 0 (Registry.InlineStart key) Registry.init))))))).

(** A message request (task 0) that ran process_single_url from its
    start to its end, with a download. *)
Definition msg_claimed : Registry.state :=
  Registry.set_task 0 (Registry.MsgWorking key 0)
    (Registry.install key 0
       (Registry.set_task 0 (Registry.MsgStart key) Registry.init)).
Definition msg_finished : Registry.state :=
  Registry.set_task 0 Registry.Finished
    (Registry.set_task 0 (Registry.MsgResolved key 0)
       (Registry.complete 0 delivered msg_claimed)).

(** A second message request (task 1) that found the entry of the first,
    waited 300 s for it in vain, found no file on disk either and went on
    to line 2633. *)
Definition msg_timed_out : Registry.state :=
  Registry.set_task 1 (Registry.MsgReuse key)
    (Registry.complete 0 Registry.Cancelled
       (Registry.set_task 1 (Registry.MsgJoined key 0)
          (Registry.set_task 1 (Registry.MsgStart key) msg_claimed))).
Definition msg_overwritten : Registry.state :=
  Registry.set_task 1 (Registry.MsgWorking key 1)
    (Registry.install key 1 msg_timed_out).

End Demo.

(** ** bot.py: links sent once, sending with retries, the links of a message *)

Module Bot.

Definition MAX_SENT_LINKS : Z := 10000.

(** [send_file_with_retry]: what one attempt to send does.  A
    [TelegramNetworkError] carries the text of [str(e)]. *)
Variant attempt_result : Type :=
  | Sent (sent_msg : Z)
  | NetworkError (text : string)
  | OtherError.

Variant retry_result : Type :=
  | ReturnedMessage (sent_msg : Z)
  | ReturnedNone
  | Raised (attempt : nat).

(** ['timeout' in error_msg or 'timed out' in error_msg] for
    [error_msg = str(e).lower()]. *)
Definition is_timeout (text : string) : bool :=
  Py.contains "timeout" (Py.lower text) || Py.contains "timed out" (Py.lower text).

(** The [for attempt in range(max_retries)] loop from [attempt] on, with
    [remaining] iterations left: the result and the seconds passed to
    [asyncio.sleep], in order. *)
Fixpoint retry_loop (send : nat -> attempt_result) (max_retries : Z)
    (remaining attempt : nat) : retry_result * list Z :=
  match remaining with
  | O => (ReturnedNone, [])
  | S remaining' =>
      match send attempt with
      | Sent sent_msg => (ReturnedMessage sent_msg, [])
      | NetworkError text =>
          if is_timeout text && (Z.of_nat attempt <? max_retries - 1)
          then
            let wait_time := (Z.of_nat attempt + 1) * 5 in
            let '(result, sleeps) := retry_loop send max_retries remaining' (S attempt) in
            (result, wait_time :: sleeps)
          else (Raised attempt, [])
      | OtherError => (Raised attempt, [])
      end
  end.

(** [send_file_with_retry(message, file_path, file_type, caption,
    max_retries)], with the outcome of the attempts given by [send]. *)
Definition send_file_with_retry (send : nat -> attempt_result) (max_retries : Z)
    : retry_result * list Z :=
  retry_loop send max_retries (Z.to_nat max_retries) 0.

(** An attempt that ends in a network error whose text speaks of a
    timeout. *)
Definition timed_out (r : attempt_result) : bool :=
  match r with
  | NetworkError text => is_timeout text
  | _ => false
  end.

(** What the attempt that ends the loop makes of the call. *)
Definition final_result (attempt : nat) (r : attempt_result) : retry_result :=
  match r with
  | Sent sent_msg => ReturnedMessage sent_msg
  | _ => Raised attempt
  end.

(** [url.startswith(('http://', 'https://'))], and the link with
    [https://] put before it otherwise. *)
Definition has_scheme (url : string) : bool :=
  Py.startswith "http://" url || Py.startswith "https://" url.

Definition with_scheme (url : string) : string :=
  if has_scheme url then url else "https://" +:+ url.

(** A link to the bot itself:
    [f't.me/{bot_username}' in url.lower() or
     f'telegram.me/{bot_username}' in url.lower()]. *)
Definition is_bot_link (bot_username url : string) : bool :=
  Py.contains ("t.me/" +:+ bot_username) (Py.lower url) ||
  Py.contains ("telegram.me/" +:+ bot_username) (Py.lower url).

(** The two lists of the filtering loop of [handle_message]. *)
Fixpoint classify (bot_username : string) (urls : list string)
    : list string * list string :=
  match urls with
  | [] => ([], [])
  | url :: rest =>
      let '(filtered_urls, unsupported_urls) := classify bot_username rest in
      if is_bot_link bot_username url then (filtered_urls, unsupported_urls)
      else if Canon.is_supported_url url then (url :: filtered_urls, unsupported_urls)
      else (filtered_urls, url :: unsupported_urls)
  end.

(** What [handle_message] does with the links it found. *)
Variant selection : Type :=
  | AskForLink                                 (* no link in the text *)
  | RejectUnsupported (unsupported_urls : list string)
  | Ignore                                     (* links to the bot only *)
  | Process (unique_urls : list string).       (* one task per link *)

Section WithCanon.

Variable check_bracketed_netloc : string -> bool.

Definition normalize_url : string -> string := Canon.normalize_url check_bracketed_netloc.

(** [send_link_to_user(user_id, url, normalized_url)]: whether the
    message went out, and [sent_links] afterwards.  [send_message] says
    whether [bot.send_message] returns ([true]) or raises. *)
Definition send_link_to_user (send_message : bool) (user_id : Z) (url : string)
    (normalized_url : option string) (sent_links : gset (string * Z))
    : bool * gset (string * Z) :=
  let normalized_url := default (normalize_url url) normalized_url in
  let sent_links := if MAX_SENT_LINKS <? Z.of_nat (size sent_links) then ∅ else sent_links in
  let link_key := (normalized_url, user_id) in
  if decide (link_key ∈ sent_links) then (false, sent_links)
  else if send_message then (true, {[link_key]} ∪ sent_links)
  else (false, sent_links).

(** A call of [send_link_to_user], and a sequence of calls. *)
Record link_call : Type := {
  call_send_message : bool;
  call_user_id : Z;
  call_url : string;
  call_normalized_url : option string
}.

Definition send_links (calls : list link_call) (sent_links : gset (string * Z))
    : gset (string * Z) :=
  fold_left (fun s c => snd (send_link_to_user (call_send_message c) (call_user_id c)
                               (call_url c) (call_normalized_url c) s))
            calls sent_links.

(** The loop over [urls] with [seen_normalized] in [handle_message]. *)
Fixpoint dedupe (seen_normalized : gset string) (urls : list string) : list string :=
  match urls with
  | [] => []
  | url :: rest =>
      let norm := normalize_url url in
      if decide (norm ∈ seen_normalized) then dedupe seen_normalized rest
      else url :: dedupe ({[norm]} ∪ seen_normalized) rest
  end.

(** [handle_message] from [urls = re.findall(URL_PATTERN, message.text)]
    to the list of links it starts a task for. *)
Definition select_urls (bot_username : string) (urls : list string) : selection :=
  match urls with
  | [] => AskForLink
  | _ =>
      let urls := map with_scheme urls in
      let '(filtered_urls, unsupported_urls) := classify bot_username urls in
      match unsupported_urls with
      | _ :: _ => RejectUnsupported unsupported_urls
      | [] =>
          match filtered_urls with
          | [] => Ignore
          | _ => Process (dedupe ∅ filtered_urls)
          end
      end
  end.

End WithCanon.

End Bot.

(** ** bot.py: the aggregator under any order of calls *)

Module Aggregator.

Import Batch.

(** What runs under [batch_lock]: [add_message_to_batch(user_id, message)]
    when [time.time()] is [t], and the locked part of
    [process_batch(user_id)], which the thread of a timer starts. *)
Variant call : Type :=
  | Add (t : Q) (user_id : Z) (m : message)
  | Process (t : Q) (user_id : Z).

Definition do_call (c : call) (st : state) : state * option (Z * list message) :=
  match c with
  | Add t u m =>
      let '(st', b) := add_message_to_batch t u m st in (st', option_map (pair u) b)
  | Process t u =>
      let '(st', b) := process_batch t u st in (st', option_map (pair u) b)
  end.

(** A sequence of calls: the state afterwards and the batches taken out of
    the buffers, in order. *)
Fixpoint do_calls (cs : list call) (st : state) : state * list (Z * list message) :=
  match cs with
  | [] => (st, [])
  | c :: r =>
      let '(st', b) := do_call c st in
      let '(st'', bs) := do_calls r st' in
      (st'', option_list b ++ bs)
  end.

(** [handle_voice_or_video_note], the one caller of
    [add_message_to_batch], is registered for [F.voice | F.video_note]. *)
Definition from_handler (c : call) : bool :=
  match c with
  | Add _ _ m => is_voice m
  | Process _ _ => true
  end.

(** [user_message_batches.get(user_id, [])]. *)
Definition buffer (st : state) (u : Z) : list message :=
  default [] (user_message_batches st !! u).

(** The messages of user [u] among the calls, and among the batches. *)
Definition arrived (u : Z) (cs : list call) : list message :=
  flat_map (fun c => match c with
                     | Add _ u' m => if (u' =? u)%Z then [m] else []
                     | Process _ _ => []
                     end) cs.

Definition delivered (u : Z) (bs : list (Z * list message)) : list message :=
  flat_map (fun b => if (fst b =? u)%Z then snd b else []) bs.

(** A user has a pending timer exactly when the user's buffer holds a
    message, and the timer is due [BATCH_TIMEOUT] after the time recorded
    for the user's last message. *)
Definition timer_inv (st : state) : Prop :=
  forall u,
    match batch_timers st !! u with
    | Some due =>
        buffer st u <> [] /\
        exists t, user_last_message_time st !! u = Some t /\ due = (t + BATCH_TIMEOUT)%Q
    | None => buffer st u = []
    end.

End Aggregator.

(** ** downloader.py: the other transcoders *)

Module Transcode.

Section Run.

Variable subprocess_run : process.

(** *** [optimize_for_telegram] *)

Definition optimized_path_of (input_path output_dir : string) : string :=
  OsPath.join output_dir
    (fst (OsPath.splitext (OsPath.basename input_path)) +:+ "_optimized.mp4").

Definition optimize_cmd (input_path output_path : string) : list string :=
  Downloader.nice15
    ["ffmpeg"; "-y";
     "-i"; input_path;
     "-c:v"; "libx264";
     "-preset"; "superfast";
     "-crf"; "26";
     "-profile:v"; "main";
     "-pix_fmt"; "yuv420p";
     "-vf"; "scale=ceil(iw/2)*2:ceil(ih/2)*2,setsar=1";
     "-c:a"; "aac";
     "-b:a"; "128k";
     "-ac"; "2";
     "-movflags"; "+faststart";
     "-metadata:s:v:0"; "rotate=0";
     output_path].

(** [optimize_for_telegram(input_path, output_dir, fast_mode)]; the body
    does not read [fast_mode].  Every exception ends in [return None]. *)
Definition optimize_for_telegram (input_path output_dir : string) (fs : filesystem)
    : option string * filesystem :=
  let output_path := optimized_path_of input_path output_dir in
  match subprocess_run (optimize_cmd input_path output_path) fs with
  | (Returned, fs1) =>
      match fs1 !! output_path with
      | Some sz => if 0 <? sz then (Some output_path, fs1) else (None, fs1)
      | None => (None, fs1)
      end
  | (_, fs1) => (None, fs1)
  end.

(** *** [fix_video_for_telegram] *)

Definition fixed_path_of (input_path output_dir : string) : string :=
  OsPath.join output_dir
    (fst (OsPath.splitext (OsPath.basename input_path)) +:+ "_fixed.mp4").

Definition fix_cmd (input_path output_path : string) : list string :=
  Downloader.nice15
    ["ffmpeg"; "-y"; "-i"; input_path;
     "-c:v"; "libx264";
     "-preset"; "medium";
     "-crf"; "23";
     "-c:a"; "aac";
     "-b:a"; "128k";
     "-movflags"; "+faststart";
     "-pix_fmt"; "yuv420p";
     output_path].

Definition fix_video_for_telegram (input_path output_dir : string) (fs : filesystem)
    : option string * filesystem :=
  let output_path := fixed_path_of input_path output_dir in
  match subprocess_run (fix_cmd input_path output_path) fs with
  | (Returned, fs1) =>
      match fs1 !! output_path with
      | Some sz => if 0 <? sz then (Some output_path, fs1) else (None, fs1)
      | None => (None, fs1)
      end
  | (_, fs1) => (None, fs1)
  end.

End Run.

(** The text after [-i] and the last text of a command line. *)
Fixpoint input_of (cmd : list string) : option string :=
  match cmd with
  | [] => None
  | flag :: rest =>
      if String.eqb flag "-i" then head rest else input_of rest
  end.

Definition output_of (cmd : list string) : option string := last cmd.

End Transcode.

(** ** Python's [int()] and [str.split()] on text *)

Module Builtin.

(** The characters [int()] skips at both ends of a text: the C white
    space and, of the code points from 128 on, NEL and NBSP.  (The
    separators U+001C..U+001F, which [str.strip] removes, make [int()]
    raise.) *)
Definition int_space (c : ascii) : bool :=
  let n := Py.ord c in
  ((9 <=? n) && (n <=? 13) || (n =? 32) || (n =? 133) || (n =? 160))%N.

Definition digit (c : ascii) : option (Decimal.uint -> Decimal.uint) :=
  match c with
  | "0" => Some Decimal.D0 | "1" => Some Decimal.D1 | "2" => Some Decimal.D2
  | "3" => Some Decimal.D3 | "4" => Some Decimal.D4 | "5" => Some Decimal.D5
  | "6" => Some Decimal.D6 | "7" => Some Decimal.D7 | "8" => Some Decimal.D8
  | "9" => Some Decimal.D9
  | _ => None
  end%char.

(** The digits of a literal, the first one first.  One underscore may
    stand between two digits; [after_digit] says that the character
    before was a digit. *)
Fixpoint int_digits (after_digit : bool) (s : string) : option Decimal.uint :=
  match s with
  | EmptyString => if after_digit then Some Decimal.Nil else None
  | String c r =>
      if Ascii.eqb c "_" then
        if after_digit then int_digits false r else None
      else
        match digit c with
        | Some d => option_map d (int_digits true r)
        | None => None
        end
  end.

(** [sys.get_int_max_str_digits()], by default. *)
Definition MAX_STR_DIGITS : Z := 4300.

(** [int(s)] in base 10; [None] for [ValueError]. *)
Definition int (s : string) : option Z :=
  let s := Py.rstrip_by int_space (Py.lstrip_by int_space s) in
  let '(negative, literal) :=
    match s with
    | String "-" r => (true, r)
    | String "+" r => (false, r)
    | _ => (false, s)
    end in
  match int_digits false literal with
  | Some d =>
      if MAX_STR_DIGITS <? Z.of_nat (Decimal.nb_digits d) then None
      else Some (Z.of_int (if negative then Decimal.Neg d else Decimal.Pos d))
  | None => None
  end.

(** [s.split()]: the runs of characters that are not white space. *)
Fixpoint split_ws (s : string) : list string :=
  match s with
  | EmptyString => []
  | String c r =>
      if Py.isspace c then split_ws r
      else
        match r with
        | EmptyString => [String c EmptyString]
        | String d _ =>
            if Py.isspace d then String c EmptyString :: split_ws r
            else
              match split_ws r with
              | word :: words => String c word :: words
              | [] => [String c EmptyString]
              end
        end
  end.

(** [s[n:]]. *)
Fixpoint skip (n : nat) (s : string) : string :=
  match n, s with
  | S n', String _ r => skip n' r
  | _, _ => s
  end.

(** [s.split(c)[0]]. *)
Definition first_field (c : ascii) (s : string) : string :=
  hd EmptyString (Py.split c s).

(** A character of [str(n)] for an integer [n]. *)
Definition numeral_char (c : ascii) : bool :=
  Ascii.eqb c "-" || match digit c with Some _ => true | None => false end.

End Builtin.

(** ** bot.py: inline buttons and the handlers that read them back *)

Module Buttons.

Variant button : Type :=
  | Url (url : string)
  | CallbackData (callback_data : string).

(** [get_convert_keyboard(cache_id, bot_username)]: the rows of buttons.
    An argument left out is [None]; [None], 0 and the empty text are
    false. *)
Definition get_convert_keyboard (cache_id : option Z) (bot_username : option string)
    : list (list button) :=
  match cache_id, bot_username with
  | Some id, Some name =>
      if negb (id =? 0) && negb (Py.is_empty name)
      then [[Url ("https://t.me/" +:+ name +:+ "?start=file_" +:+ Py.str_of_Z id)]]
      else [[CallbackData "convert_menu"]]
  | _, _ => [[CallbackData "convert_menu"]]
  end.

Definition get_convert_options_keyboard_with_cache_id (cache_id : Z) : list (list button) :=
  [[CallbackData ("conv_note_" +:+ Py.str_of_Z cache_id);
    CallbackData ("conv_voice_" +:+ Py.str_of_Z cache_id)];
   [CallbackData ("conv_mp3_" +:+ Py.str_of_Z cache_id);
    CallbackData ("conv_file_" +:+ Py.str_of_Z cache_id)];
   [CallbackData ("conv_transcription_" +:+ Py.str_of_Z cache_id)]].

(** The filter of [on_convert_action]:
    [F.data.startswith("convert_") | F.data.startswith("conv_")]. *)
Definition convert_filter (data : string) : bool :=
  Py.startswith "convert_" data || Py.startswith "conv_" data.

(** The first lines of [on_convert_action]: where the handler takes the
    file from. *)
Variant convert_source : Type :=
  | ByCacheId (action : string) (cache_id : Z)   (* goes on to [db.get_file_by_id(cache_id)] *)
  | BadCacheId                                   (* [int()] raised: the alert, and return *)
  | FromMessage (action : string)                (* the old format: the video of the message *)
  | NoAction.                                    (* [parts[1]] raises [IndexError] *)

Definition on_convert_action (data : string) : convert_source :=
  let parts := Py.split "_" data in
  match parts with
  | part0 :: action :: part2 :: _ =>
      if String.eqb part0 "conv" then
        match Builtin.int part2 with
        | Some cache_id => ByCacheId action cache_id
        | None => BadCacheId
        end
      else FromMessage action
  | [_; action] => FromMessage action
  | _ => NoAction
  end.

(** The keys of [action_names]. *)
Definition action_names : list string :=
  ["video"; "file"; "voice"; "note"; "mp3"; "summary"; "transcription"].

(** [cmd_start]: the argument of the command, [parts[1]] of
    [message.text.split()], when there is one.  ([None] is the other
    branch, which looks for [start=] in the text with [urlparse].) *)
Definition command_argument (text : string) : option string :=
  match Builtin.split_ws text with
  | _ :: argument :: _ => Some argument
  | _ => None
  end.

(** [cmd_start] from [if start_param and start_param.startswith("file_")]
    to [int(param_value)]: the id it looks up with [db.get_file_by_id];
    [None] when it goes on to the greeting. *)
Definition start_cache_id (start_param : option string) : option Z :=
  match start_param with
  | Some start_param =>
      if negb (Py.is_empty start_param) && Py.startswith "file_" start_param then
        let param_value := Builtin.skip 5 start_param in
        let param_value :=
          Py.strip (Builtin.first_field "&"
                      (Builtin.first_field "?" (Builtin.first_field "/" param_value))) in
        Builtin.int param_value
      else None
  | None => None
  end.

(** The summary button of [process_voice_batch], for [len(voice_messages)]
    messages and the [file_unique_ids] collected. *)
Definition summary_button (voice_messages : nat) (file_unique_ids : list string)
    : option button :=
  if (1 <? voice_messages)%nat then
    match file_unique_ids with
    | _ :: _ =>
        Some (CallbackData ("batch_summarize:" +:+ Py.join "," file_unique_ids))
    | [] =>
        Some (CallbackData ("batch_summarize:" +:+ Py.str_of_Z (Z.of_nat voice_messages)))
    end
  else
    match file_unique_ids with
    | file_unique_id :: _ => Some (CallbackData ("summarize:" +:+ file_unique_id))
    | [] => None
    end.

(** [handle_summarize_callback]: [callback.data.split(":")[1]]; [None]
    for [IndexError]. *)
Definition summarize_id (data : string) : option string :=
  nth_error (Py.split ":" data) 1.

(** [handle_batch_summarize_callback]: the list [file_unique_ids]; the
    empty list sends the handler to all transcriptions of the user. *)
Definition batch_summarize_ids (data : string) : list string :=
  let file_unique_ids_str :=
    match Py.partition ":" data with
    | (_, Some rest) => rest
    | (_, None) => EmptyString
    end in
  if Py.is_empty file_unique_ids_str then []
  else map Py.strip
           (List.filter (fun fid => negb (Py.is_empty (Py.strip fid)))
                        (Py.split "," file_unique_ids_str)).

(** A character of an id that the summary buttons carry unchanged: not
    white space, not a comma, not a colon.  (Telegram's [file_unique_id]
    is made of letters, digits, [-] and [_].) *)
Definition plain_id_char (c : ascii) : bool :=
  negb (Py.isspace c) && negb (Ascii.eqb "," c) && negb (Ascii.eqb ":" c).

Definition plain_id (fid : string) : bool :=
  negb (Py.is_empty fid) && Py.str_all plain_id_char fid.

End Buttons.

(** ** bot.py: files the user sends *)

Module Uploads.

Variant content : Type := Video | Audio.

(** What [handle_video_file] and [handle_audio_file] read of a message
    (for a document, one that passed the test of the audio formats). *)
Record message : Type := {
  kind : content;
  from_user : Z;           (* [message.from_user.id] *)
  message_id : Z;
  file_id : string;        (* of [message.video], [message.audio] or [message.document] *)
  date : Z                 (* [datetime.now()] at the save *)
}.

(** [f"user_video_{message.from_user.id}_{message.message_id}"] and
    [f"user_audio_{...}_{...}"]. *)
Definition cache_key (m : message) : string :=
  match kind m with
  | Video => "user_video_" +:+ Py.str_of_Z (from_user m) +:+ "_" +:+ Py.str_of_Z (message_id m)
  | Audio => "user_audio_" +:+ Py.str_of_Z (from_user m) +:+ "_" +:+ Py.str_of_Z (message_id m)
  end.

Definition media_type (m : message) : string :=
  match kind m with
  | Video => "video"
  | Audio => "audio"
  end.

(** The handlers from [db.save_file_to_cache(...)] to the keyboard of
    the answer. *)
Definition handle_file (db : Database.database) (bot_username : option string) (m : message)
    : list (list Buttons.button) * Database.database :=
  let '(cache_id, db') :=
    Database.save_file_to_cache db (cache_key m) (Database.IdList [file_id m])
      (media_type m) (from_user m) (date m) in
  (Buttons.get_convert_keyboard cache_id bot_username, db').

(** SQLite numbers the rows of an AUTOINCREMENT key from 1. *)
Definition rowids_positive (db : Database.database) : Prop :=
  0 <= Database.file_cache_seq db /\
  Forall (fun r => 0 < Database.id r) (Database.file_cache db).

(** Ids as Telegram sends them: 64-bit integers. *)
Definition telegram_ids (m : message) : Prop :=
  - 2 ^ 63 <= from_user m < 2 ^ 63 /\ - 2 ^ 63 <= message_id m < 2 ^ 63.

End Uploads.

(** ** database.py: the users *)

Module Users.

(** What [add_user] reads of [message.from_user]; an absent name is
    [None]. *)
Record user : Type := {
  user_id : Z;                       (* [user.id] *)
  username : option string;
  first_name : option string;
  last_name : option string;
  language_code : option string
}.

(** A row of [users]: the key, the columns copied from the user, and the
    registration date. *)
Record row : Type := {
  id : Z;
  account : user;                    (* telegram_id, username, first_name, last_name, language_code *)
  registration_date : Z
}.

Definition telegram_id (r : row) : Z := user_id (account r).

Record table : Type := {
  rows : list row;
  seq : Z
}.

Definition empty : table := {| rows := []; seq := 0 |}.

Definition next_id (t : table) : Z :=
  1 + fold_right Z.max (seq t) (map id (rows t)).

(** [SELECT ... FROM users WHERE telegram_id = ?]. *)
Definition select_by_telegram_id (t : table) (tid : Z) : option row :=
  List.find (fun r => telegram_id r =? tid) (rows t).

(** [add_user(user)] at time [now]: [INSERT OR IGNORE], which skips the
    row when [telegram_id UNIQUE] would be violated. *)
Definition add_user (t : table) (u : user) (now : Z) : table :=
  match select_by_telegram_id t (user_id u) with
  | Some _ => t
  | None =>
      {| rows := rows t ++ [{| id := next_id t; account := u; registration_date := now |}];
         seq := next_id t |}
  end.

Definition add_users (calls : list (user * Z)) (t : table) : table :=
  fold_left (fun t c => add_user t (fst c) (snd c)) calls t.

Definition schema_ok (t : table) : Prop := NoDup (map telegram_id (rows t)).

End Users.

(** ** bot.py: the files of a voice batch *)

Module VoiceFiles.

Import Batch.

(** [input_extension] by [message.content_type]; [None] is [continue]. *)
Definition input_extension (m : message) : option string :=
  match kind m with
  | voice => Some "ogg"
  | video_note => Some "mp4"
  | _ => None
  end.

(** [os.path.join(tempfile.gettempdir(),
    f"{file_unique_id}_{i}_{message.message_id}.{input_extension}")]. *)
Definition temp_input_path (tempdir : string) (i : nat) (m : message) (ext : string) : string :=
  OsPath.join tempdir
    (file_unique_id m +:+ "_" +:+ Py.str_of_Z (Z.of_nat i) +:+ "_"
       +:+ Py.str_of_Z (message_id m) +:+ "." +:+ ext).

(** The list [downloaded_files] after the loop over
    [enumerate(voice_messages)], from index [i] on. *)
Fixpoint downloaded_from (tempdir : string) (i : nat) (voice_messages : list message)
    : list string :=
  match voice_messages with
  | [] => []
  | m :: rest =>
      match input_extension m with
      | Some ext => temp_input_path tempdir i m ext :: downloaded_from tempdir (S i) rest
      | None => downloaded_from tempdir (S i) rest
      end
  end.

Definition downloaded_files (tempdir : string) (voice_messages : list message) : list string :=
  downloaded_from tempdir 0 voice_messages.

End VoiceFiles.

(** ** api.py: the canonical form the web API looks the cache up with *)

Module Api.

Section Normalize.

Variable check_bracketed_netloc : string -> bool.

(** [normalize_url(url)] of api.py.  Its [try] block is, line for line,
    that of bot.py. *)
Definition normalize_url (url : string) : string :=
  if Py.is_empty url then url
  else
    let url := Py.strip url in
    let url := if negb (Bot.has_scheme url) then "https://" +:+ url else url in
    match Canon.normalize_parsed check_bracketed_netloc url with
    | Some canonical => canonical
    | None => Py.rstrip url
    end.

End Normalize.

End Api.

(** ** More sample values *)

Module Samples.

Definition save_reel : Database.save_request :=
  {| Database.req_url := "https://www.instagram.com/reel/ABC";
     Database.req_file_ids := Database.IdList ["BAACAgIAAxkBAAIB"];
     Database.req_media_type := "video";
     Database.req_user_id := 7;
     Database.req_time := 1000 |}.

Definition save_carousel : Database.save_request :=
  {| Database.req_url := "https://www.instagram.com/p/XYZ";
     Database.req_file_ids := Database.IdList ["AgACAgIAAxkBAAIC"; "AgACAgIAAxkBAAID"];
     Database.req_media_type := "photo";
     Database.req_user_id := 8;
     Database.req_time := 2000 |}.

Definition three_saves : list Database.save_request :=
  [save_reel; save_carousel; save_reel].

(** Two attempts that time out, then a message that goes out. *)
Definition two_timeouts (attempt : nat) : Bot.attempt_result :=
  match attempt with
  | 0%nat => Bot.NetworkError "Request timeout error"
  | 1%nat => Bot.NetworkError "HTTP Client says - Request Timed Out"
  | _ => Bot.Sent 99
  end.

Definition link_call : Bot.link_call :=
  {| Bot.call_send_message := true; Bot.call_user_id := 7;
     Bot.call_url := "https://tiktok.com/a/"; Bot.call_normalized_url := None |}.

Definition sent_once : gset (string * Z) :=
  snd (Bot.send_link_to_user Demo.check_bracketed_netloc true 7 "https://tiktok.com/a/"
         None ∅).

(** A disk with one downloaded video. *)
Definition disk : filesystem := {[ "downloads/t1/a.mp4" := 1000 ]}.

(** The record of that video, saved at time 0 for 24 hours. *)
Definition video_row : DownloadedFiles.row :=
  {| DownloadedFiles.id := 1; DownloadedFiles.url := "https://tiktok.com/a";
     DownloadedFiles.file_path := "downloads/t1/a.mp4"; DownloadedFiles.file_size := 1000;
     DownloadedFiles.file_type := ".mp4"; DownloadedFiles.media_type := "video";
     DownloadedFiles.task_dir := "downloads/t1"; DownloadedFiles.downloaded_at := 0;
     DownloadedFiles.expires_at := 86400000000; DownloadedFiles.cache_id := Some 1 |}.

Definition video_table : DownloadedFiles.table :=
  {| DownloadedFiles.rows := [video_row]; DownloadedFiles.seq := 1 |}.

(** Two voice notes of user 7, transcribed. *)
Definition two_transcriptions : Transcriptions.table :=
  snd (Transcriptions.save_transcription
         (snd (Transcriptions.save_transcription Transcriptions.empty
                 "AgADuid1" 7 "first note" 1000))
         "AgADuid2" 7 "second note" 2000).

(** Two voice notes of user 7, the timer's run, a third note, and a video
    note of user 8 in between. *)
Definition voice_calls : list Aggregator.call :=
  [Aggregator.Add 0 7 (Demo.voice_message 1);
   Aggregator.Add (1 # 10) 7 (Demo.voice_message 2);
   Aggregator.Add (2 # 10) 8 (Demo.voice_message 9);
   Aggregator.Process (6 # 10) 7;
   Aggregator.Add 1 7 (Demo.voice_message 3)].

(** A video that user 7 sends, and a download saved later. *)
Definition sent_video : Uploads.message :=
  {| Uploads.kind := Uploads.Video; Uploads.from_user := 7; Uploads.message_id := 120;
     Uploads.file_id := "BAACAgIAAxkBAAIB"; Uploads.date := 500 |}.

(** A user who registers, then comes back under another name. *)
Definition alice : Users.user :=
  {| Users.user_id := 7; Users.username := Some "alice"; Users.first_name := Some "Alice";
     Users.last_name := None; Users.language_code := Some "en" |}.

Definition alice_renamed : Users.user :=
  {| Users.user_id := 7; Users.username := Some "alice2"; Users.first_name := Some "Alice";
     Users.last_name := None; Users.language_code := Some "en" |}.

(** The same voice note forwarded twice. *)
Definition same_note_twice : list Batch.message :=
  [Demo.voice_message 1; Demo.voice_message 1].

End Samples.

(* ===================================================================== *)
(** * Part II: theorems                                                   *)
(* ===================================================================== *)

(** ** Strings *)

Lemma append_nil_r (s : string) : s +:+ EmptyString = s.
Proof. induction s as [|c s IH]; [reflexivity|]. change (String c (s +:+ "") = String c s). by rewrite IH. Qed.

Lemma append_cons (c : ascii) (s t : string) : String c s +:+ t = String c (s +:+ t).
Proof. reflexivity. Qed.

Lemma append_nil_l (s : string) : EmptyString +:+ s = s.
Proof. reflexivity. Qed.

Lemma append_assoc (s t u : string) : (s +:+ t) +:+ u = s +:+ (t +:+ u).
Proof. induction s as [|c s IH]; [reflexivity|]. rewrite !append_cons. by rewrite IH. Qed.

Lemma length_append (s t : string) :
  String.length (s +:+ t) = (String.length s + String.length t)%nat.
Proof. induction s as [|c s IH]; [reflexivity|]. rewrite append_cons. simpl. by rewrite IH. Qed.

Lemma ascii_eqb_eq (a b : ascii) : Ascii.eqb a b = true <-> a = b.
Proof. apply Ascii.eqb_eq. Qed.

Lemma string_eqb_eq (a b : string) : String.eqb a b = true <-> a = b.
Proof. apply String.eqb_eq. Qed.

(** ** downloader.py *)

Section DownloaderFacts.

Import Downloader.

Lemma str_mem_h264 (c : string) :
  Py.str_mem c ["h264"; "libx264"] = true -> c = "h264" \/ c = "libx264".
Proof.
  unfold Py.str_mem. simpl. rewrite orb_false_r.
  intros [H|H]%orb_true_iff; apply string_eqb_eq in H; auto.
Qed.

Lemma dar_present (d : string) :
  dar_missing d = false -> d <> EmptyString /\ d <> "N/A".
Proof.
  unfold dar_missing. rewrite orb_false_iff. intros [He Hn]. split.
  - intros ->. discriminate.
  - intros ->. discriminate.
Qed.

(** C5.  [needs_telegram_optimization] is sound: when it answers [False]
    the file is at most 48 MB and, for the video stream the probe
    reported, the codec is H.264 and a portrait frame carries
    display-aspect-ratio metadata; when the probe raises, it answers
    [True]. *)
Theorem needs_telegram_optimization_sound (f : media_file) :
  (fst (needs_telegram_optimization f) = false ->
     (exists size, getsize f = Some size /\ size <= 48 * MB) /\
     (forall s, first_stream f = Some s ->
        is_h264 s /\ (portrait s -> has_aspect_ratio s))) /\
  (ffprobe f = ProbeRaised -> fst (needs_telegram_optimization f) = true).
Proof.
  unfold needs_telegram_optimization, first_stream. split.
  - destruct (getsize f) as [size|]; [|discriminate].
    destruct (Z.ltb_spec (48 * MB) size) as [Hbig|Hsmall]; [discriminate|].
    intros H. split; [eauto|].
    destruct (ffprobe f) as [|[[|s0 rest]|]]; try discriminate.
    intros s [= <-].
    destruct (Py.str_mem _ _) eqn:Hcodec; [|discriminate]. simpl in H.
    destruct ((_ <? _) && _) eqn:Hvert; [discriminate|].
    split.
    + unfold is_h264. destruct (codec_name s0) as [c|]; [|discriminate].
      exists c. split; [done|]. by apply str_mem_h264.
    + unfold portrait, has_aspect_ratio. intros Hp.
      apply andb_false_iff in Hvert as [Hlt|Hdar]; [apply Z.ltb_ge in Hlt; lia|].
      destruct (display_aspect_ratio s0) as [d|]; [|discriminate].
      exists d. split; [done|]. by apply dar_present.
  - intros ->. destruct (getsize f); [|reflexivity].
    by destruct (_ <? _).
Qed.

Lemma needs_telegram_optimization_sound_witness :
  ((exists size, getsize Demo.portrait_h264 = Some size /\ size <= 48 * MB) /\
   (forall s, first_stream Demo.portrait_h264 = Some s ->
      is_h264 s /\ (portrait s -> has_aspect_ratio s))) /\
  fst (needs_telegram_optimization Demo.unreadable) = true.
Proof.
  split.
  - apply (proj1 (needs_telegram_optimization_sound Demo.portrait_h264)). reflexivity.
  - apply (proj2 (needs_telegram_optimization_sound Demo.unreadable)). reflexivity.
Defined.

Lemma thumbnail_temp_distinct (video_path output_dir : string) :
  thumbnail_path_of video_path output_dir <> temp_path_of video_path output_dir.
Proof.
  unfold thumbnail_path_of, temp_path_of, OsPath.join.
  set (b := fst (OsPath.splitext (OsPath.basename video_path))).
  assert (Hp : Py.startswith "/" (b +:+ "_thumb.jpg")
               = Py.startswith "/" (b +:+ "_thumb_temp.jpg")).
  { destruct b as [|c b]; [reflexivity|]. rewrite !append_cons.
    reflexivity. }
  rewrite <- Hp. intros H. apply (f_equal String.length) in H.
  destruct (Py.startswith _ _); [|destruct (Py.is_empty output_dir || _)];
    rewrite ?length_append in H; simpl in H; lia.
Qed.

(** C6.  The size check of [generate_thumbnail] does not reject: when the
    first JPEG exceeds 200 KB and the re-encoded one is not below 200 KB,
    the temporary file is removed and the path of the first, oversized
    JPEG is returned. *)
Theorem generate_thumbnail_returns_oversized
    (run : process) (video_path output_dir time_offset : string)
    (fs fs1 fs2 : filesystem) (size1 size2 : Z) :
  let thumb := thumbnail_path_of video_path output_dir in
  let temp := temp_path_of video_path output_dir in
  run (thumbnail_cmd video_path time_offset thumb) fs = (Returned, fs1) ->
  fs1 !! thumb = Some size1 ->
  200 * 1024 < size1 ->
  run (recompress_cmd thumb temp) fs1 = (Returned, fs2) ->
  fs2 !! thumb = Some size1 ->
  fs2 !! temp = Some size2 ->
  200 * 1024 <= size2 ->
  exists fs3,
    generate_thumbnail run video_path output_dir time_offset fs = (Some thumb, fs3) /\
    fs3 !! thumb = Some size1 /\ fs3 !! temp = None.
Proof.
  intros thumb temp H1 Hs1 Hbig H2 Hkeep Hs2 Hstill.
  exists (os_remove temp fs2). unfold generate_thumbnail.
  fold thumb. fold temp. rewrite H1, Hs1.
  destruct (Z.ltb_spec (200 * 1024) size1) as [_|?]; [|lia].
  rewrite H2, Hs2.
  destruct (Z.ltb_spec size2 (200 * 1024)) as [?|_]; [lia|].
  assert (Hne : temp <> thumb).
  { intros E. by apply (thumbnail_temp_distinct video_path output_dir). }
  unfold os_remove. rewrite lookup_delete_ne by done. rewrite Hkeep.
  split; [done|]. split; [done|]. apply lookup_delete_eq.
Qed.

Lemma generate_thumbnail_returns_oversized_witness :
  exists fs3,
    generate_thumbnail Demo.ffmpeg "/downloads/t/video.mp4" "/downloads/t" "1.0" ∅
      = (Some "/downloads/t/video_thumb.jpg", fs3) /\
    fs3 !! "/downloads/t/video_thumb.jpg" = Some (300 * 1024) /\
    fs3 !! "/downloads/t/video_thumb_temp.jpg" = None.
Proof.
  apply (generate_thumbnail_returns_oversized Demo.ffmpeg
           "/downloads/t/video.mp4" "/downloads/t" "1.0" ∅
           {[ "/downloads/t/video_thumb.jpg" := 300 * 1024 ]}
           (<[ "/downloads/t/video_thumb_temp.jpg" := 250 * 1024 ]>
              {[ "/downloads/t/video_thumb.jpg" := 300 * 1024 ]})
           (300 * 1024) (250 * 1024));
    first [ reflexivity | vm_compute; reflexivity | vm_compute; discriminate ].
Defined.

End DownloaderFacts.

Section CompressFacts.

Import Downloader.
Local Open Scope float_scope.

Lemma positive_not_le_zero (d : float) : (0 <? d) = true -> (d <=? 0) = false.
Proof.
  rewrite ltb_spec, leb_spec.
  change (Prim2SF 0) with (S754_zero false).
  destruct (Prim2SF d) as [s|s| |s m e]; simpl; try discriminate; try reflexivity.
  all: destruct s; simpl; try discriminate; reflexivity.
Qed.

(** C7, refuted as stated: for a 4000-second input ([d > 0]) the command
    carries a video bitrate of 90k with maxrate 135k and bufsize 180k,
    while the stated formula floored at 50 gives 50. *)
Lemma compress_video_long_input :
  (0 <? 4000) = true /\
  compress_video_cmd "/downloads/t/in.mp4" "/downloads/t" 4000
    = Some (compress_cmd "/downloads/t/in.mp4" "/downloads/t/in_compressed.mp4" 90 135 180) /\
  py_int (spec_video_bitrate_kbps 4000) = Some 50%Z.
Proof. repeat split; vm_compute; reflexivity. Qed.

(** C7, amended.  For a measured duration [d > 0] and the 49 MB target:
    while [target_bits - audio_bits] is positive the video bitrate is
    [(target_bits - audio_bits) / d / 1024 * 0.9] floored at 50 (kbit/s);
    otherwise it is [100 * 0.9 = 90].  The command carries [int()] of
    that rate, of 1.5 times it and of twice it, with audio at 128k. *)
Theorem compress_video_bitrate (input_path output_dir : string) (d : float) :
  (0 <? d) = true ->
  ((video_bits d <=? 0) = false ->
     video_bitrate_kbps d = spec_video_bitrate_kbps d) /\
  ((video_bits d <=? 0) = true -> video_bitrate_kbps d = 90) /\
  (forall b m u : Z,
     py_int (video_bitrate_kbps d) = Some b ->
     py_int (video_bitrate_kbps d * 1.5) = Some m ->
     py_int (video_bitrate_kbps d * 2) = Some u ->
     compress_video_cmd input_path output_dir d
       = Some (nice15 ["ffmpeg"; "-y"; "-i"; input_path; "-c:v"; "libx264";
                       "-b:v"; Py.str_of_Z b +:+ "k";
                       "-maxrate"; Py.str_of_Z m +:+ "k";
                       "-bufsize"; Py.str_of_Z u +:+ "k";
                       "-preset"; "medium"; "-pix_fmt"; "yuv420p";
                       "-c:a"; "aac"; "-b:a"; "128k";
                       "-movflags"; "+faststart";
                       compressed_path_of input_path output_dir])).
Proof.
  intros Hpos. split; [|split].
  - intros H. unfold video_bitrate_kbps, spec_video_bitrate_kbps.
    rewrite H. reflexivity.
  - intros H. unfold video_bitrate_kbps. rewrite H. vm_compute. reflexivity.
  - intros b m u Hb Hm Hu. unfold compress_video_cmd.
    rewrite (positive_not_le_zero d Hpos), Hb, Hm, Hu. reflexivity.
Qed.

Lemma compress_video_bitrate_witness :
  video_bitrate_kbps 10 = spec_video_bitrate_kbps 10 /\
  video_bitrate_kbps 4000 = 90 /\
  compress_video_cmd "/downloads/t/in.mp4" "/downloads/t" 10
    = Some (nice15 ["ffmpeg"; "-y"; "-i"; "/downloads/t/in.mp4"; "-c:v"; "libx264";
                    "-b:v"; "36011k"; "-maxrate"; "54017k"; "-bufsize"; "72023k";
                    "-preset"; "medium"; "-pix_fmt"; "yuv420p";
                    "-c:a"; "aac"; "-b:a"; "128k";
                    "-movflags"; "+faststart"; "/downloads/t/in_compressed.mp4"]).
Proof.
  split; [|split].
  - apply (proj1 (compress_video_bitrate "" "" 10 eq_refl)). reflexivity.
  - apply (proj1 (proj2 (compress_video_bitrate "" "" 4000 eq_refl))). reflexivity.
  - apply (proj2 (proj2 (compress_video_bitrate "/downloads/t/in.mp4" "/downloads/t" 10 eq_refl))
             36011%Z 54017%Z 72023%Z); reflexivity.
Defined.

End CompressFacts.

(** ** json *)

Section JsonFacts.

Import Json.

Lemma scanstring_escape_char (c : ascii) (r : string) :
  scanstring (escape_char c +:+ r) = cons_to c (scanstring r).
Proof. destruct c as [[] [] [] [] [] [] [] []]; reflexivity. Qed.

Lemma scanstring_escape (s r : string) :
  scanstring (escape s +:+ String dq r) = Some (s, r).
Proof.
  induction s as [|c s IH]; [reflexivity|].
  change (escape (String c s)) with (escape_char c +:+ escape s).
  rewrite append_assoc, scanstring_escape_char, IH. reflexivity.
Qed.

Lemma dumps_str_append (s r : string) :
  dumps_str s +:+ r = String dq (escape s +:+ String dq r).
Proof. unfold dumps_str. rewrite append_cons, append_assoc. reflexivity. Qed.

Lemma scan_once_dumps_str (fuel : nat) (s r : string) :
  scan_once (S fuel) (dumps_str s +:+ r) = Some (JStr s, r).
Proof.
  rewrite dumps_str_append.
  change (scan_once (S fuel) (String dq ?t))
    with (match scanstring t with Some (v, t') => Some (JStr v, t') | None => None end).
  by rewrite scanstring_escape.
Qed.

Lemma join_cons2 (sep x y : string) (l : list string) :
  Py.join sep (x :: y :: l) = x +:+ sep +:+ Py.join sep (y :: l).
Proof. reflexivity. Qed.

(** The items of a dumped list, up to the closing bracket. *)
Lemma scan_items_dumps (l : list string) : forall (x : string) (fuel : nat) (r : string),
  (length l + 2 <= fuel)%nat ->
  scan_items fuel (Py.join ", " (map dumps_str (x :: l)) +:+ String "]" r)
    = Some (map JStr (x :: l), r).
Proof.
  induction l as [|y l IH]; intros x fuel r Hfuel.
  - destruct fuel as [|[|fuel]]; [simpl in Hfuel; lia..|].
    change (Py.join ", " (map dumps_str [x])) with (dumps_str x).
    change (scan_items (S (S fuel)) ?t)
      with (match scan_once (S fuel) t with
            | Some (v, r0) =>
                match skip_ws r0 with
                | String "]" t0 => Some ([v], t0)
                | String "," t0 =>
                    match scan_items (S fuel) (skip_ws t0) with
                    | Some (vs, t') => Some (v :: vs, t')
                    | None => None
                    end
                | _ => None
                end
            | None => None
            end).
    rewrite scan_once_dumps_str. reflexivity.
  - destruct fuel as [|[|fuel]]; [simpl in Hfuel; lia..|].
    change (map dumps_str (x :: y :: l)) with (dumps_str x :: dumps_str y :: map dumps_str l).
    rewrite join_cons2, !append_assoc.
    change (scan_items (S (S fuel)) ?t)
      with (match scan_once (S fuel) t with
            | Some (v, r0) =>
                match skip_ws r0 with
                | String "]" t0 => Some ([v], t0)
                | String "," t0 =>
                    match scan_items (S fuel) (skip_ws t0) with
                    | Some (vs, t') => Some (v :: vs, t')
                    | None => None
                    end
                | _ => None
                end
            | None => None
            end).
    rewrite scan_once_dumps_str.
    change (Py.join ", " (dumps_str y :: map dumps_str l))
      with (Py.join ", " (map dumps_str (y :: l))).
    assert (Hws : skip_ws (", " +:+ Py.join ", " (map dumps_str (y :: l)) +:+ String "]" r)
                  = String "," (String " " (Py.join ", " (map dumps_str (y :: l)) +:+ String "]" r)))
      by reflexivity.
    rewrite Hws.
    assert (Hws2 : skip_ws (String " " (Py.join ", " (map dumps_str (y :: l)) +:+ String "]" r))
                   = Py.join ", " (map dumps_str (y :: l)) +:+ String "]" r).
    { destruct l as [|z l].
      - change (Py.join ", " (map dumps_str [y])) with (dumps_str y).
        rewrite dumps_str_append. reflexivity.
      - change (map dumps_str (y :: z :: l)) with (dumps_str y :: dumps_str z :: map dumps_str l).
        rewrite join_cons2, !append_assoc, dumps_str_append. reflexivity. }
    cbv beta iota. rewrite Hws2, IH by (simpl in *; lia). reflexivity.
Qed.

Lemma length_dumps_items (l : list string) :
  (2 * length l <= String.length (Py.join ", " (map dumps_str l)))%nat.
Proof.
  induction l as [|x l IH]; [simpl; lia|].
  destruct l as [|y l].
  - change (Py.join ", " (map dumps_str [x])) with (dumps_str x).
    unfold dumps_str. simpl. rewrite length_append. simpl. lia.
  - change (map dumps_str (x :: y :: l)) with (dumps_str x :: map dumps_str (y :: l)).
    change (Py.join ", " (dumps_str x :: map dumps_str (y :: l)))
      with (dumps_str x +:+ ", " +:+ Py.join ", " (map dumps_str (y :: l))).
    rewrite !length_append. unfold dumps_str at 1. simpl String.length at 1.
    simpl in *. lia.
Qed.

Lemma scan_once_array (fuel : nat) (t : string) :
  scan_once (S fuel) (String "[" (String dq t))
  = match scan_items fuel (String dq t) with
    | Some (vs, t') => Some (JArr vs, t')
    | None => None
    end.
Proof. reflexivity. Qed.

(** [json.loads(json.dumps(l)) == l] for a list of strings. *)
Lemma loads_dumps (l : list string) : loads (dumps l) = Some (JArr (map JStr l)).
Proof.
  unfold loads, dumps.
  destruct l as [|x l]; [reflexivity|].
  set (items := Py.join ", " (map dumps_str (x :: l))).
  assert (Hlen : (2 * length (x :: l) <= String.length items)%nat)
    by apply length_dumps_items.
  rewrite append_cons, append_nil_l.
  change (skip_ws (String "[" ?t)) with (String "[" t).
  assert (Hfuel : exists fuel, (2 * String.length (String "[" (items +:+ "]")) + 2 = S fuel
                                /\ length l + 2 <= fuel)%nat).
  { exists (2 * String.length (String "[" (items +:+ "]")) + 1)%nat.
    split; [lia|]. simpl String.length. rewrite length_append. simpl in Hlen. lia. }
  destruct Hfuel as (fuel & -> & Hfuel).
  assert (Hhead : skip_ws (items +:+ "]") = items +:+ "]"
                  /\ exists c t, items +:+ "]" = String c t /\ c = dq).
  { subst items. destruct l as [|y l].
    - change (Py.join ", " (map dumps_str [x])) with (dumps_str x).
      rewrite dumps_str_append. split; [reflexivity|]. eauto.
    - change (map dumps_str (x :: y :: l)) with (dumps_str x :: dumps_str y :: map dumps_str l).
      rewrite join_cons2, !append_assoc, dumps_str_append. split; [reflexivity|]. eauto. }
  destruct Hhead as (_ & c & t & Ht & ->).
  rewrite Ht, scan_once_array.
  rewrite <- Ht. subst items.
  change "]" with (String "]" EmptyString).
  rewrite scan_items_dumps by done. reflexivity.
Qed.

End JsonFacts.

(** ** database.py *)

Section DatabaseFacts.

Import Json Database.

Lemma find_map_same {A} (p : A -> bool) (g : A -> A) (l : list A) :
  (forall x, p (g x) = p x) ->
  List.find p (map g l) = option_map g (List.find p l).
Proof.
  intros Hp. induction l as [|x l IH]; [reflexivity|].
  simpl. rewrite Hp. destruct (p x); [reflexivity|apply IH].
Qed.

Lemma find_snoc_none {A} (p : A -> bool) (l : list A) (x : A) :
  List.find p l = None -> p x = true -> List.find p (l ++ [x]) = Some x.
Proof.
  intros Hn Hx. induction l as [|y l IH]; simpl in *.
  - by rewrite Hx.
  - destruct (p y); [discriminate|]. by apply IH.
Qed.

Lemma find_some_holds {A} (p : A -> bool) (l : list A) (x : A) :
  List.find p l = Some x -> p x = true.
Proof. intros H. by apply List.find_some in H as [_ ?]. Qed.

(** The row [save_file_to_cache] leaves under the url, whatever was there:
    it carries the returned id, the given text and media type, and it is
    the row [SELECT ... WHERE url = ?] finds afterwards.  An existing row
    keeps its id and no row is added; otherwise one row is added under a
    fresh id. *)
Lemma save_file_to_cache_row (db : database) (u : string) (file_ids : file_ids_arg)
    (mt : string) (uid now : Z) :
  let text := match file_ids with IdList ids => dumps ids | IdOther t => t end in
  let mt' := match file_ids with
             | IdList ids => coerce mt (length ids)
             | IdOther _ => mt
             end in
  exists cache_id db',
    save_file_to_cache db u file_ids mt uid now = (Some cache_id, db') /\
    select_by_url db' u
      = Some {| id := cache_id; url := u; file_id := text; media_type := mt';
                uploader_id := uid; created_at := now |} /\
    match select_by_url db u with
    | Some old => cache_id = id old /\ length (file_cache db') = length (file_cache db)
    | None => cache_id = next_id db /\ length (file_cache db') = S (length (file_cache db))
    end.
Proof.
  intros text mt'. unfold save_file_to_cache.
  replace (match file_ids with
           | IdList ids => (dumps ids, if (1 <? length ids)%nat then "carousel" else mt)
           | IdOther t => (t, mt)
           end) with (text, mt') by (by destruct file_ids).
  destruct (select_by_url db u) as [old|] eqn:Hsel.
  - eexists _, _. split; [reflexivity|]. split.
    + unfold select_by_url in *. simpl.
      unfold update_by_id. rewrite find_map_same.
      * rewrite Hsel. simpl. rewrite Z.eqb_refl.
        apply find_some_holds in Hsel. apply string_eqb_eq in Hsel.
        by rewrite Hsel.
      * intros x. by destruct (id x =? id old).
    + split; [done|]. simpl. unfold update_by_id. by rewrite length_map.
  - eexists _, _. split; [reflexivity|]. split.
    + unfold select_by_url in *. simpl. apply find_snoc_none; [done|].
      simpl. by apply string_eqb_eq.
    + split; [done|]. simpl. rewrite length_app. simpl. lia.
Qed.

(** C4.  Cache round trip: [save_file_to_cache(url, ids, kind, uid)] with a
    non-empty list updates the row of the url or inserts one (upsert),
    returns that row's id, and [get_cached_file(url)] then returns [ids]
    with the kind ['carousel'] when there are several ids and the given
    kind otherwise. *)
Theorem save_then_get_cached_file (db : database) (u : string) (ids : list string)
    (mt : string) (uid now : Z) :
  ids <> [] ->
  exists cache_id db',
    save_file_to_cache db u (IdList ids) mt uid now = (Some cache_id, db') /\
    (exists row, select_by_url db' u = Some row /\ id row = cache_id) /\
    match select_by_url db u with
    | Some old => cache_id = id old /\ length (file_cache db') = length (file_cache db)
    | None => cache_id = next_id db /\ length (file_cache db') = S (length (file_cache db))
    end /\
    get_cached_file db' u
      = Some (map JStr ids, if (1 <? length ids)%nat then "carousel" else mt).
Proof.
  intros _.
  destruct (save_file_to_cache_row db u (IdList ids) mt uid now)
    as (cache_id & db' & Hsave & Hrow & Hupsert).
  exists cache_id, db'. split; [done|]. split; [eauto|]. split; [done|].
  unfold get_cached_file. rewrite Hrow. simpl. by rewrite loads_dumps.
Qed.

Lemma save_then_get_cached_file_witness :
  exists cache_id db',
    save_file_to_cache {| file_cache := []; file_cache_seq := 0 |}
      "https://www.instagram.com/p/ABC" (IdList ["p1"; "p2"; "p3"]) "photo" 7 0
      = (Some cache_id, db') /\
    (exists row, select_by_url db' "https://www.instagram.com/p/ABC" = Some row
                 /\ id row = cache_id) /\
    (cache_id = 1 /\ length (file_cache db') = 1%nat) /\
    get_cached_file db' "https://www.instagram.com/p/ABC"
      = Some ([JStr "p1"; JStr "p2"; JStr "p3"], "carousel").
Proof.
  apply (save_then_get_cached_file {| file_cache := []; file_cache_seq := 0 |}
           "https://www.instagram.com/p/ABC" ["p1"; "p2"; "p3"] "photo" 7 0).
  discriminate.
Defined.

(** C10.  The persistence layer accepts an empty id list: the row then
    holds the JSON text ["[]"] with the media type as given, and
    [get_cached_file] returns the empty list with that type. *)
Theorem save_empty_id_list (db : database) (u mt : string) (uid now : Z) :
  exists cache_id db' row,
    save_file_to_cache db u (IdList []) mt uid now = (Some cache_id, db') /\
    select_by_url db' u = Some row /\
    id row = cache_id /\ file_id row = "[]" /\ media_type row = mt /\
    get_cached_file db' u = Some ([], mt).
Proof.
  destruct (save_file_to_cache_row db u (IdList []) mt uid now)
    as (cache_id & db' & Hsave & Hrow & _).
  eexists cache_id, db', _. split; [done|]. split; [exact Hrow|].
  repeat split. unfold get_cached_file. by rewrite Hrow.
Qed.

End DatabaseFacts.

(** ** The voice batch aggregator *)

Section BatchFacts.

Import Batch.

Lemma run_app (es1 es2 : list event) (st : state) :
  run (es1 ++ es2) st =
  match run es1 st with
  | Some (st1, b1) =>
      match run es2 st1 with
      | Some (st2, b2) => Some (st2, b1 ++ b2)
      | None => None
      end
  | None => None
  end.
Proof.
  revert st. induction es1 as [|e es1 IH]; intros st; simpl.
  - destruct (run es2 st) as [[? ?]|]; reflexivity.
  - destruct (run_event e st) as [[st' b]|]; [|reflexivity].
    rewrite IH. destruct (run es1 st') as [[st1 b1]|]; [|reflexivity].
    destruct (run es2 st1) as [[st2 b2]|]; [|reflexivity].
    by rewrite app_assoc.
Qed.

(** A voice message that arrives before the user's timer is due joins the
    buffer and restarts the timer; nothing is flushed. *)
Lemma run_event_voice (t : Q) (u : Z) (m : message) (st : state) :
  is_voice m = true ->
  (forall d, batch_timers st !! u = Some d -> (t < d)%Q) ->
  exists st',
    run_event (Arrive t u m) st = Some (st', None) /\
    user_message_batches st' !! u
      = Some (default [] (user_message_batches st !! u) ++ [m]) /\
    batch_timers st' !! u = Some (t + BATCH_TIMEOUT)%Q.
Proof.
  intros Hv Hd. unfold run_event.
  assert (Hdue : match batch_timers st !! u with
                 | Some d => if Qlt_le_dec t d then false else true
                 | None => false
                 end = false).
  { destruct (batch_timers st !! u) as [d|] eqn:E; [|done].
    destruct (Qlt_le_dec t d) as [|Hle]; [done|].
    specialize (Hd d eq_refl). exfalso. by apply (Qlt_not_le t d). }
  rewrite Hdue. unfold add_message_to_batch. rewrite Hv.
  eexists. split; [reflexivity|]. simpl. by rewrite !lookup_insert_eq.
Qed.

Lemma last_cons_default {A} (l : list A) : forall a d : A,
  List.last (a :: l) d = List.last l a.
Proof.
  induction l as [|b l IH]; intros a d; [reflexivity|].
  change (List.last (a :: b :: l) d) with (List.last (b :: l) d).
  rewrite !IH. reflexivity.
Qed.

(** A rapid run of voice messages only fills the buffer. *)
Lemma run_rapid_voice (u : Z) (l : list (Q * message)) :
  forall (t : Q) (m : message) (st : state),
  rapid ((t, m) :: l) ->
  Forall (fun a => is_voice (snd a) = true) ((t, m) :: l) ->
  (forall d, batch_timers st !! u = Some d -> (t < d)%Q) ->
  exists st',
    run (arrivals u ((t, m) :: l)) st = Some (st', []) /\
    user_message_batches st' !! u
      = Some (default [] (user_message_batches st !! u) ++ m :: map snd l) /\
    batch_timers st' !! u = Some (final_time t l + BATCH_TIMEOUT)%Q.
Proof.
  induction l as [|[t2 m2] l IH]; intros t m st Hr Hv Hd.
  - apply Forall_cons in Hv as [Hv _]. simpl in Hv.
    destruct (run_event_voice t u m st Hv Hd) as (st' & He & Hb & Ht).
    exists st'. unfold arrivals. cbn [map run]. rewrite He. done.
  - apply Forall_cons in Hv as [Hv Hvs]. simpl in Hv.
    destruct (run_event_voice t u m st Hv Hd) as (st1 & He & Hb & Ht).
    destruct Hr as (Hle & Hlt & Hr).
    destruct (IH t2 m2 st1 Hr Hvs) as (st' & Hrun & Hb' & Ht').
    { intros d. rewrite Ht. by intros [= <-]. }
    exists st'. split; [|split].
    + change (arrivals u ((t, m) :: (t2, m2) :: l))
        with (Arrive t u m :: arrivals u ((t2, m2) :: l)).
      cbn [run]. rewrite He, Hrun. reflexivity.
    + rewrite Hb', Hb. simpl. by rewrite <- app_assoc.
    + rewrite Ht'. unfold final_time. simpl map. by rewrite last_cons_default.
Qed.

(** C9, refuted as stated: 51 voice messages of one user, 10 ms apart,
    followed by the expiry of the timer.  Nothing is flushed at the 50th
    message; the timer flushes one batch of 51. *)
Lemma fifty_one_voice_messages_one_batch :
  match run (arrivals 7 (firstn 50 Demo.burst)) init with
  | Some (st, flushed) =>
      flushed = [] /\
      option_map (@length message) (user_message_batches st !! 7) = Some 50%nat
  | None => False
  end /\
  match run (arrivals 7 Demo.burst ++ [Expire ((50 # 100) + BATCH_TIMEOUT) 7]) init with
  | Some (_, flushed) => map (fun b => length (snd b)) flushed = [51%nat]
  | None => False
  end.
Proof. split; vm_compute; auto. Qed.

(** C9, amended.  The voice buffer of a user flushes when the 0.5-second
    timer, restarted by every arrival, expires, and only then: any run of
    voice messages that follow one another within 0.5 s, however long, is
    flushed as one batch, 0.5 s after the last. *)
Theorem voice_messages_flush_on_timer_only (u : Z) (t : Q) (m : message)
    (l : list (Q * message)) :
  rapid ((t, m) :: l) ->
  Forall (fun a => is_voice (snd a) = true) ((t, m) :: l) ->
  (exists st, run (arrivals u ((t, m) :: l)) init = Some (st, [])) /\
  (exists st,
     run (arrivals u ((t, m) :: l) ++ [Expire (final_time t l + BATCH_TIMEOUT) u]) init
     = Some (st, [(u, m :: map snd l)])).
Proof.
  intros Hr Hv.
  destruct (run_rapid_voice u l t m init Hr Hv) as (st1 & Hrun & Hb & Ht).
  { intros d. unfold init. simpl. rewrite lookup_empty. discriminate. }
  split; [eauto|].
  rewrite run_app, Hrun. cbn [run run_event]. rewrite Ht.
  assert (Hq : Qeq_bool (final_time t l + BATCH_TIMEOUT) (final_time t l + BATCH_TIMEOUT) = true)
    by (apply Qeq_bool_iff; reflexivity).
  rewrite Hq. unfold process_batch. rewrite Hb. simpl.
  eexists. reflexivity.
Qed.

Lemma voice_messages_flush_on_timer_only_witness :
  (exists st, run (arrivals 7 (firstn 3 Demo.burst)) init = Some (st, [])) /\
  (exists st,
     run (arrivals 7 (firstn 3 Demo.burst) ++ [Expire ((2 # 100) + BATCH_TIMEOUT) 7]) init
     = Some (st, [(7, map snd (firstn 3 Demo.burst))])).
Proof.
  apply (voice_messages_flush_on_timer_only 7 (0 # 100) (Demo.voice_message 0)
           (skipn 1 (firstn 3 Demo.burst))).
  - vm_compute. intuition discriminate.
  - repeat constructor.
Defined.

End BatchFacts.

Section OrderFacts.

Import Batch.

Lemma insert_by_id_perm (m : message) (l : list message) :
  Permutation (insert_by_id m l) (m :: l).
Proof.
  induction l as [|h t IH]; simpl; [done|].
  destruct (message_id m <=? message_id h); [done|].
  rewrite IH. apply perm_swap.
Qed.

Lemma sort_by_id_perm (l : list message) : Permutation (sort_by_id l) l.
Proof.
  induction l as [|m l IH]; simpl; [done|].
  rewrite insert_by_id_perm. by constructor.
Qed.

Lemma insert_by_id_sorted (m : message) (l : list message) :
  StronglySorted id_le l -> StronglySorted id_le (insert_by_id m l).
Proof.
  induction l as [|h t IH]; intros Hs; simpl.
  - repeat constructor.
  - apply StronglySorted_inv in Hs as [Ht Hh].
    destruct (Z.leb_spec (message_id m) (message_id h)) as [Hle|Hgt].
    + constructor; [by constructor|].
      constructor; [exact Hle|].
      eapply Forall_impl; [exact Hh|]. unfold id_le. intros; simpl in *; lia.
    + constructor; [by apply IH|].
      rewrite insert_by_id_perm. constructor; [unfold id_le; lia|done].
Qed.

Lemma sort_by_id_sorted (l : list message) : StronglySorted id_le (sort_by_id l).
Proof.
  induction l as [|m l IH]; simpl; [constructor|]. by apply insert_by_id_sorted.
Qed.

(** An ascending list that holds the messages of a strictly ascending
    list is that list. *)
Lemma sorted_perm_unique (l1 : list message) : forall l2 : list message,
  StronglySorted id_le l1 -> StronglySorted id_lt l2 -> Permutation l1 l2 -> l1 = l2.
Proof.
  induction l1 as [|a l1 IH]; intros l2 H1 H2 Hp.
  - by apply Permutation_nil in Hp.
  - destruct l2 as [|b l2]; [by apply Permutation_sym, Permutation_nil in Hp|].
    apply StronglySorted_inv in H1 as [H1 Ha].
    apply StronglySorted_inv in H2 as [H2 Hb].
    assert (a = b) as ->.
    { assert (Hin_a : In a (b :: l2)) by (eapply Permutation_in; [exact Hp|by left]).
      assert (Hin_b : In b (a :: l1))
        by (eapply Permutation_in; [symmetry; exact Hp|by left]).
      destruct Hin_a as [->|Hin_a]; [done|].
      destruct Hin_b as [->|Hin_b]; [done|].
      rewrite List.Forall_forall in Ha, Hb.
      specialize (Ha _ Hin_b). specialize (Hb _ Hin_a).
      unfold id_le, id_lt in *. lia. }
    f_equal. apply IH; [done..|]. by apply Permutation_cons_inv in Hp.
Qed.

(** Whatever the order of arrival, the sorted batch is the ascending one. *)
Lemma voice_batch_ascending (arrived ms : list message) :
  Permutation (filter is_voice arrived) ms ->
  StronglySorted id_lt ms ->
  voice_batch arrived = ms.
Proof.
  intros Hp Hs. unfold voice_batch.
  apply sorted_perm_unique; [apply sort_by_id_sorted|done|].
  by rewrite sort_by_id_perm.
Qed.

(** A batch of voice messages and video notes: the download loop skips
    none, so file [i] belongs to message [i]. *)
Lemma downloaded_all (ms : list message) :
  Forall (fun m => is_voice m = true) ms -> downloaded ms = imap pair ms.
Proof.
  intros Hall. unfold downloaded.
  assert (H : forall (f : nat -> nat), List.filter (fun im => is_voice (snd im))
                (imap (fun i m => (f i, m)) ms) = imap (fun i m => (f i, m)) ms).
  { induction Hall as [|m l Hm _ IH]; intros f; [done|].
    cbn [imap List.filter snd]. rewrite Hm. f_equal. apply (IH (f ∘ S)). }
  exact (H (fun i => i)).
Qed.

Lemma voice_batch_voices (arrived ms : list message) :
  Permutation (filter is_voice arrived) ms -> Forall (fun m => is_voice m = true) ms.
Proof.
  intros Hp. apply List.Forall_forall. intros m Hm.
  apply (Permutation_in _ (Permutation_sym Hp)) in Hm.
  apply list_elem_of_In, list_elem_of_filter in Hm as [Hv _]. by apply Is_true_true.
Qed.

Lemma lookup_imap_pair (ms : list message) (j i : nat) (m : message) :
  imap pair ms !! j = Some (i, m) <-> i = j /\ ms !! j = Some m.
Proof.
  rewrite list_lookup_imap. destruct (ms !! j) as [x|]; simpl.
  - split; [intros E; by injection E as <- <-|intros [-> E]; by injection E as ->].
  - split; [done|by intros [_ ?]].
Qed.

Section Pool.

Variable transcribe : nat -> message -> option Text.text.
Variable audio_files : list (nat * message).
Variable workers : nat.

Abbreviation pstep := (pool_step transcribe workers audio_files).

Abbreviation pool_inv := (Batch.pool_inv transcribe workers audio_files).

(** The text that ends in the slot of a file. *)
Abbreviation stored := (fun im : nat * message =>
  match transcribe (fst im) (snd im) with Some text => text | None => [] end).

Lemma pool_inv_init : pool_inv (submit_all (length audio_files)).
Proof.
  split; [simpl; lia|]. intros j i m Hj. left. simpl.
  apply in_seq. apply lookup_lt_Some in Hj. lia.
Qed.

Lemma pool_inv_step (p p' : pool) : pool_inv p -> pstep p p' -> pool_inv p'.
Proof.
  intros [Hw Hinv] Hstep. destruct Hstep as [j q r d Hfree|j i m q r1 r2 d Hj];
    cbn [queue running results] in *.
  - split; [simpl; lia|]. intros j' i' m' Hj'.
    destruct (Hinv j' i' m' Hj') as [[->|Hq]|[Hr|Hd]]; simpl; auto.
  - split.
    + cbn [running]. rewrite length_app in Hw |- *. cbn [length] in Hw. lia.
    + intros j' i' m' Hj'. cbn [queue running results].
      destruct (decide (j' = j)) as [->|Hne].
      * right. right. rewrite lookup_insert_eq. rewrite Hj in Hj'. by injection Hj' as <- <-.
      * destruct (Hinv j' i' m' Hj') as [Hq|[Hr|Hd]]; auto.
        -- right. left. apply in_app_iff in Hr as [Hr|[Hr|Hr]];
             [apply in_app_iff; auto|congruence|apply in_app_iff; auto].
        -- right. right. by rewrite lookup_insert_ne.
Qed.

Lemma pool_inv_reachable (p : pool) :
  rtc pstep (submit_all (length audio_files)) p -> pool_inv p.
Proof.
  revert p. apply rtc_ind_r; [apply pool_inv_init|].
  intros p p' _ Hstep Hinv. by apply (pool_inv_step p p').
Qed.

(** When the executor is done, slot [j] holds the text of file [j]. *)
Lemma transcribed_texts_done (p : pool) :
  rtc pstep (submit_all (length audio_files)) p -> pool_done p ->
  transcribed_texts (length audio_files) p = map (fun im => Some (stored im)) audio_files.
Proof.
  intros Hr [Hq Hrun]. apply pool_inv_reachable in Hr as [_ Hinv].
  unfold transcribed_texts. apply list_eq. intros j.
  rewrite !list_lookup_fmap.
  destruct (audio_files !! j) as [[i m]|] eqn:Hj; simpl.
  - rewrite lookup_seq_lt by (by apply lookup_lt_Some in Hj). simpl.
    destruct (Hinv j i m Hj) as [Hin|[Hin|Hd]].
    + rewrite Hq in Hin. destruct Hin.
    + rewrite Hrun in Hin. destruct Hin.
    + by rewrite Hd.
  - rewrite lookup_seq_ge; [done|]. by apply lookup_ge_None in Hj.
Qed.

(** The executor can always finish: one worker is enough. *)
Lemma pool_drains (q : list nat) : forall d : gmap nat Text.text,
  (0 < workers)%nat ->
  Forall (fun j => is_Some (audio_files !! j)) q ->
  exists d', rtc pstep {| queue := q; running := []; results := d |}
                       {| queue := []; running := []; results := d' |}.
Proof.
  induction q as [|j q IH]; intros d Hw Hq.
  - exists d. apply rtc_refl.
  - apply Forall_cons in Hq as [[[i m] Hj] Hq].
    destruct (IH (<[j := stored (i, m)]> d) Hw Hq) as [d' Hd'].
    exists d'. eapply rtc_l; [by apply pool_start|].
    eapply rtc_l; [|exact Hd'].
    apply (pool_finish transcribe workers audio_files j i m q [] [] d Hj).
Qed.

Lemma pool_terminates :
  (0 < workers)%nat ->
  exists p, rtc pstep (submit_all (length audio_files)) p /\ pool_done p.
Proof.
  intros Hw.
  destruct (pool_drains (seq 0 (length audio_files)) ∅ Hw) as [d' Hd'].
  - apply List.Forall_forall. intros j Hj%in_seq.
    apply lookup_lt_is_Some. lia.
  - eexists. split; [exact Hd'|]. by split.
Qed.

End Pool.

(** The sections of a finished batch in which no message was skipped:
    for each message with a spoken text, in the order of the batch, the
    position (counting from 1), the message and the text. *)
Lemma sections_closed_form (transcribe : nat -> message -> option Text.text)
    (ms : list message) (g : nat -> message -> nat * message) (k : nat) :
  (forall i m, g i m = ((k + i)%nat, m)) ->
  sections k
    (map (fun im : nat * message =>
            Some (match transcribe (fst im) (snd im) with Some text => text | None => [] end))
         (imap g ms)) ms
  = omap (fun im : nat * message =>
            match transcribe (fst im) (snd im) with
            | Some text =>
                if negb (Text.is_empty text) && negb (Text.is_empty (Text.strip text))
                then Some (S (fst im), snd im, text)
                else None
            | None => None
            end)
         (imap g ms).
Proof.
  revert g k. induction ms as [|m ms IH]; intros g k Hg; [reflexivity|].
  cbn [imap map sections omap].
  rewrite (IH (g ∘ S) (S k))
    by (intros i m'; unfold compose; rewrite Hg; f_equal; lia).
  rewrite (Hg 0%nat m), Nat.add_0_r. cbn [omap list_omap fst snd].
  destruct (transcribe k m) as [text|]; cbn [spoken default Text.is_empty negb andb app];
    [|done].
  by destruct (negb (Text.is_empty text) && negb (Text.is_empty (Text.strip text))).
Qed.

(** A text that starts with two newlines and a dash keeps the dash when
    it is stripped. *)
Lemma strip_rendered (rest : Text.text) :
  exists kept, Text.strip ([10; 10; 45]%N ++ rest) = 45%N :: kept.
Proof.
  unfold Text.strip. cbn [app Text.lstrip].
  change (Text.isspace 10) with true. change (Text.isspace 45) with false.
  cbv iota. cbn [Text.rstrip].
  change (Text.isspace 45) with false. rewrite andb_false_r. by eexists.
Qed.

(** C8.  For a buffer whose voice messages and video notes are, in
    ascending order of message id, [ms]: (1) the batch handed to
    [process_voice_batch] is [ms] whatever the order of arrival, and the
    function has a file for every message, file [i] for message [i];
    (2) the pool of [min(n, 16)] workers never runs more than that many
    tasks and can finish; (3) when a download or a conversion fails the
    function publishes no transcript; (4) otherwise, in whatever order
    the tasks finish, slot [i] of [transcribed_texts] holds what
    [transcribe_audio_segments] returned for the file of message [i]
    (the empty text when it raised), the sections are those of the
    messages with a spoken text, in ascending order, each with the
    position of its message counted from 1, its message and that text,
    and the text published is the sections' concatenation, stripped, or
    the notice that nothing was recognised when there is no section. *)
Theorem voice_batch_order (download convert : nat -> message -> bool)
    (transcribe : nat -> message -> option Text.text)
    (arrived ms : list message) (p : pool) :
  Permutation (filter is_voice arrived) ms ->
  StronglySorted id_lt ms ->
  rtc (pool_step transcribe (max_workers (length (downloaded ms))) (downloaded ms))
      (submit_all (length (downloaded ms))) p ->
  (voice_batch arrived = ms /\ downloaded ms = imap pair ms) /\
  ((length (running p) <= Nat.min (length ms) 16)%nat /\
   (ms <> [] ->
    exists p', rtc (pool_step transcribe (max_workers (length (downloaded ms))) (downloaded ms))
                   (submit_all (length (downloaded ms))) p' /\ pool_done p')) /\
  ((exists i m, ms !! i = Some m /\ (download i m = false \/ convert i m = false)) ->
   process_voice_batch download convert ms p = Failed) /\
  (pool_done p -> ms <> [] ->
   (forall i m, ms !! i = Some m -> download i m = true /\ convert i m = true) ->
   let published :=
     omap (fun im : nat * message =>
             match transcribe (fst im) (snd im) with
             | Some text =>
                 if negb (Text.is_empty text) && negb (Text.is_empty (Text.strip text))
                 then Some (S (fst im), snd im, text)
                 else None
             | None => None
             end)
          (imap pair ms) in
   (forall i m, ms !! i = Some m ->
      transcribed_texts (length ms) p !! i
      = Some (Some (match transcribe i m with Some text => text | None => [] end))) /\
   sections 0 (transcribed_texts (length ms) p) ms = published /\
   process_voice_batch download convert ms p
   = match published with
     | [] => NothingRecognised
     | _ :: _ =>
         Transcribed
           (Text.strip
              (concat
                 (map (fun s : nat * message * Text.text =>
                         [10; 10]%N ++ Text.of_string "--- "
                         ++ match kind (snd (fst s)) with
                            | voice => GOLOSOVOE
                            | _ => VIDEOSOOBSHCHENIE
                            end
                         ++ [32]%N ++ Text.of_nat (fst (fst s)) ++ Text.of_string " ---"
                         ++ [10]%N ++ snd s)
                      published)))
     end).
Proof.
  intros Hp Hs Hr.
  pose proof (downloaded_all ms (voice_batch_voices arrived ms Hp)) as Hall.
  assert (Hlen : length (downloaded ms) = length ms) by (by rewrite Hall, length_imap).
  split; [split; [by apply voice_batch_ascending|done]|]. split; [split|split].
  - apply pool_inv_reachable in Hr as [Hw _]. unfold max_workers in Hw. by rewrite Hlen in Hw.
  - intros Hne. apply pool_terminates. unfold max_workers. rewrite Hlen.
    destruct ms; [done|]. simpl. lia.
  - intros (i & m & Him & Hfail). unfold process_voice_batch.
    destruct ms as [|m0 ms0]; [done|]. rewrite Hall.
    assert (Hin : In (i, m) (imap pair (m0 :: ms0))).
    { apply list_elem_of_In, list_elem_of_lookup. exists i. by apply lookup_imap_pair. }
    destruct (forallb (fun im : nat * message => download (fst im) (snd im))
                (imap pair (m0 :: ms0))) eqn:Hd; [|done].
    destruct (forallb (fun im : nat * message => convert (fst im) (snd im))
                (imap pair (m0 :: ms0))) eqn:Hc; [|done].
    rewrite forallb_forall in Hd, Hc. specialize (Hd _ Hin). specialize (Hc _ Hin).
    cbn [fst snd] in Hd, Hc. destruct Hfail; congruence.
  - intros Hdone Hne Hok published.
    pose proof (transcribed_texts_done transcribe (downloaded ms) _ p Hr Hdone) as Ht.
    rewrite Hlen, Hall in Ht.
    assert (Hsec : sections 0 (transcribed_texts (length ms) p) ms = published).
    { rewrite Ht. by apply (sections_closed_form transcribe ms pair 0). }
    split; [|split; [exact Hsec|]].
    + intros i m Him. rewrite Ht, list_lookup_fmap.
      by rewrite (proj2 (lookup_imap_pair ms i i m) (conj eq_refl Him)).
    + unfold process_voice_batch. destruct ms as [|m0 ms0]; [done|].
      rewrite Hall, length_imap.
      assert (Hd : forallb (fun im : nat * message => download (fst im) (snd im))
                     (imap pair (m0 :: ms0)) = true).
      { apply forallb_forall. intros [i m] Hin.
        apply list_elem_of_In, list_elem_of_lookup in Hin as [j Hj].
        apply lookup_imap_pair in Hj as [-> Hj]. by apply Hok. }
      assert (Hc : forallb (fun im : nat * message => convert (fst im) (snd im))
                     (imap pair (m0 :: ms0)) = true).
      { apply forallb_forall. intros [i m] Hin.
        apply list_elem_of_In, list_elem_of_lookup in Hin as [j Hj].
        apply lookup_imap_pair in Hj as [-> Hj]. by apply Hok. }
      rewrite Hd, Hc. cbn [negb].
      change (Nat.eqb (length (m0 :: ms0)) 0) with false. cbv iota.
      unfold combined_text. rewrite Hsec.
      destruct published as [|[[number m] text] rest] eqn:Hpub; [reflexivity|].
      assert (Hsame : map render ((number, m, text) :: rest)
                      = map (fun s : nat * message * Text.text =>
                               [10; 10]%N ++ Text.of_string "--- "
                               ++ match kind (snd (fst s)) with
                                  | voice => GOLOSOVOE
                                  | _ => VIDEOSOOBSHCHENIE
                                  end
                               ++ [32]%N ++ Text.of_nat (fst (fst s)) ++ Text.of_string " ---"
                               ++ [10]%N ++ snd s)
                            ((number, m, text) :: rest)).
      { apply map_ext. by intros [[n' m'] t']. }
      rewrite <- Hsame.
      destruct (strip_rendered
                  (tl (tl (tl (concat (map render ((number, m, text) :: rest)))))))
        as [kept Hkept].
      change ([10; 10; 45]%N ++ tl (tl (tl (concat (map render ((number, m, text) :: rest))))))
        with (concat (map render ((number, m, text) :: rest))) in Hkept.
      rewrite Hkept. reflexivity.
Qed.

Lemma voice_batch_order_witness :
  voice_batch Demo.arrived3 = Demo.sorted3 /\
  process_voice_batch Demo.fetched Demo.fetched Demo.sorted3 Demo.finished3
  = Transcribed
      ([45; 45; 45; 32]%N ++ GOLOSOVOE ++ [32; 49; 32; 45; 45; 45; 10]%N
       ++ [1091; 1089; 1087; 1077; 1093]%N
       ++ [10; 10; 45; 45; 45; 32]%N ++ GOLOSOVOE ++ [32; 51; 32; 45; 45; 45; 10]%N
       ++ [1087; 1088; 1080; 1074; 1077; 1090]%N).
Proof.
  assert (Hperm : Permutation (filter is_voice Demo.arrived3) Demo.sorted3).
  { apply perm_trans with (Demo.voice_message 1 :: Demo.voice_message 3 :: [Demo.voice_message 2]).
    - apply perm_swap.
    - apply perm_skip. apply perm_swap. }
  assert (Hsorted : StronglySorted id_lt Demo.sorted3).
  { unfold id_lt. repeat constructor; vm_compute; reflexivity. }
  assert (Hrun : rtc (pool_step Demo.transcribe (max_workers (length (downloaded Demo.sorted3)))
                        (downloaded Demo.sorted3))
                     (submit_all (length (downloaded Demo.sorted3))) Demo.finished3).
  { eapply rtc_l; [apply pool_start; vm_compute; lia|].
    eapply rtc_l; [apply pool_start; vm_compute; lia|].
    eapply rtc_l; [apply pool_start; vm_compute; lia|].
    eapply rtc_l;
      [apply (pool_finish Demo.transcribe _ (downloaded Demo.sorted3) 1 1 (Demo.voice_message 2)
                [] [2%nat] [0%nat] ∅ eq_refl)|].
    eapply rtc_l;
      [apply (pool_finish Demo.transcribe _ (downloaded Demo.sorted3) 0 0 (Demo.voice_message 1)
                [] [2%nat] [] _ eq_refl)|].
    eapply rtc_l;
      [apply (pool_finish Demo.transcribe _ (downloaded Demo.sorted3) 2 2 (Demo.voice_message 3)
                [] [] [] _ eq_refl)|].
    apply rtc_refl. }
  destruct (voice_batch_order Demo.fetched Demo.fetched Demo.transcribe
              Demo.arrived3 Demo.sorted3 Demo.finished3 Hperm Hsorted Hrun)
    as ((Hbatch & _) & _ & _ & Hdone).
  split; [exact Hbatch|].
  destruct Hdone as (_ & _ & Hpub); [by split|discriminate|by intros|].
  rewrite Hpub. vm_compute. reflexivity.
Defined.

End OrderFacts.

(** ** The in-flight registry *)

Section RegistryFacts.

Import Registry.

Lemma leader_set_task (s : state) (t : nat) (p : pc) (t' : nat) (k : string) (f : nat) :
  leader (set_task t p s) t' k f <->
  (t' = t /\ (p = InlineWorking k f \/ p = InlineResolved k f)) \/
  (t' <> t /\ leader s t' k f).
Proof.
  unfold leader, set_task. simpl. destruct (decide (t' = t)) as [->|Hne].
  - rewrite lookup_insert_eq. split.
    + intros [[= ->]|[= ->]]; auto.
    + intros [[_ [->| ->]]|[? _]]; auto; done.
  - rewrite lookup_insert_ne by done. split; [auto|].
    intros [[? _]|[_ ?]]; done.
Qed.

Lemma follower_set_task (s : state) (t : nat) (p : pc) (t' : nat) (k : string) (f : nat) :
  follower (set_task t p s) t' k f <->
  (t' = t /\ (p = InlineJoined k f \/ p = HandlerJoined k f)) \/
  (t' <> t /\ follower s t' k f).
Proof.
  unfold follower, set_task. simpl. destruct (decide (t' = t)) as [->|Hne].
  - rewrite lookup_insert_eq. split.
    + intros [[= ->]|[= ->]]; auto.
    + intros [[_ [->| ->]]|[? _]]; auto; done.
  - rewrite lookup_insert_ne by done. split; [auto|].
    intros [[? _]|[_ ?]]; done.
Qed.

Lemma is_done_complete (f g : nat) (o : outcome) (s : state) :
  is_done g s = true -> is_done g (complete f o s) = true.
Proof.
  unfold is_done, complete. simpl.
  destruct (futures s !! f) as [[x|]|] eqn:Hf; try done.
  destruct (decide (g = f)) as [->|Hne].
  - by rewrite Hf.
  - by rewrite lookup_insert_ne.
Qed.

Lemma is_done_complete_self (f : nat) (o : outcome) (s : state) :
  is_Some (futures s !! f) -> is_done f (complete f o s) = true.
Proof.
  unfold is_done, complete. simpl. intros [x Hf]. rewrite Hf.
  destruct x as [x|]; [by rewrite Hf|by rewrite lookup_insert_eq].
Qed.

Lemma created_complete (f g : nat) (o : outcome) (s : state) :
  is_Some (futures s !! g) -> is_Some (futures (complete f o s) !! g).
Proof.
  unfold complete. simpl. destruct (futures s !! f) as [[x|]|] eqn:Hf; try done.
  destruct (decide (g = f)) as [->|Hne].
  - rewrite lookup_insert_eq. eauto.
  - by rewrite lookup_insert_ne.
Qed.

Lemma pending_complete (f g : nat) (o : outcome) (s : state) :
  futures (complete f o s) !! g = Some None -> futures s !! g = Some None.
Proof.
  unfold complete. simpl. destruct (futures s !! f) as [[x|]|] eqn:Hf; try done.
  destruct (decide (g = f)) as [->|Hne].
  - rewrite lookup_insert_eq. done.
  - by rewrite lookup_insert_ne.
Qed.

Lemma key_inv_init (k : string) : key_inv k init.
Proof.
  split; unfold leader, follower, init; simpl; intros *;
    rewrite ?lookup_empty; try done; intros [|]; done.
Qed.

Lemma msg_free_init (k : string) : msg_free k init.
Proof. intros t p. unfold init; simpl. by rewrite lookup_empty. Qed.

Lemma msg_free_set_task (k : string) (s : state) (t : nat) (p : pc) :
  msg_key p <> Some k -> msg_free k s -> msg_free k (set_task t p s).
Proof.
  intros Hp Hs t' p'. unfold set_task; simpl.
  destruct (decide (t' = t)) as [->|Hne].
  - rewrite lookup_insert_eq. by intros [= <-].
  - rewrite lookup_insert_ne by done. apply Hs.
Qed.

(** The [finally] of a download of another key leaves the entry of [k]
    alone. *)
Lemma finally_pop_other (s : state) (k k0 : string) (f : nat) :
  k0 <> k ->
  active_downloads (finally_pop k0 f s) !! k = active_downloads s !! k.
Proof.
  intros Hne. unfold finally_pop; simpl.
  destruct (active_downloads s !! k0); [|done].
  destruct (is_done f s); [|done]. by rewrite lookup_delete_ne.
Qed.

(** A change that touches neither the tasks nor the entry of [k], creates
    futures and completes pending ones. *)
Lemma key_inv_frame (k : string) (s s' : state) :
  tasks s' = tasks s ->
  active_downloads s' !! k = active_downloads s !! k ->
  (forall g, is_Some (futures s !! g) -> is_Some (futures s' !! g)) ->
  (forall g, is_done g s = true -> is_done g s' = true) ->
  (forall g, is_Some (futures s !! g) -> futures s' !! g = Some None ->
             futures s !! g = Some None) ->
  key_inv k s -> key_inv k s'.
Proof.
  intros Ht Hk Hc Hd Hp [Ho Hr Hs Hdn Hcr Hfc Hf].
  assert (Hl : forall t f, leader s' t k f <-> leader s t k f).
  { intros t f. unfold leader. by rewrite Ht. }
  assert (Hw : forall t f, follower s' t k f <-> follower s t k f).
  { intros t f. unfold follower. by rewrite Ht. }
  split.
  - intros f. rewrite Hk. intros H. destruct (Ho f H) as [t L]. exists t. by apply Hl.
  - intros t f L%Hl. rewrite Hk. eauto.
  - intros t1 t2 f1 f2 L1%Hl L2%Hl. eauto.
  - intros t f. rewrite Ht. intros H. apply Hd. eauto.
  - intros t f L%Hl. apply Hc. eauto.
  - intros t f W%Hw. apply Hc. eauto.
  - intros t f W%Hw Hpend. rewrite Hk. apply (Hf t f W).
    apply Hp; [by apply (Hfc t f)|done].
Qed.

(** Completing a future: [set_result] and [cancel]. *)
Lemma key_inv_complete (k : string) (s : state) (f : nat) (o : outcome) :
  key_inv k s -> key_inv k (complete f o s).
Proof.
  apply key_inv_frame; [done|done| | |].
  - intros g. apply created_complete.
  - intros g. apply is_done_complete.
  - intros g _. apply pending_complete.
Qed.

(** [active_downloads[k0] = asyncio.Future()] for another key. *)
Lemma key_inv_install_other (k k0 : string) (s : state) (f : nat) :
  k0 <> k -> futures s !! f = None ->
  key_inv k s -> key_inv k (install k0 f s).
Proof.
  intros Hne Hfresh. apply key_inv_frame; [done| | | |].
  - simpl. by rewrite lookup_insert_ne.
  - intros g Hg. simpl. destruct (decide (g = f)) as [->|Hnf].
    + rewrite lookup_insert_eq. eauto.
    + by rewrite lookup_insert_ne.
  - intros g. unfold is_done; simpl. destruct (decide (g = f)) as [->|Hnf].
    + by rewrite Hfresh.
    + by rewrite lookup_insert_ne.
  - intros g Hg. simpl. destruct (decide (g = f)) as [->|Hnf].
    + rewrite Hfresh in Hg. by destruct Hg.
    + by rewrite lookup_insert_ne.
Qed.

(** The [finally] of a download of another key. *)
Lemma key_inv_finally_other (k k0 : string) (s : state) (f : nat) :
  k0 <> k -> key_inv k s -> key_inv k (finally_pop k0 f s).
Proof.
  intros Hne. apply key_inv_frame; try done.
  by apply finally_pop_other.
Qed.

(** A task whose program point is neither of a leader nor of a follower
    for [k] changes neither set. *)
Lemma key_inv_set_task (k : string) (s : state) (t : nat) (p : pc) :
  (forall f, ~ leader s t k f) ->
  (forall f, p <> InlineWorking k f /\ p <> InlineResolved k f) ->
  (forall f, p = InlineJoined k f \/ p = HandlerJoined k f ->
     is_Some (futures s !! f) /\
     (futures s !! f = Some None -> active_downloads s !! k = Some f)) ->
  key_inv k s -> key_inv k (set_task t p s).
Proof.
  intros Hold Hnew Hjoin [Ho Hr Hs Hd Hc Hfc Hf].
  assert (Hl : forall t' f, leader (set_task t p s) t' k f -> leader s t' k f).
  { intros t' f [[_ [E|E]]|[_ H]]%leader_set_task; [| |done];
      destruct (Hnew f); done. }
  split.
  - intros f Hk. destruct (Ho f Hk) as [t' Ht']. exists t'.
    apply leader_set_task. right. split; [|done].
    intros ->. by apply (Hold f).
  - intros t' f H%Hl. eauto.
  - intros t1 t2 f1 f2 H1%Hl H2%Hl. eauto.
  - intros t' f H. apply (Hd t' f).
    assert (L : leader (set_task t p s) t' k f) by (by right).
    apply Hl in L. revert H. unfold set_task; simpl.
    destruct (decide (t' = t)) as [->|Hne].
    + rewrite lookup_insert_eq. intros [= ->]. destruct (Hnew f); done.
    + by rewrite lookup_insert_ne.
  - intros t' f H%Hl. eauto.
  - intros t' f [[_ E]|[_ H]]%follower_set_task; [|by eauto].
    by apply (Hjoin f).
  - intros t' f [[_ E]|[_ H]]%follower_set_task; [|by eauto].
    by apply (Hjoin f).
Qed.

(** The leader's own future is done: from [InlineWorking] to
    [InlineResolved]. *)
Lemma key_inv_resolved (k : string) (s : state) (t : nat) (f : nat) :
  tasks s !! t = Some (InlineWorking k f) ->
  is_done f s = true ->
  key_inv k s -> key_inv k (set_task t (InlineResolved k f) s).
Proof.
  intros Ht Hdone [Ho Hr Hs Hd Hc Hfc Hf].
  assert (Hl : forall t' f', leader (set_task t (InlineResolved k f) s) t' k f' <->
                             leader s t' k f').
  { intros t' f'. rewrite leader_set_task. unfold leader. split.
    - intros [[-> [E|E]]|[_ H]]; [done| |done]. injection E as ->. by left.
    - intros H. destruct (decide (t' = t)) as [->|Hne]; [|by right].
      left. split; [done|]. right. rewrite Ht in H.
      destruct H as [[= ->]|[=]]. done. }
  assert (Hw : forall t' f', follower (set_task t (InlineResolved k f) s) t' k f' ->
                             follower s t' k f').
  { intros t' f' [[_ [E|E]]|[_ H]]%follower_set_task; done. }
  split.
  - intros f' Hk. destruct (Ho f' Hk) as [t' Ht']. exists t'. by apply Hl.
  - intros t' f' H%Hl. eauto.
  - intros t1 t2 f1 f2 H1%Hl H2%Hl. eauto.
  - intros t' f'. unfold set_task; simpl.
    destruct (decide (t' = t)) as [->|Hne].
    + rewrite lookup_insert_eq. by intros [= <-].
    + rewrite lookup_insert_ne by done. apply Hd.
  - intros t' f' H%Hl. eauto.
  - intros t' f' H%Hw. eauto.
  - intros t' f' H%Hw. eauto.
Qed.

(** [future = asyncio.Future(); active_downloads[normalized_url] = future]
    after the check found no entry. *)
Lemma key_inv_claim (k : string) (s : state) (t : nat) (f : nat) :
  tasks s !! t = Some (InlineStart k) ->
  active_downloads s !! k = None ->
  futures s !! f = None ->
  key_inv k s -> key_inv k (set_task t (InlineWorking k f) (install k f s)).
Proof.
  intros Ht Hk Hfresh [Ho Hr Hs Hd Hc Hfc Hf].
  assert (Hl : forall t' f',
            leader (set_task t (InlineWorking k f) (install k f s)) t' k f' <->
            (t' = t /\ f' = f) \/ (t' <> t /\ leader s t' k f')).
  { intros t' f'. rewrite leader_set_task. split.
    - intros [[-> [E|E]]|H]; [|done|by right]. injection E as ->. by left.
    - intros [(-> & ->)|H]; [|by right]. left. split; [done|by left]. }
  assert (Hw : forall t' f',
            follower (set_task t (InlineWorking k f) (install k f s)) t' k f' ->
            follower s t' k f').
  { intros t' f' [[_ [E|E]]|[_ H]]%follower_set_task; done. }
  assert (Hnone : forall t' f', ~ leader s t' k f').
  { intros t' f' H%Hr. by rewrite Hk in H. }
  split.
  - intros f'. simpl. rewrite lookup_insert_eq. intros [= <-].
    exists t. apply Hl. by left.
  - intros t' f' [(-> & ->)|[_ H]]%Hl; simpl.
    + by rewrite lookup_insert_eq.
    + by destruct (Hnone _ _ H).
  - intros t1 t2 f1 f2 [(-> & ->)|[_ H1]]%Hl [(-> & ->)|[_ H2]]%Hl; try done.
    + by destruct (Hnone _ _ H2).
    + by destruct (Hnone _ _ H1).
    + eauto.
  - intros t' f'. unfold set_task, is_done; simpl.
    destruct (decide (t' = t)) as [->|Hne].
    + by rewrite lookup_insert_eq.
    + rewrite lookup_insert_ne by done. intros H%Hd. unfold is_done in H.
      destruct (decide (f' = f)) as [->|Hnf].
      * by rewrite Hfresh in H.
      * by rewrite lookup_insert_ne.
  - intros t' f' [(-> & ->)|[_ H]]%Hl; simpl.
    + rewrite lookup_insert_eq. eauto.
    + by destruct (Hnone _ _ H).
  - intros t' f' H%Hw. simpl. destruct (decide (f' = f)) as [->|Hnf].
    + rewrite lookup_insert_eq. eauto.
    + rewrite lookup_insert_ne by done. eauto.
  - intros t' f' H%Hw. simpl. destruct (decide (f' = f)) as [->|Hnf].
    + destruct (Hfc _ _ H) as [x Hx]. by rewrite Hfresh in Hx.
    + rewrite lookup_insert_ne by done. intros Hp.
      pose proof (Hf _ _ H Hp) as Hk'. by rewrite Hk in Hk'.
Qed.

(** What the [finally] of download_and_cache_inline does to the registry
    of a state that satisfies the invariant. *)
Lemma finally_pop_resolved (s : state) (t : nat) (k : string) (f : nat) :
  key_inv k s ->
  tasks s !! t = Some (InlineResolved k f) ->
  active_downloads (finally_pop k f s) = delete k (active_downloads s).
Proof.
  intros Hinv Ht. unfold finally_pop. simpl.
  assert (L : leader s t k f) by (by right).
  rewrite (inv_registered k s Hinv t f L), (inv_resolved k s Hinv t f Ht). done.
Qed.

Lemma key_inv_finally (k : string) (s : state) (t : nat) (f : nat) :
  tasks s !! t = Some (InlineResolved k f) ->
  key_inv k s -> key_inv k (set_task t Finished (finally_pop k f s)).
Proof.
  intros Ht Hinv.
  pose proof (finally_pop_resolved s t k f Hinv Ht) as Hpop.
  assert (Lt : leader s t k f) by (by right).
  destruct Hinv as [Ho Hr Hs Hd Hc Hfc Hf].
  assert (Hl : forall t' f',
            leader (set_task t Finished (finally_pop k f s)) t' k f' <->
            t' <> t /\ leader s t' k f').
  { intros t' f'. rewrite leader_set_task. split.
    - intros [[_ [E|E]]|H]; done.
    - intros H. by right. }
  assert (Hw : forall t' f',
            follower (set_task t Finished (finally_pop k f s)) t' k f' ->
            follower s t' k f').
  { intros t' f' [[_ [E|E]]|[_ H]]%follower_set_task; done. }
  assert (Hnone : forall t' f', t' <> t -> ~ leader s t' k f').
  { intros t' f' Hne H. apply Hne. by apply (Hs t' t f' f). }
  split.
  - intros f'. change (active_downloads (set_task t Finished (finally_pop k f s)))
      with (active_downloads (finally_pop k f s)). rewrite Hpop.
    by rewrite lookup_delete_eq.
  - intros t' f' [Hne H]%Hl. by destruct (Hnone _ _ Hne H).
  - intros t1 t2 f1 f2 [_ H1]%Hl [_ H2]%Hl. eauto.
  - intros t' f'. unfold set_task, is_done; simpl.
    destruct (decide (t' = t)) as [->|Hne].
    + by rewrite lookup_insert_eq.
    + rewrite lookup_insert_ne by done. apply Hd.
  - intros t' f' [_ H]%Hl. simpl. eauto.
  - intros t' f' H%Hw. simpl. eauto.
  - intros t' f' H%Hw Hp.
    change (futures (set_task t Finished (finally_pop k f s))) with (futures s) in Hp.
    pose proof (Hf _ _ H Hp) as Hk'.
    rewrite (Hr t f Lt) in Hk'. injection Hk' as <-.
    pose proof (Hd t f Ht) as Hdone. unfold is_done in Hdone.
    by rewrite Hp in Hdone.
Qed.

(** The steps of download_and_cache_inline and of inline_handler, for
    [k] and for every other key. *)
Lemma key_inv_inline_step (k : string) (s s' : state) :
  key_inv k s -> inline_step s s' -> key_inv k s'.
Proof.
  intros Hinv Hstep. destruct Hstep as
    [s t k0 Ht | s t k0 f Ht Hk | s t k0 f Ht Hk Hfresh | s t k0 f o Ht Hdone
    | s t k0 f o Ht | s t k0 f Ht | s t k0 f Ht Hk | s t k0 f o Ht Hdone | s t k0 f Ht].
  - apply key_inv_set_task; [| |by intros f' [?|?]|done].
    + intros f' [E|E]; rewrite Ht in E; done.
    + done.
  - apply key_inv_set_task; [| | |done].
    + intros f' [E|E]; rewrite Ht in E; done.
    + done.
    + intros f' [[= <- <-]|[=]].
      destruct (inv_owner k0 s Hinv f Hk) as [t' Lt']. split; [|done].
      by apply (inv_created k0 s Hinv t' f).
  - destruct (decide (k0 = k)) as [->|Hne]; [by apply key_inv_claim|].
    apply key_inv_set_task; [| | |by apply key_inv_install_other].
    + intros f' [E|E]; simpl in E; rewrite Ht in E; done.
    + intros f'. split; congruence.
    + by intros f' [?|?].
  - apply key_inv_set_task; [| |by intros f' [?|?]|done].
    + intros f' [E|E]; rewrite Ht in E; done.
    + done.
  - destruct (decide (k0 = k)) as [->|Hne].
    + apply key_inv_resolved.
      * done.
      * apply is_done_complete_self. apply (inv_created k s Hinv t f). by left.
      * by apply key_inv_complete.
    + apply key_inv_set_task; [| | |by apply key_inv_complete].
      * intros f' [E|E]; simpl in E; rewrite Ht in E; congruence.
      * intros f'. split; congruence.
      * by intros f' [?|?].
  - destruct (decide (k0 = k)) as [->|Hne]; [by apply key_inv_finally|].
    apply key_inv_set_task; [| | |by apply key_inv_finally_other].
    + intros f' [E|E]; simpl in E; rewrite Ht in E; congruence.
    + done.
    + by intros f' [?|?].
  - apply key_inv_set_task; [| | |done].
    + intros f' [E|E]; rewrite Ht in E; done.
    + done.
    + intros f' [[=]|[= <- <-]].
      destruct (inv_owner k0 s Hinv f Hk) as [t' Lt']. split; [|done].
      by apply (inv_created k0 s Hinv t' f).
  - apply key_inv_set_task; [| |by intros f' [?|?]|done].
    + intros f' [E|E]; rewrite Ht in E; done.
    + done.
  - apply key_inv_set_task; [| |by intros f' [?|?]|by apply key_inv_complete].
    + intros f' [E|E]; simpl in E; rewrite Ht in E; done.
    + done.
Qed.

(** The steps of process_single_url for the other keys. *)
Lemma key_inv_msg_step (k : string) (s s' : state) :
  key_inv k s -> msg_step s s' -> msg_free k s' -> key_inv k s'.
Proof.
  intros Hinv Hstep Hfree. destruct Hstep as
    [s t k0 Ht | s t k0 f Ht Hk | s t k0 f o Ht Hdone | s t k0 f o Ht Hdone
    | s t k0 f Ht Hpend | s t k0 f Ht Hk Hfresh | s t k0 Ht Hk | s t k0 Ht
    | s t k0 f Ht Hfresh | s t k0 f o Ht | s t k0 f Ht].
  1-4, 7-8, 11: apply key_inv_set_task;
    [intros f' [E|E]; rewrite Ht in E; done|done|by intros f' [?|?]|done].
  1, 4: apply key_inv_set_task;
    [intros f' [E|E]; simpl in E; rewrite Ht in E; done|done|by intros f' [?|?]|
     by apply key_inv_complete].
  all: assert (Hne : k0 <> k)
    by (intros ->; apply (Hfree t (MsgWorking k f)); [apply lookup_insert_eq|done]).
  all: apply key_inv_set_task;
    [intros f' [E|E]; simpl in E; rewrite Ht in E; done|done|by intros f' [?|?]|
     by apply key_inv_install_other].
Qed.

Lemma key_inv_step (k : string) (s s' : state) :
  key_inv k s -> step_sparing k s s' -> key_inv k s'.
Proof.
  intros Hinv [[Hstep|Hstep] Hfree].
  - by apply (key_inv_inline_step k s s').
  - by apply (key_inv_msg_step k s s').
Qed.

Lemma sparing_reachable (k : string) (s : state) :
  rtc (step_sparing k) init s -> key_inv k s /\ msg_free k s.
Proof.
  revert s. apply rtc_ind_r; [split; [apply key_inv_init|apply msg_free_init]|].
  intros s s' _ Hstep [IH _]. split; [by apply (key_inv_step k s s')|].
  by destruct Hstep.
Qed.

(** What one step may do to the entry of [k]: a new entry appears only
    when there was none, with a fresh future. *)
Lemma step_entry (k : string) (s s' : state) (f : nat) :
  key_inv k s -> step_sparing k s s' ->
  active_downloads s' !! k = Some f ->
  active_downloads s !! k = Some f \/
  (active_downloads s !! k = None /\ futures s !! f = None).
Proof.
  intros Hinv [[Hstep|Hstep] Hfree].
  - destruct Hstep as
      [s t k0 Ht | s t k0 f0 Ht Hk | s t k0 f0 Ht Hk Hfresh | s t k0 f0 o Ht Hdone
      | s t k0 f0 o Ht | s t k0 f0 Ht | s t k0 f0 Ht Hk | s t k0 f0 o Ht Hdone
      | s t k0 f0 Ht]; simpl; try (by left).
    + destruct (decide (k0 = k)) as [->|Hne].
      * rewrite lookup_insert_eq. intros [= <-]. by right.
      * rewrite lookup_insert_ne by done. by left.
    + change (active_downloads (finally_pop k0 f0 s) !! k = Some f ->
              active_downloads s !! k = Some f \/
              active_downloads s !! k = None /\ futures s !! f = None).
      destruct (decide (k0 = k)) as [->|Hne].
      * rewrite (finally_pop_resolved s t k f0 Hinv Ht). by rewrite lookup_delete_eq.
      * rewrite (finally_pop_other s k k0 f0 Hne). by left.
  - destruct Hstep as
      [s t k0 Ht | s t k0 f0 Ht Hk | s t k0 f0 o Ht Hdone | s t k0 f0 o Ht Hdone
      | s t k0 f0 Ht Hpend | s t k0 f0 Ht Hk Hfresh | s t k0 Ht Hk | s t k0 Ht
      | s t k0 f0 Ht Hfresh | s t k0 f0 o Ht | s t k0 f0 Ht]; simpl; try (by left).
    all: assert (Hne : k0 <> k)
      by (intros ->; apply (Hfree t (MsgWorking k f0)); [apply lookup_insert_eq|done]).
    all: rewrite lookup_insert_ne by done; by left.
Qed.

(** C3, on process_single_url, which shares [active_downloads] with
    download_and_cache_inline but neither removes its entry nor looks at
    the registry before it installs one after an [await].  First run: one
    message request downloads, completes its future and ends; no request
    is left and the entry, its future done, is still in the registry.
    Second run: a second message request for the same link, whose wait
    for the registered future timed out, installs future 1 over the entry
    of the first request, which is still downloading: two downloads of
    one key are in flight, and the registered future is no longer the one
    the first request completes. *)
Lemma process_single_url_keeps_and_overwrites :
  (rtc step init Demo.msg_finished /\
   quiescent Demo.msg_finished /\
   active_downloads Demo.msg_finished !! Demo.key = Some 0%nat /\
   futures Demo.msg_finished !! 0%nat = Some (Some Demo.delivered)) /\
  (rtc step init Demo.msg_timed_out /\
   step Demo.msg_timed_out Demo.msg_overwritten /\
   active_downloads Demo.msg_timed_out !! Demo.key = Some 0%nat /\
   active_downloads Demo.msg_overwritten !! Demo.key = Some 1%nat /\
   tasks Demo.msg_overwritten !! 0%nat = Some (MsgWorking Demo.key 0) /\
   tasks Demo.msg_overwritten !! 1%nat = Some (MsgWorking Demo.key 1)).
Proof.
  assert (Hclaimed : rtc step init Demo.msg_claimed).
  { eapply rtc_l; [right; apply (spawn_msg init 0 Demo.key); reflexivity|].
    eapply rtc_l; [right; apply (msg_claim_direct _ 0 Demo.key 0); reflexivity|].
    apply rtc_refl. }
  split; [split; [|split; [|split]]|split; [|split; [|split; [|split; [|split]]]]].
  - etrans; [exact Hclaimed|].
    eapply rtc_l; [right; apply (msg_resolve _ 0 Demo.key 0 Demo.delivered); reflexivity|].
    eapply rtc_l; [right; apply (msg_finish _ 0 Demo.key 0); reflexivity|].
    apply rtc_refl.
  - intros t p. unfold Demo.msg_finished, set_task. simpl.
    destruct (decide (t = 0%nat)) as [->|Hne].
    + rewrite lookup_insert_eq. by intros [= <-].
    + by rewrite !lookup_insert_ne, lookup_empty by done.
  - reflexivity.
  - reflexivity.
  - etrans; [exact Hclaimed|].
    eapply rtc_l; [right; apply (spawn_msg _ 1 Demo.key); reflexivity|].
    eapply rtc_l; [right; apply (msg_join _ 1 Demo.key 0); reflexivity|].
    eapply rtc_l; [right; apply (msg_timeout _ 1 Demo.key 0); reflexivity|].
    apply rtc_refl.
  - right. apply (msg_claim_late _ 1 Demo.key 1); reflexivity.
  - reflexivity.
  - reflexivity.
  - reflexivity.
  - reflexivity.
Qed.

(** X28.  Take a canonical URL [k] and an execution, of any requests, in
    which process_single_url is never asked for [k]: inline requests for
    every key and message requests for other keys run side by side.  In
    every state of it, (1) at most one download of [k] is between its
    install and its [finally], and it has one future; (2) the registry
    holds an entry for [k] exactly when there is such a download, and the
    entry is that download's future; (3) a step puts a new entry under
    [k] only when there was none, with a fresh future; (4) whoever waits
    for a pending future that it found under [k] waits for the registered
    one; (5) a download of [k] whose future is done can run its [finally],
    and that removes the entry; (6) when no request is left, [k] has no
    entry. *)
Theorem inline_key_single_flight (k : string) (s : state) :
  rtc (step_sparing k) init s ->
  (forall t1 t2 f1 f2,
     leader s t1 k f1 -> leader s t2 k f2 -> t1 = t2 /\ f1 = f2) /\
  (forall f, active_downloads s !! k = Some f <-> exists t, leader s t k f) /\
  (forall s' f, step_sparing k s s' -> active_downloads s' !! k = Some f ->
     active_downloads s !! k = Some f \/
     (active_downloads s !! k = None /\ futures s !! f = None)) /\
  (forall t f, follower s t k f -> futures s !! f = Some None ->
     active_downloads s !! k = Some f) /\
  (forall t f, tasks s !! t = Some (InlineResolved k f) ->
     is_done f s = true /\
     step_sparing k s (set_task t Finished (finally_pop k f s)) /\
     active_downloads (set_task t Finished (finally_pop k f s)) !! k = None) /\
  (quiescent s -> active_downloads s !! k = None).
Proof.
  intros [Hinv Hfree]%sparing_reachable.
  split; [|split; [|split; [|split; [|split]]]].
  - intros t1 t2 f1 f2 H1 H2.
    pose proof (inv_single k s Hinv _ _ _ _ H1 H2) as <-.
    split; [done|].
    pose proof (inv_registered k s Hinv _ _ H1) as E1.
    pose proof (inv_registered k s Hinv _ _ H2) as E2. congruence.
  - intros f. split; [apply (inv_owner k s Hinv)|].
    intros [t H]. by apply (inv_registered k s Hinv t).
  - intros s' f Hstep. by apply step_entry.
  - apply (inv_follower k s Hinv).
  - intros t f Ht. split; [by apply (inv_resolved k s Hinv t f)|].
    split; [split; [left; by apply inline_finally|by apply msg_free_set_task]|].
    change (active_downloads (finally_pop k f s) !! k = None).
    rewrite (finally_pop_resolved s t k f Hinv Ht). apply lookup_delete_eq.
  - intros Hq. destruct (active_downloads s !! k) as [f|] eqn:Hk; [|done].
    destruct (inv_owner k s Hinv f Hk) as [t [H|H]]; by apply Hq in H.
Qed.

Lemma inline_key_single_flight_witness :
  active_downloads Demo.mixed_claimed !! Demo.key = Some 0%nat /\
  (exists t, leader Demo.mixed_claimed t Demo.key 0) /\
  (follower Demo.mixed_claimed 1 Demo.key 0 /\
   futures Demo.mixed_claimed !! 0%nat = Some None) /\
  tasks Demo.mixed_claimed !! 2%nat = Some (MsgWorking Demo.other_key 1).
Proof.
  assert (Hreach : rtc (step_sparing Demo.key) init Demo.mixed_claimed).
  { eapply rtc_l; [split; [left; apply (spawn_inline init 0 Demo.key); reflexivity|]|].
    { repeat (apply msg_free_set_task; [by vm_compute|]). apply msg_free_init. }
    eapply rtc_l; [split; [left; apply (inline_claim _ 0 Demo.key 0); reflexivity|]|].
    { repeat (apply msg_free_set_task; [by vm_compute|]). apply msg_free_init. }
    eapply rtc_l; [split; [right; apply (spawn_msg _ 2 Demo.other_key); reflexivity|]|].
    { repeat (apply msg_free_set_task; [by vm_compute|]). apply msg_free_init. }
    eapply rtc_l; [split; [right; apply (msg_claim_direct _ 2 Demo.other_key 1);
                           reflexivity|]|].
    { repeat (apply msg_free_set_task; [by vm_compute|]). apply msg_free_init. }
    eapply rtc_l; [split; [left; apply (spawn_inline _ 1 Demo.key); reflexivity|]|].
    { repeat (apply msg_free_set_task; [by vm_compute|]). apply msg_free_init. }
    eapply rtc_l; [split; [left; apply (inline_join _ 1 Demo.key 0); reflexivity|]|].
    { repeat (apply msg_free_set_task; [by vm_compute|]). apply msg_free_init. }
    apply rtc_refl. }
  destruct (inline_key_single_flight Demo.key Demo.mixed_claimed Hreach)
    as (_ & Hentry & _ & Hwait & _).
  assert (Hf : follower Demo.mixed_claimed 1 Demo.key 0) by (left; reflexivity).
  assert (Hp : futures Demo.mixed_claimed !! 0%nat = Some None) by reflexivity.
  split; [exact (Hwait 1%nat 0%nat Hf Hp)|].
  split; [|done].
  apply Hentry. exact (Hwait 1%nat 0%nat Hf Hp).
Defined.

End RegistryFacts.

(** ** The URL canonicalizer *)

Section CanonFacts.

Import Url Canon CanonSpec.

(** *** Strings over a class of characters *)

Lemma str_all_app (p : ascii -> bool) (a b : string) :
  Py.str_all p (a +:+ b) = Py.str_all p a && Py.str_all p b.
Proof.
  induction a as [|c a IH]; [reflexivity|].
  rewrite append_cons. simpl. by rewrite IH, andb_assoc.
Qed.

Lemma str_all_impl (p q : ascii -> bool) (s : string) :
  (forall c, p c = true -> q c = true) ->
  Py.str_all p s = true -> Py.str_all q s = true.
Proof.
  intros Hpq. induction s as [|c s IH]; [done|]. simpl.
  intros [Hc Hs]%andb_true_iff. by rewrite (Hpq c Hc), IH.
Qed.

Lemma has_char_app (c : ascii) (a b : string) :
  Py.has_char c (a +:+ b) = Py.has_char c a || Py.has_char c b.
Proof.
  induction a as [|d a IH]; [reflexivity|].
  rewrite append_cons. simpl. by rewrite IH, orb_assoc.
Qed.

(** A string over [none_of delimiters] holds no delimiter. *)
Lemma none_of_has_char (delimiters : string) (x : ascii) (s : string) :
  Py.has_char x delimiters = true ->
  Py.str_all (none_of delimiters) s = true ->
  Py.has_char x s = false.
Proof.
  intros Hx. induction s as [|c s IH]; [done|]. simpl.
  intros [Hc Hs]%andb_true_iff. rewrite (IH Hs), orb_false_r.
  destruct (Ascii.eqb x c) eqn:E; [|done].
  apply Ascii.eqb_eq in E. subst c. unfold none_of in Hc.
  rewrite Hx in Hc. by rewrite andb_false_r in Hc.
Qed.

Lemma none_of_visible (delimiters : string) (s : string) :
  Py.str_all (none_of delimiters) s = true -> Py.str_all visible s = true.
Proof.
  apply str_all_impl. intros c H. unfold none_of in H.
  by apply andb_true_iff in H as [H _].
Qed.

Lemma visible_not_space (c : ascii) : visible c = true -> Py.isspace c = false.
Proof.
  unfold visible, Py.isspace. intros [H1 H2]%andb_true_iff.
  apply N.leb_le in H1, H2.
  repeat match goal with
         | |- context [(?a <=? ?b)%N] => destruct (N.leb_spec a b)
         | |- context [(?a =? ?b)%N] => destruct (N.eqb_spec a b)
         end; simpl; try reflexivity; lia.
Qed.

Lemma visible_not_unsafe (c : ascii) : visible c = true -> unsafe_byte c = false.
Proof.
  unfold visible, unsafe_byte. intros [H1 H2]%andb_true_iff.
  apply N.leb_le in H1, H2.
  repeat match goal with
         | |- context [(?a =? ?b)%N] => destruct (N.eqb_spec a b)
         end; simpl; try reflexivity; lia.
Qed.

Lemma rstrip_by_none (p : ascii -> bool) (s : string) :
  Py.str_all (fun c => negb (p c)) s = true -> Py.rstrip_by p s = s.
Proof.
  induction s as [|c s IH]; [done|]. simpl.
  intros [Hc Hs]%andb_true_iff. rewrite (IH Hs).
  apply negb_true_iff in Hc. by rewrite Hc, andb_false_r.
Qed.

Lemma lstrip_by_none (p : ascii -> bool) (s : string) :
  Py.str_all (fun c => negb (p c)) s = true -> Py.lstrip_by p s = s.
Proof.
  destruct s as [|c s]; [done|]. simpl.
  intros [Hc _]%andb_true_iff. apply negb_true_iff in Hc. by rewrite Hc.
Qed.

Lemma remove_char_none (p : ascii -> bool) (s : string) :
  Py.str_all (fun c => negb (p c)) s = true -> Py.remove_char p s = s.
Proof.
  induction s as [|c s IH]; [done|]. simpl.
  intros [Hc Hs]%andb_true_iff. apply negb_true_iff in Hc.
  by rewrite Hc, (IH Hs).
Qed.

Lemma strip_visible (s : string) :
  Py.str_all visible s = true -> Py.strip s = s.
Proof.
  intros H.
  assert (H' : Py.str_all (fun c => negb (Py.isspace c)) s = true).
  { revert H. apply str_all_impl. intros c Hc. by rewrite (visible_not_space c Hc). }
  unfold Py.strip. by rewrite (lstrip_by_none _ _ H'), (rstrip_by_none _ _ H').
Qed.

Lemma partition_found (c : ascii) (a b : string) :
  Py.has_char c a = false ->
  Py.partition c (a +:+ String c b) = (a, Some b).
Proof.
  induction a as [|d a IH].
  - intros _. rewrite append_nil_l. simpl. by rewrite Ascii.eqb_refl.
  - intros H. simpl in H. apply orb_false_iff in H as [Hd Ha].
    rewrite append_cons. simpl. by rewrite Hd, (IH Ha).
Qed.

Lemma partition_none (c : ascii) (a : string) :
  Py.has_char c a = false -> Py.partition c a = (a, None).
Proof.
  induction a as [|d a IH]; [done|]. simpl.
  intros [Hd Ha]%orb_false_iff. by rewrite Hd, (IH Ha).
Qed.

Lemma break_at_app (p : ascii -> bool) (a b : string) :
  Py.str_all (fun c => negb (p c)) a = true ->
  Py.starts_with p b = true ->
  break_at p (a +:+ b) = (a, b).
Proof.
  intros Ha Hb. induction a as [|c a IH].
  - rewrite append_nil_l. destruct b as [|d b]; [done|]. simpl in *. by rewrite Hb.
  - simpl in Ha. apply andb_true_iff in Ha as [Hc Ha].
    apply negb_true_iff in Hc. rewrite append_cons. simpl.
    by rewrite Hc, (IH Ha).
Qed.

Lemma rstrip_slashes_only (n : nat) : Py.rstrip_char "/" (slashes n) = EmptyString.
Proof.
  induction n as [|n IH]; [done|]. unfold Py.rstrip_char in *. simpl.
  by rewrite IH.
Qed.

Lemma rstrip_slashes (path : string) (n : nat) :
  Py.endswith_char "/" path = false ->
  Py.rstrip_char "/" (path +:+ slashes n) = path.
Proof.
  induction path as [|c path IH].
  - intros _. apply rstrip_slashes_only.
  - intros H. rewrite append_cons. unfold Py.rstrip_char in *. simpl.
    destruct path as [|d path].
    + rewrite append_nil_l. fold (Py.rstrip_char "/" (slashes n)).
      rewrite rstrip_slashes_only. simpl in *. by rewrite H.
    + rewrite IH by exact H. done.
Qed.

(** *** [urlparse] of a link with its scheme *)

Lemma visible_not_c0 (c : ascii) : visible c = true -> c0_or_space c = false.
Proof.
  unfold visible, c0_or_space. intros [H1 H2]%andb_true_iff.
  apply N.leb_le in H1. apply N.leb_gt. lia.
Qed.

Lemma split_scheme_http (rest : string) :
  split_scheme ("http" +:+ "://" +:+ rest) = ("http", String "/" (String "/" rest)).
Proof. reflexivity. Qed.

Lemma split_scheme_https (rest : string) :
  split_scheme ("https" +:+ "://" +:+ rest) = ("https", String "/" (String "/" rest)).
Proof. reflexivity. Qed.

Lemma http_or_https (sch : string) :
  Py.str_mem sch ["http"; "https"] = true -> sch = "http" \/ sch = "https".
Proof.
  unfold Py.str_mem. simpl. rewrite orb_false_r.
  intros [H|H]%orb_true_iff; apply String.eqb_eq in H; auto.
Qed.

Lemma urlsplit_link (check : string -> bool) (sch host path : string)
    (q f : option string) :
  Py.str_mem sch ["http"; "https"] = true ->
  Py.str_all (none_of "/?#[]") host = true ->
  Py.str_all (none_of "?#;") path = true ->
  Py.is_empty path || Py.startswith "/" path = true ->
  match q with Some x => Py.str_all (none_of "#") x | None => true end = true ->
  match f with Some x => Py.str_all visible x | None => true end = true ->
  urlsplit check (sch +:+ "://" +:+ host +:+ path +:+ query_part q +:+ fragment_part f)
  = Some (sch, host, path, default EmptyString q, default EmptyString f).
Proof.
  intros Hsch Hhost Hpath Hroot Hq Hf.
  set (rest := path +:+ query_part q +:+ fragment_part f).
  assert (Hvq : Py.str_all visible (query_part q) = true).
  { destruct q as [x|]; [|done]. simpl. by apply (none_of_visible "#"). }
  assert (Hvf : Py.str_all visible (fragment_part f) = true).
  { destruct f as [x|]; [|done]. simpl. done. }
  assert (Hvrest : Py.str_all visible (host +:+ rest) = true).
  { unfold rest. rewrite !str_all_app.
    by rewrite (none_of_visible _ _ Hhost), (none_of_visible _ _ Hpath), Hvq, Hvf. }
  assert (Hstart : Py.starts_with netloc_end rest = true).
  { unfold rest. destruct path as [|c path].
    - rewrite append_nil_l. destruct q as [x|]; [done|].
      simpl. rewrite append_nil_l. by destruct f.
    - cbn [Py.is_empty Py.startswith orb] in Hroot. rewrite append_cons.
      apply andb_true_iff in Hroot as [Hc _]. apply Ascii.eqb_eq in Hc. by subst c. }
  assert (Hnl : Py.str_all (fun c => negb (netloc_end c)) host = true).
  { revert Hhost. apply str_all_impl. intros c Hc. unfold none_of in Hc.
    apply andb_true_iff in Hc as [_ Hc]. apply negb_true_iff in Hc.
    simpl in Hc. unfold netloc_end.
    repeat (apply orb_false_iff in Hc as [? Hc]).
    by repeat match goal with H : (_ =? _)%char = false |- _ => rewrite H; clear H end. }
  assert (Hlb : Py.has_char "[" host = false) by (by apply (none_of_has_char "/?#[]")).
  assert (Hrb : Py.has_char "]" host = false) by (by apply (none_of_has_char "/?#[]")).
  assert (Hfrag : Py.partition "#" rest =
                  (path +:+ query_part q, option_map (fun x => x) f)).
  { unfold rest. destruct f as [x|]; simpl.
    - rewrite <- append_assoc. apply partition_found. rewrite has_char_app.
      rewrite (none_of_has_char "?#;" "#" path eq_refl Hpath).
      destruct q as [y|]; [|done]. simpl.
      by apply (none_of_has_char "#").
    - rewrite append_nil_r. apply partition_none. rewrite has_char_app.
      rewrite (none_of_has_char "?#;" "#" path eq_refl Hpath).
      destruct q as [y|]; [|done]. simpl.
      by apply (none_of_has_char "#"). }
  assert (Hquery : Py.partition "?" (path +:+ query_part q) =
                   (path, option_map (fun x => x) q)).
  { pose proof (none_of_has_char "?#;" "?" path eq_refl Hpath) as Hp.
    destruct q as [y|]; simpl.
    - by apply partition_found.
    - rewrite append_nil_r. by apply partition_none. }
  assert (Hwhole : urlsplit check (sch +:+ "://" +:+ host +:+ rest)
                   = Some (sch, host, path, default EmptyString q, default EmptyString f)).
  { unfold urlsplit.
    assert (Hv : Py.str_all visible (sch +:+ "://" +:+ host +:+ rest) = true).
    { rewrite !str_all_app in *. destruct (http_or_https sch Hsch) as [-> | ->];
        simpl; exact Hvrest. }
    rewrite lstrip_by_none
      by (revert Hv; apply str_all_impl; intros c Hc; by rewrite (visible_not_c0 c Hc)).
    rewrite remove_char_none
      by (revert Hv; apply str_all_impl; intros c Hc; by rewrite (visible_not_unsafe c Hc)).
    assert (Hs : split_scheme (sch +:+ "://" +:+ host +:+ rest)
                 = (sch, String "/" (String "/" (host +:+ rest)))).
    { destruct (http_or_https sch Hsch) as [-> | ->]; reflexivity. }
    rewrite Hs. cbv beta iota zeta.
    rewrite (break_at_app netloc_end host rest Hnl Hstart).
    cbv beta iota zeta. rewrite Hlb, Hrb. cbn [xorb andb].
    rewrite Hfrag.
    assert (Hrest : f = None -> rest = path +:+ query_part q).
    { intros ->. unfold rest. simpl. by rewrite append_nil_r. }
    destruct f as [x|]; cbn [option_map]; cbv beta iota zeta;
      rewrite ?Hrest by done; rewrite Hquery; destruct q as [y|];
      cbn [option_map query_part]; rewrite ?append_nil_r; reflexivity. }
  exact Hwhole.
Qed.

Lemma urlparse_link (check : string -> bool) (sch host path : string)
    (q f : option string) :
  Py.str_mem sch ["http"; "https"] = true ->
  Py.str_all (none_of "/?#[]") host = true ->
  Py.str_all (none_of "?#;") path = true ->
  Py.is_empty path || Py.startswith "/" path = true ->
  match q with Some x => Py.str_all (none_of "#") x | None => true end = true ->
  match f with Some x => Py.str_all visible x | None => true end = true ->
  urlparse check (sch +:+ "://" +:+ host +:+ path +:+ query_part q +:+ fragment_part f)
  = Some {| scheme := sch; netloc := host; path := path; params := EmptyString;
            query := default EmptyString q; fragment := default EmptyString f |}.
Proof.
  intros Hsch Hhost Hpath Hroot Hq Hf. unfold urlparse.
  rewrite (urlsplit_link check sch host path q f Hsch Hhost Hpath Hroot Hq Hf).
  cbv beta iota zeta.
  rewrite (none_of_has_char "?#;" ";" path eq_refl Hpath), andb_false_r.
  reflexivity.
Qed.

(** *** The fields of a query *)

Lemma split_no_separator (c : ascii) (x : string) :
  Py.has_char c x = false -> Py.split c x = [x].
Proof.
  induction x as [|d x IH]; [done|]. simpl.
  intros [Hd Hx]%orb_false_iff. by rewrite Hd, (IH Hx).
Qed.

Lemma split_field (c : ascii) (x rest : string) :
  Py.has_char c x = false ->
  Py.split c (x +:+ String c rest) = x :: Py.split c rest.
Proof.
  induction x as [|d x IH].
  - intros _. rewrite append_nil_l. simpl. by rewrite Ascii.eqb_refl.
  - intros H. simpl in H. apply orb_false_iff in H as [Hd Hx].
    rewrite append_cons. simpl. by rewrite Hd, (IH Hx).
Qed.

Lemma split_join (c : ascii) (fields : list string) :
  fields <> [] ->
  Forall (fun x => Py.has_char c x = false) fields ->
  Py.split c (Py.join (String c EmptyString) fields) = fields.
Proof.
  intros Hne Hall. induction Hall as [|x r Hx Hr IH]; [done|].
  destruct r as [|y r].
  - simpl. by apply split_no_separator.
  - change (Py.join (String c "") (x :: y :: r))
      with (x +:+ String c "" +:+ Py.join (String c "") (y :: r)).
    rewrite append_cons, append_nil_l, (split_field c x _ Hx), IH; done.
Qed.

Lemma join_empty (sep : string) (fields : list string) :
  sep <> EmptyString ->
  Py.join sep fields = EmptyString -> fields = [] \/ fields = [EmptyString].
Proof.
  intros Hsep. destruct fields as [|x [|y r]]; simpl.
  - by left.
  - intros ->. by right.
  - intros H. destruct x as [|d x]; [|by rewrite append_cons in H].
    rewrite append_nil_l in H. destruct sep; [done|by rewrite append_cons in H].
Qed.

Lemma parse_qsl_fields (fields : list string) :
  fields <> [] ->
  Forall (fun x => Py.has_char "&" x = false) fields ->
  parse_qsl (Py.join "&" fields) = map decode (omap parse_field fields).
Proof.
  intros Hne Hall. unfold parse_qsl.
  destruct (Py.is_empty (Py.join "&" fields)) eqn:He.
  - destruct (Py.join "&" fields) eqn:Hj; [|done].
    apply join_empty in Hj as [->| ->]; done.
  - rewrite (split_join "&" fields Hne Hall). clear.
    induction fields as [|x r IH]; [done|].
    cbn [flat_map omap]. rewrite IH. unfold parse_field, mbind, option_bind.
    cbn [list_omap]. fold (omap (M := list) parse_field r).
    destruct (Py.partition "=" x) as [name [value|]]; [|done].
    by destruct (Py.is_empty value).
Qed.

(** *** Plain tokens pass [unquote] and [quote_plus] unchanged *)

Lemma token_plain (s : string) :
  Py.str_all token_char s = true ->
  plus_to_space s = s /\ Py.has_char "%" s = false /\
  existsb (N.eqb 32) (code_points s) = false /\
  Forall (fun b => always_safe b = true /\ (b <? 128)%N = true) (code_points s).
Proof.
  induction s as [|c s IH]; [by repeat split; try constructor|].
  cbn [Py.str_all]. intros [Hc Hs]%andb_true_iff.
  destruct (IH Hs) as (IH1 & IH2 & IH3 & IH4).
  assert (Hcases : (c =? "+")%char = false /\ ("%" =? c)%char = false /\
                   (32 =? Py.ord c)%N = false /\
                   always_safe (Py.ord c) = true /\ (Py.ord c <? 128)%N = true).
  { clear -Hc. destruct c as [[|] [|] [|] [|] [|] [|] [|] [|]];
      vm_compute in Hc; try discriminate Hc; vm_compute; auto. }
  destruct Hcases as (H1 & H2 & H3 & H4 & H5).
  cbn [plus_to_space Py.has_char]. rewrite H1, H2, IH1, IH2.
  unfold code_points in *. cbn [list_ascii_of_string map existsb].
  rewrite H3, IH3. repeat split; try done. by constructor.
Qed.

Lemma unquote_token (s : string) :
  Py.str_all token_char s = true -> unquote (plus_to_space s) = code_points s.
Proof.
  intros (H1 & H2 & _)%token_plain. rewrite H1. unfold unquote. by rewrite H2.
Qed.

Lemma chr_ord (c : ascii) : Py.chr (Py.ord c) = c.
Proof. apply ascii_N_embedding. Qed.

Lemma quote_plus_token (s : string) :
  Py.str_all token_char s = true -> quote_plus (code_points s) = Some s.
Proof.
  intros (_ & _ & Hsp & Hsafe)%token_plain. unfold quote_plus, quote.
  rewrite Hsp. simpl negb. cbv iota.
  assert (He : utf8_encode (code_points s) = Some (code_points s)).
  { clear Hsp. induction Hsafe as [|b r [_ Hb] _ IH]; [done|].
    simpl. unfold utf8_encode_char. by rewrite Hb, IH. }
  rewrite He. f_equal. clear He Hsp.
  induction s as [|c s IH]; [done|].
  unfold code_points in *. simpl in *. inversion Hsafe as [|? ? [Hb _] Hr]; subst.
  assert (Hq : quote_byte [] (Py.ord c) = String c EmptyString).
  { unfold quote_byte. rewrite Hb. simpl. by rewrite chr_ord. }
  rewrite Hq. specialize (IH Hr).
  destruct (map (quote_byte []) (map Py.ord (list_ascii_of_string s))) eqn:E.
  - simpl in IH. by subst s.
  - by rewrite IH.
Qed.

Lemma code_points_inj (a b : string) : code_points a = code_points b -> a = b.
Proof.
  revert b. induction a as [|c a IH]; intros [|d b]; try done.
  unfold code_points. simpl. intros [= Hc Hr].
  f_equal; [|by apply IH].
  by rewrite <- (chr_ord c), <- (chr_ord d), Hc.
Qed.

(** *** The dictionary of [parse_qs] *)

Lemma filter_as_bool {A : Type} (P : A -> Prop) `{forall x, Decision (P x)}
    (f : A -> bool) (l : list A) :
  (forall x, P x <-> f x = true) ->
  filter P l = List.filter f l.
Proof.
  intros Hf. induction l as [|x l IH]; [done|].
  rewrite filter_cons. simpl. rewrite IH.
  destruct (decide (P x)) as [Hx|Hx].
  - apply Hf in Hx. by rewrite Hx.
  - destruct (f x) eqn:E; [|done]. by apply Hf in E.
Qed.

Lemma dict_append_filter (P : list N -> bool) (k v : list N) (d : query_dict) :
  List.filter (on_key P) (dict_append k v d) =
  if P k then dict_append k v (List.filter (on_key P) d)
  else List.filter (on_key P) d.
Proof.
  induction d as [|[k' vs] r IH].
  - simpl. unfold on_key. simpl. by destruct (P k).
  - cbn [dict_append]. unfold key_eqb. destruct (bool_decide_reflect (k = k')) as [->|Hne].
    + cbn [List.filter]. change (on_key P (k', vs ++ [v])) with (P k').
      change (on_key P (k', vs)) with (P k').
      destruct (P k') eqn:E; [|done].
      cbn [dict_append]. unfold key_eqb. by rewrite bool_decide_eq_true_2.
    + cbn [List.filter]. change (on_key P (k', vs)) with (P k'). rewrite IH.
      destruct (P k'), (P k); try done.
      cbn [dict_append]. unfold key_eqb. by rewrite bool_decide_eq_false_2.
Qed.

Lemma build_filter (P : list N -> bool) (l : list (list N * list N)) (d : query_dict) :
  List.filter (on_key P) (fold_left add_pair l d) =
  fold_left add_pair (List.filter (fun p => P (fst p)) l) (List.filter (on_key P) d).
Proof.
  revert d. induction l as [|[k v] l IH]; intros d; [done|].
  cbn [fold_left add_pair List.filter fst]. rewrite IH, dict_append_filter.
  by destruct (P k).
Qed.

Lemma dict_append_keys (k v : list N) (d : query_dict) :
  map fst (dict_append k v d) =
  if existsb (key_eqb k) (map fst d) then map fst d else map fst d ++ [k].
Proof.
  induction d as [|[k' vs] r IH]; [done|].
  cbn [dict_append map fst existsb].
  destruct (key_eqb k k'); [done|]. cbn [map fst orb]. rewrite IH.
  by destruct (existsb (key_eqb k) (map fst r)).
Qed.

Lemma build_keys_nodup (l : list (list N * list N)) (d : query_dict) :
  NoDup (map fst d) -> NoDup (map fst (fold_left add_pair l d)).
Proof.
  revert d. induction l as [|[k v] l IH]; intros d Hd; [done|].
  cbn [fold_left add_pair]. apply IH. rewrite dict_append_keys.
  destruct (existsb (key_eqb k) (map fst d)) eqn:E; [done|].
  apply NoDup_app. split; [done|]. split; [|apply NoDup_singleton].
  intros x Hx ->%list_elem_of_singleton.
  assert (Ht : existsb (key_eqb k) (map fst d) = true); [|congruence].
  apply existsb_exists. exists k. split; [by apply list_elem_of_In|].
  unfold key_eqb. by apply bool_decide_eq_true_2.
Qed.

Lemma dict_get_filter (k : list N) (d : query_dict) :
  NoDup (map fst d) ->
  match dict_get k d with
  | Some vs => [(k, vs)]
  | None => []
  end = List.filter (on_key (fun k' => existsb (key_eqb k') [k])) d.
Proof.
  unfold dict_get. induction d as [|[k' vs] r IH]; [done|].
  cbn [map fst]. intros [Hk' Hr]%NoDup_cons.
  cbn [List.find List.filter]. unfold on_key at 1. cbn [fst existsb].
  rewrite orb_false_r. specialize (IH Hr).
  unfold key_eqb at 1 3.
  destruct (bool_decide_reflect (k = k')) as [->|Hne].
  - rewrite bool_decide_eq_true_2 by done. f_equal.
    clear IH. induction r as [|[k2 vs2] r IH2]; [done|].
    cbn [List.filter]. unfold on_key at 1. cbn [fst existsb].
    rewrite orb_false_r. unfold key_eqb at 1.
    cbn [map fst] in Hk', Hr. apply NoDup_cons in Hr as [_ Hr].
    rewrite bool_decide_eq_false_2.
    + apply IH2; [|done]. intros H. apply Hk'. by right.
    + intros ->. apply Hk'. by left.
  - rewrite bool_decide_eq_false_2 by (intros ->; done). exact IH.
Qed.

(** *** Names in the order of their first appearance *)

Lemma str_mem_In (x : string) (l : list string) :
  Py.str_mem x l = true <-> In x l.
Proof.
  unfold Py.str_mem. rewrite existsb_exists. split.
  - intros (y & Hy & ->%String.eqb_eq). done.
  - intros H. exists x. split; [done|apply String.eqb_refl].
Qed.

Lemma str_mem_app (x : string) (l1 l2 : list string) :
  Py.str_mem x (l1 ++ l2) = Py.str_mem x l1 || Py.str_mem x l2.
Proof. apply existsb_app. Qed.

Lemma first_seen_snoc (names : list string) (n : string) :
  first_seen (names ++ [n]) =
  if Py.str_mem n (first_seen names) then first_seen names else first_seen names ++ [n].
Proof. unfold first_seen. by rewrite fold_left_app. Qed.

Lemma first_seen_mem (names : list string) (x : string) :
  Py.str_mem x (first_seen names) = Py.str_mem x names.
Proof.
  induction names as [|n names IH] using rev_ind; [done|].
  rewrite first_seen_snoc, str_mem_app.
  destruct (Py.str_mem n (first_seen names)) eqn:E.
  - rewrite IH. unfold Py.str_mem at 2. simpl. rewrite orb_false_r.
    destruct (String.eqb_spec x n) as [->|Hne]; [|by rewrite orb_false_r].
    rewrite <- IH, E. by rewrite orb_true_r.
  - by rewrite str_mem_app, IH.
Qed.

Lemma first_seen_nodup (names : list string) : NoDup (first_seen names).
Proof.
  induction names as [|n names IH] using rev_ind; [constructor|].
  rewrite first_seen_snoc.
  destruct (Py.str_mem n (first_seen names)) eqn:E; [done|].
  apply NoDup_app. split; [done|]. split; [|apply NoDup_singleton].
  intros x Hx ->%list_elem_of_singleton.
  apply list_elem_of_In, str_mem_In in Hx. congruence.
Qed.

Lemma key_eqb_code_points (a b : string) :
  key_eqb (code_points a) (code_points b) = String.eqb a b.
Proof.
  unfold key_eqb. destruct (String.eqb_spec a b) as [->|Hne].
  - by apply bool_decide_eq_true_2.
  - apply bool_decide_eq_false_2. by intros H%code_points_inj.
Qed.

Lemma dict_append_entry (l : list (string * string)) (n v : string) (keys : list string) :
  NoDup keys ->
  (Py.str_mem n keys = false -> List.filter (fun p => String.eqb (fst p) n) l = []) ->
  dict_append (code_points n) (code_points v) (map (entry l) keys) =
  map (entry (l ++ [(n, v)])) (if Py.str_mem n keys then keys else keys ++ [n]).
Proof.
  intros Hnd Hnew.
  assert (Hsame : forall k, k <> n -> entry (l ++ [(n, v)]) k = entry l k).
  { intros k Hk. unfold entry. rewrite List.filter_app. simpl.
    destruct (String.eqb_spec n k) as [->|_]; [done|]. by rewrite app_nil_r. }
  assert (Hthis : entry (l ++ [(n, v)]) n =
                  (code_points n,
                   map (fun p => code_points (snd p))
                     (List.filter (fun p => String.eqb (fst p) n) l) ++ [code_points v])).
  { unfold entry. rewrite List.filter_app. simpl. by rewrite String.eqb_refl, map_app. }
  induction keys as [|k keys IH].
  - simpl. rewrite Hthis, (Hnew eq_refl). done.
  - apply NoDup_cons in Hnd as [Hk Hnd].
    cbn [map dict_append]. unfold entry at 1. rewrite key_eqb_code_points.
    unfold Py.str_mem. cbn [existsb].
    destruct (String.eqb_spec n k) as [<-|Hne].
    + cbn [orb map]. rewrite Hthis. f_equal.
      apply map_ext_in. intros k Hin. symmetry. apply Hsame.
      intros ->. apply Hk. by apply list_elem_of_In.
    + cbn [orb]. fold (Py.str_mem n keys). fold (entry l k).
      rewrite IH; [|done|].
      * destruct (Py.str_mem n keys); cbn [map app]; by rewrite Hsame.
      * intros H. apply Hnew. unfold Py.str_mem. cbn [existsb].
        destruct (String.eqb_spec n k); [done|]. exact H.
Qed.

Lemma dict_grouped (l : list (string * string)) :
  fold_left add_pair (map code_pair l) [] = map (entry l) (first_seen (map fst l)).
Proof.
  induction l as [|[n v] l IH] using rev_ind; [done|].
  rewrite !map_app, fold_left_app, IH. cbn [map fold_left add_pair code_pair fst snd].
  rewrite first_seen_snoc. apply dict_append_entry; [apply first_seen_nodup|].
  rewrite first_seen_mem. intros Hn. clear IH.
  induction l as [|[n' v'] l IHl]; [done|].
  unfold Py.str_mem in Hn. cbn [map fst existsb] in Hn.
  apply orb_false_iff in Hn as [Hn Hl]. cbn [List.filter fst].
  rewrite String.eqb_sym, Hn. by apply IHl.
Qed.

(** *** [urlencode] of the whitelisted parameters *)

Lemma urlencode_values (n : string) (ps : list (string * string)) :
  Forall (fun p => fst p = n /\ Py.str_all token_char (snd p) = true) ps ->
  fold_right (fun v acc =>
                match quote_plus v, acc with
                | Some vq, Some l => Some ((n +:+ "=" +:+ vq) :: l)
                | _, _ => None
                end) (Some []) (map (fun p => code_points (snd p)) ps)
  = Some (map render_pair ps).
Proof.
  induction 1 as [|[n' v] ps [Hn Hv] _ IH]; [done|].
  cbn [map fold_right fst snd] in *. subst n'.
  by rewrite IH, (quote_plus_token v Hv).
Qed.

Lemma urlencode_entries (kept : list (string * string)) (keys : list string) :
  Forall (fun n => Py.str_all token_char n = true) keys ->
  Forall (fun p => Py.str_all token_char (snd p) = true) kept ->
  urlencode_items (map (entry kept) keys) =
  Some (map render_pair
          (flat_map (fun n => List.filter (fun p => String.eqb (fst p) n) kept) keys)).
Proof.
  intros Hkeys Hkept. induction Hkeys as [|n keys Hn _ IH]; [done|].
  cbn [map flat_map urlencode_items]. unfold entry at 1.
  rewrite (quote_plus_token n Hn), urlencode_values, IH.
  - by rewrite map_app.
  - apply List.Forall_forall. intros p [Hp1 Hp2]%filter_In. split.
    + by apply String.eqb_eq.
    + rewrite List.Forall_forall in Hkept. by apply Hkept.
Qed.

Lemma existsb_code_points (n : string) (allowed : list string) :
  existsb (key_eqb (code_points n)) (map code_points allowed) = Py.str_mem n allowed.
Proof.
  unfold Py.str_mem. induction allowed as [|a allowed IH]; [done|].
  cbn [map existsb]. by rewrite key_eqb_code_points, IH.
Qed.

(** The pairs of plain fields: those with a whitelisted name are pairs of
    tokens, and [parse_qsl] gives their code points. *)
Lemma plain_pairs (allowed : list string) (fields : list string) :
  forallb (plain_field allowed) fields = true ->
  Forall (fun p => Py.str_all token_char (fst p) = true /\
                   (Py.str_mem (fst p) allowed = true ->
                    Py.str_all token_char (snd p) = true))
         (omap parse_field fields).
Proof.
  induction fields as [|x fields IH]; [constructor|].
  cbn [forallb]. intros [Hx Hr]%andb_true_iff. specialize (IH Hr).
  cbn [omap list_omap]. fold (omap (M := list) parse_field fields).
  unfold parse_field at 1. unfold plain_field in Hx.
  destruct (Py.partition "=" x) as [name [value|]]; [|done].
  destruct (Py.is_empty value); [done|].
  constructor; [|done]. cbn [fst snd].
  apply andb_true_iff in Hx as [_ [Hname Hvalue]%andb_true_iff].
  split; [done|]. intros Hin. by rewrite Hin in Hvalue.
Qed.

Lemma kept_pairs (allowed : list string) (pairs : list (string * string)) :
  Forall (fun p => Py.str_all token_char (fst p) = true /\
                   (Py.str_mem (fst p) allowed = true ->
                    Py.str_all token_char (snd p) = true)) pairs ->
  List.filter (fun p => existsb (key_eqb (fst p)) (map code_points allowed))
              (map decode pairs)
  = map code_pair (List.filter (fun p => Py.str_mem (fst p) allowed) pairs).
Proof.
  induction 1 as [|[n v] pairs [Hn Hv] _ IH]; [done|].
  cbn [map List.filter fst snd] in *. unfold decode at 1. cbn [fst snd].
  rewrite (unquote_token n Hn), existsb_code_points, IH.
  destruct (Py.str_mem n allowed); [|done].
  cbn [map]. unfold code_pair at 2, decode. cbn [fst snd].
  by rewrite (unquote_token n Hn), (unquote_token v (Hv eq_refl)).
Qed.

(** The query that [normalize_url] puts together, for the fields of a
    link. *)
Lemma canonical_query (allowed : list string) (fields : list string) :
  forallb (plain_field allowed) fields = true ->
  urlencode
    (List.filter (on_key (fun k => existsb (key_eqb k) (map code_points allowed)))
       (parse_qs (match fields with
                  | [] => EmptyString
                  | nonempty => Py.join "&" nonempty
                  end)))
  = Some (Py.join "&" (map render_pair (survivors allowed fields))).
Proof.
  intros Hplain. destruct fields as [|x fields]; [done|].
  set (fs := x :: fields) in *.
  assert (Hamp : Forall (fun y => Py.has_char "&" y = false) fs).
  { apply List.Forall_forall. intros y Hy.
    rewrite forallb_forall in Hplain. specialize (Hplain y Hy).
    unfold plain_field in Hplain. apply andb_true_iff in Hplain as [Hc _].
    by apply (none_of_has_char "&#"). }
  pose proof (plain_pairs allowed fs Hplain) as Hpairs.
  change (parse_qs (Py.join "&" fs))
    with (fold_left add_pair (parse_qsl (Py.join "&" fs)) []).
  rewrite (parse_qsl_fields fs) by done.
  rewrite build_filter. cbn [List.filter].
  rewrite (kept_pairs allowed _ Hpairs), dict_grouped.
  unfold urlencode, survivors, grouped.
  set (kept := List.filter (fun p => Py.str_mem (fst p) allowed) (omap parse_field fs)).
  assert (Hkept : Forall (fun p => Py.str_all token_char (fst p) = true /\
                                   Py.str_all token_char (snd p) = true) kept).
  { apply List.Forall_forall. intros p [Hp Ha]%filter_In.
    rewrite List.Forall_forall in Hpairs. destruct (Hpairs p Hp) as [H1 H2]. auto. }
  rewrite urlencode_entries; [done| |].
  - apply List.Forall_forall. intros n Hn%str_mem_In.
    rewrite first_seen_mem in Hn. apply str_mem_In, in_map_iff in Hn as (p & <- & Hp).
    rewrite List.Forall_forall in Hkept. by destruct (Hkept p Hp).
  - eapply List.Forall_impl; [|exact Hkept]. by intros p [_ H].
Qed.

Lemma join_pairs_empty (pairs : list (string * string)) :
  Py.is_empty (Py.join "&" (map render_pair pairs)) =
  match map render_pair pairs with [] => true | _ => false end.
Proof.
  destruct pairs as [|[n v] pairs]; [done|].
  cbn [map]. unfold render_pair at 1. cbn [fst snd].
  destruct (map render_pair pairs) as [|y r]; cbn [Py.join].
  - destruct n; [done|by rewrite append_cons].
  - destruct n; [done|by rewrite append_cons].
Qed.

(** *** Putting the link together again *)

Lemma urlunparse_link (sch host path new_query : string) :
  Py.str_mem sch ["http"; "https"] = true ->
  Py.is_empty host = false ->
  Py.is_empty path || Py.startswith "/" path = true ->
  urlunparse sch host path EmptyString new_query EmptyString =
  sch +:+ "://" +:+ host +:+ path +:+
  (if Py.is_empty new_query then EmptyString else "?" +:+ new_query).
Proof.
  intros Hsch Hhost Hroot. unfold urlunparse, urlunsplit.
  rewrite Hhost. cbn [Py.is_empty negb orb].
  assert (Hslash : negb (Py.is_empty path) && negb (Py.startswith "/" path) = false).
  { destruct (Py.is_empty path); [done|]. cbn [orb] in Hroot. by rewrite Hroot. }
  rewrite Hslash.
  destruct (http_or_https sch Hsch) as [-> | ->]; cbn [Py.is_empty negb];
    destruct (Py.is_empty new_query); cbn [negb];
    rewrite ?append_assoc, ?append_nil_r; reflexivity.
Qed.

Lemma platform_host_nonempty (host : string) (p : platform) :
  platform_of host = Some p -> Py.is_empty host = false.
Proof. by destruct host. Qed.

Lemma str_all_join (p : ascii -> bool) (sep : string) (fields : list string) :
  Py.str_all p sep = true ->
  Forall (fun x => Py.str_all p x = true) fields ->
  Py.str_all p (Py.join sep fields) = true.
Proof.
  intros Hsep. induction 1 as [|x r Hx Hr IH]; [done|].
  destruct r as [|y r]; [done|].
  change (Py.join sep (x :: y :: r)) with (x +:+ sep +:+ Py.join sep (y :: r)).
  by rewrite !str_all_app, Hx, Hsep, IH.
Qed.

(** The text of a link, with its path and its query in one piece each. *)
Lemma render_parts (u : url_parts) :
  render u =
  url_scheme u +:+ "://" +:+ url_host u +:+
  (url_path u +:+ slashes (trailing_slashes u)) +:+
  query_part (match query_fields u with
              | [] => None
              | fields => Some (Py.join "&" fields)
              end) +:+
  fragment_part (url_fragment u).
Proof.
  unfold render. rewrite !append_assoc.
  by destruct (query_fields u), (url_fragment u).
Qed.

Lemma slashes_class (n : nat) : Py.str_all (none_of "?#;") (slashes n) = true.
Proof. induction n as [|n IH]; [done|]. simpl. exact IH. Qed.

Lemma survivors_none (fields : list string) : survivors [] fields = [].
Proof.
  unfold survivors. induction (omap parse_field fields) as [|p l IH]; [done|].
  exact IH.
Qed.

(** What [urlparse] makes of a well-formed link. *)
Lemma urlparse_render (check : string -> bool) (u : url_parts) :
  well_formed u = true ->
  Py.strip (render u) = render u /\
  Py.is_empty (render u) = false /\
  urlparse check (render u) =
  Some {| scheme := url_scheme u; netloc := url_host u;
          path := url_path u +:+ slashes (trailing_slashes u);
          params := EmptyString;
          query := match query_fields u with
                   | [] => EmptyString
                   | fields => Py.join "&" fields
                   end;
          fragment := default EmptyString (url_fragment u) |}.
Proof.
  intros Hwf. unfold well_formed in Hwf.
  repeat (apply andb_true_iff in Hwf as [Hwf ?]).
  rename Hwf into Hsch, H into Hfrag, H0 into Hfields, H1 into Hend, H2 into Hroot,
    H3 into Hpath, H4 into Hhost.
  destruct (platform_of (url_host u)) as [p|] eqn:Hp; [|done].
  set (q := match query_fields u with
            | [] => None
            | fields => Some (Py.join "&" fields)
            end).
  assert (Hq : match q with Some x => Py.str_all (none_of "#") x | None => true end = true).
  { unfold q. destruct (query_fields u) as [|x fields] eqn:E; [done|].
    rewrite <- E in *. apply str_all_join; [done|].
    apply List.Forall_forall. intros y Hy.
    rewrite forallb_forall in Hfields. specialize (Hfields y Hy).
    unfold plain_field in Hfields. apply andb_true_iff in Hfields as [Hc _].
    revert Hc. apply str_all_impl. intros c Hc. unfold none_of in *.
    apply andb_true_iff in Hc as [Hv Hd]. rewrite Hv. cbn [andb].
    apply negb_true_iff in Hd. apply negb_true_iff.
    cbn [Py.has_char] in *. apply orb_false_iff in Hd as [_ Hd]. exact Hd. }
  assert (Hf : match url_fragment u with Some x => Py.str_all visible x | None => true end
               = true) by exact Hfrag.
  assert (Hpath' : Py.str_all (none_of "?#;")
                     (url_path u +:+ slashes (trailing_slashes u)) = true).
  { by rewrite str_all_app, Hpath, slashes_class. }
  assert (Hroot' : Py.is_empty (url_path u +:+ slashes (trailing_slashes u)) ||
                   Py.startswith "/" (url_path u +:+ slashes (trailing_slashes u)) = true).
  { destruct (url_path u) as [|c r].
    - rewrite append_nil_l. by destruct (trailing_slashes u).
    - rewrite append_cons. exact Hroot. }
  assert (Hvis : Py.str_all visible (render u) = true).
  { rewrite render_parts, !str_all_app. fold q.
    rewrite (none_of_visible _ _ Hhost), (none_of_visible _ _ Hpath).
    rewrite (none_of_visible _ _ (slashes_class _)).
    assert (Hvq : Py.str_all visible (query_part q) = true).
    { destruct q as [x|]; [|done]. simpl. by apply (none_of_visible "#"). }
    assert (Hvf : Py.str_all visible (fragment_part (url_fragment u)) = true).
    { destruct (url_fragment u) as [x|]; [|done]. simpl. exact Hf. }
    rewrite Hvq, Hvf. by destruct (http_or_https _ Hsch) as [-> | ->]. }
  split; [by apply strip_visible|]. split.
  - rewrite render_parts. by destruct (http_or_https _ Hsch) as [-> | ->].
  - rewrite render_parts. fold q.
    rewrite (urlparse_link check _ _ _ q (url_fragment u) Hsch Hhost Hpath' Hroot' Hq Hf).
    unfold q. by destruct (query_fields u).
Qed.

(** What the [try] block returns for a well-formed link: the link put
    together again from its scheme, host and path without trailing
    slashes, and the query of its whitelisted parameters. *)
Lemma normalize_parsed_render (check : string -> bool) (u : url_parts) :
  well_formed u = true ->
  normalize_parsed check (render u) = Some (render (minimal u)).
Proof.
  intros Hwf. destruct (urlparse_render check u Hwf) as (_ & _ & Hparse).
  unfold well_formed in Hwf.
  repeat (apply andb_true_iff in Hwf as [Hwf ?]).
  rename Hwf into Hsch, H into Hfrag, H0 into Hfields, H1 into Hend, H2 into Hroot,
    H3 into Hpath, H4 into Hhost.
  destruct (platform_of (url_host u)) as [p|] eqn:Hp; [|done].
  pose proof (platform_host_nonempty _ _ Hp) as Hne.
  apply negb_true_iff in Hend.
  assert (Hquery :
            urlencode
              (List.filter
                 (on_key (fun k => existsb (key_eqb k) (map code_points (whitelist p))))
                 (parse_qs (match query_fields u with
                            | [] => EmptyString
                            | fields => Py.join "&" fields
                            end)))
            = Some (Py.join "&" (map render_pair
                                   (survivors (whitelist p) (query_fields u))))).
  { pose proof (canonical_query (whitelist p) (query_fields u) Hfields) as H.
    destruct (query_fields u); exact H. }
  assert (Hout : forall new_query,
            new_query = Py.join "&" (map render_pair
                                       (survivors (whitelist p) (query_fields u))) ->
            urlunparse (url_scheme u) (url_host u) (url_path u) EmptyString new_query
                       EmptyString = render (minimal u)).
  { intros new_query ->. rewrite (urlunparse_link _ _ _ _ Hsch Hne Hroot).
    unfold render, minimal. cbn [url_scheme url_host url_path trailing_slashes
                                 query_fields url_fragment slashes].
    rewrite Hp, join_pairs_empty, append_nil_l, append_nil_r.
    by destruct (map render_pair (survivors (whitelist p) (query_fields u))). }
  unfold normalize_parsed. rewrite Hparse.
  cbn [netloc scheme path params query].
  rewrite (rstrip_slashes _ _ Hend).
  unfold platform_of in Hp.
  destruct (Py.contains "instagram.com" (url_host u) ||
            Py.contains "facebook.com" (url_host u)) eqn:E1.
  { injection Hp as <-.
    rewrite (dict_get_filter img_index) by (by apply build_keys_nodup; constructor).
    change (List.filter (on_key (fun k' => existsb (key_eqb k') [img_index])) ?d)
      with (List.filter (on_key (fun k => existsb (key_eqb k)
                                            (map code_points (whitelist Instagram)))) d).
    rewrite Hquery. f_equal. by apply Hout. }
  destruct (Py.contains "tiktok.com" (url_host u)) eqn:E2.
  { injection Hp as <-. f_equal. apply Hout.
    by rewrite survivors_none. }
  destruct (Py.contains "youtube.com" (url_host u) ||
            Py.contains "youtu.be" (url_host u)) eqn:E3.
  { injection Hp as <-.
    rewrite (filter_as_bool _
               (on_key (fun k => existsb (key_eqb k)
                                   (map code_points (whitelist YouTube)))))
      by (intros [k vs]; apply Is_true_true).
    rewrite Hquery. f_equal. by apply Hout. }
  destruct (Py.contains "soundcloud.com" (url_host u)) eqn:E4; [|done].
  injection Hp as <-. f_equal. apply Hout.
  by rewrite survivors_none.
Qed.

Lemma survivors_kept (allowed fields : list string) :
  survivors allowed (kept_fields allowed fields) = survivors allowed fields.
Proof.
  assert (Hc : forall y L, omap parse_field (y :: L)
                           = match parse_field y with
                             | Some z => z :: omap parse_field L
                             | None => omap parse_field L
                             end) by done.
  unfold survivors. f_equal. induction fields as [|x l IH]; [done|].
  unfold kept_fields in *. cbn [List.filter]. unfold field_name at 1.
  destruct (Py.partition "=" x) as [name value] eqn:E. cbn [fst].
  destruct (Py.str_mem name allowed) eqn:Hm.
  - rewrite !Hc. destruct (parse_field x) as [pair|]; [|exact IH].
    cbn [List.filter]. destruct (Py.str_mem (fst pair) allowed); [by f_equal|exact IH].
  - rewrite Hc, IH. unfold parse_field at 2. rewrite E.
    destruct value as [v|]; [|done]. destruct (Py.is_empty v); [done|].
    cbn [List.filter fst]. by rewrite Hm.
Qed.

Lemma minimal_variant (u v : url_parts) (p : platform) :
  platform_of (url_host u) = Some p -> variant_of u v -> minimal v = minimal u.
Proof.
  intros Hp (Hs & Hh & Hpath & Hq). unfold minimal.
  rewrite Hs, Hh, Hpath, Hp.
  by rewrite <- (survivors_kept _ (query_fields v)), (Hq p Hp), survivors_kept.
Qed.

(** C1, amended.  Take a link written as scheme, [://], host, path,
    trailing slashes, then a query ([?] and fields joined by [&]) and a
    fragment ([#] and its text) if it has them, such that
    - the scheme is [http] or [https];
    - the host is of visible ASCII characters (codes 33 to 126) other
      than [/ ? # [ ]] and holds the domain of a supported platform as
      the code tests for it, in lower case: [instagram.com] or
      [facebook.com], [tiktok.com], [youtube.com] or [youtu.be],
      [soundcloud.com];
    - the path is of visible ASCII characters other than [? # ;], is
      empty or starts with [/], and does not end in [/] (its trailing
      slashes are counted apart);
    - every field of the query is of visible ASCII characters other than
      [& #], its name (what precedes the first [=]) is of letters,
      digits and [_ . - ~], and so is its value if the name is on the
      platform's whitelist;
    - the fragment is of visible ASCII characters.
    [normalize_url] maps such a link to its minimal form: the same
    scheme, host and path, without trailing slashes and without the
    fragment, and of the query the whitelisted parameters that have a
    value only ([img_index] for Instagram and Facebook, [v] and [t] for
    YouTube, none for TikTok and SoundCloud), as [name=value] joined by
    [&], grouped by name in the order in which the names first appear.
    So two such links with the same minimal form get the same canonical
    string, and so do two such links that differ only in trailing
    slashes, the fragment and the fields of the query whose name is not
    whitelisted. *)
Theorem normalize_url_minimal_form (check : string -> bool) (u : url_parts) :
  well_formed u = true ->
  normalize_url check (render u) = render (minimal u) /\
  (forall v, well_formed v = true -> minimal v = minimal u ->
             normalize_url check (render v) = normalize_url check (render u)) /\
  (forall v, well_formed v = true -> variant_of u v ->
             normalize_url check (render v) = normalize_url check (render u)).
Proof.
  assert (Hform : forall w, well_formed w = true ->
                            normalize_url check (render w) = render (minimal w)).
  { intros w Hwf. destruct (urlparse_render check w Hwf) as (Hstrip & Hne & _).
    unfold normalize_url. rewrite Hne, Hstrip.
    by rewrite (normalize_parsed_render check w Hwf). }
  intros Hu. split; [by apply Hform|]. split.
  - intros v Hv Hsame. by rewrite (Hform v Hv), (Hform u Hu), Hsame.
  - intros v Hv Hvar. rewrite (Hform v Hv), (Hform u Hu). f_equal.
    destruct (platform_of (url_host u)) as [p|] eqn:Hp.
    + by apply (minimal_variant u v p).
    + unfold well_formed in Hu. rewrite Hp in Hu.
      by rewrite !andb_false_r in Hu.
Qed.

Lemma normalize_url_minimal_form_witness :
  normalize_url Demo.check_bracketed_netloc
    "https://www.youtube.com/watch/?si=Ab%3D=&v=dQw4w9WgXcQ&feature=share&t=42#top"
  = "https://www.youtube.com/watch?v=dQw4w9WgXcQ&t=42".
Proof.
  exact (proj1 (normalize_url_minimal_form Demo.check_bracketed_netloc
                  Demo.youtube_link eq_refl)).
Defined.

(** C2, on a TikTok link whose last path segment ends in a semicolon
    before the trailing slash: the first pass removes the slash, and only
    then does [urlparse] split the (empty) parameters off the last
    segment, so the second pass removes the semicolon too. *)
Theorem normalize_url_twice (check : string -> bool) :
  normalize_url check "https://tiktok.com/a;/" = "https://tiktok.com/a;" /\
  normalize_url check (normalize_url check "https://tiktok.com/a;/") = "https://tiktok.com/a".
Proof. split; reflexivity. Qed.

(** C1, refuted as stated: a TikTok link, the same link with capitals in
    its host, and the same link with a trailing slash.  The trailing
    slash is removed; the host keeps its capitals, and since the branch
    for TikTok tests for the lower-case domain the link with capitals is
    returned as it came. *)
Lemma normalize_url_keeps_host_case :
  normalize_url Demo.check_bracketed_netloc "https://tiktok.com/@u/video/1"
    = "https://tiktok.com/@u/video/1" /\
  normalize_url Demo.check_bracketed_netloc "https://tiktok.com/@u/video/1/"
    = "https://tiktok.com/@u/video/1" /\
  normalize_url Demo.check_bracketed_netloc "https://TikTok.com/@u/video/1"
    = "https://TikTok.com/@u/video/1" /\
  normalize_url Demo.check_bracketed_netloc "https://TikTok.com/@u/video/1/"
    = "https://TikTok.com/@u/video/1/" /\
  String.eqb (normalize_url Demo.check_bracketed_netloc "https://TikTok.com/@u/video/1/")
             (normalize_url Demo.check_bracketed_netloc "https://tiktok.com/@u/video/1")
    = false.
Proof. repeat split; reflexivity. Qed.

End CanonFacts.

(** ** The file cache, beyond the round trip *)

Section CacheFacts.

Import Json Database.

Lemma find_app_none {A} (p : A -> bool) (l : list A) (x : A) :
  p x = false -> List.find p (l ++ [x]) = List.find p l.
Proof.
  intros Hx. induction l as [|y l IH]; simpl.
  - by rewrite Hx.
  - by destruct (p y).
Qed.

Lemma find_none_all {A} (p : A -> bool) (l : list A) :
  List.find p l = None -> Forall (fun x => p x = false) l.
Proof.
  intros H. apply List.Forall_forall. intros x Hx.
  by apply (List.find_none p l H).
Qed.

Lemma max_ids_bound (seq0 : Z) (rows : list cache_row) :
  seq0 <= fold_right Z.max seq0 (map id rows) /\
  Forall (fun r => id r <= fold_right Z.max seq0 (map id rows)) rows.
Proof.
  induction rows as [|r rows [IH1 IH2]]; simpl.
  - split; [lia|constructor].
  - split; [lia|]. constructor; [lia|].
    eapply List.Forall_impl; [|exact IH2]. simpl. intros; lia.
Qed.

Lemma update_by_id_urls (cid : Z) (fid mt : string) (uid now : Z) (rows : list cache_row) :
  map url (update_by_id cid fid mt uid now rows) = map url rows /\
  map id (update_by_id cid fid mt uid now rows) = map id rows.
Proof.
  unfold update_by_id. rewrite !map_map. split; apply map_ext; intros r;
    by destruct (id r =? cid).
Qed.

(** The schema's constraints survive a save: the [INSERT] happens only
    for a url the table does not hold, under an id above all others. *)
Lemma save_keeps_schema (db : database) (u : string) (file_ids : file_ids_arg)
    (mt : string) (uid now : Z) :
  schema_ok db -> schema_ok (snd (save_file_to_cache db u file_ids mt uid now)).
Proof.
  intros (Hu & Hi & Hs). unfold save_file_to_cache.
  destruct (match file_ids with
            | IdList ids => (dumps ids, if (1 <? length ids)%nat then "carousel" else mt)
            | IdOther text => (text, mt)
            end) as [text mt'].
  destruct (select_by_url db u) as [old|] eqn:Hsel; simpl.
  - destruct (update_by_id_urls (id old) text mt' uid now (file_cache db)) as [E1 E2].
    unfold schema_ok. simpl. rewrite E1, E2. split; [done|]. split; [done|].
    unfold update_by_id. rewrite List.Forall_map.
    eapply List.Forall_impl; [|exact Hs]. intros r Hr. simpl in *.
    by destruct (id r =? id old).
  - unfold schema_ok. simpl. rewrite !map_app. simpl.
    destruct (max_ids_bound (file_cache_seq db) (file_cache db)) as [B1 B2].
    split; [|split].
    + apply NoDup_app. split; [done|]. split; [|apply NoDup_singleton].
      intros x Hx ->%list_elem_of_singleton.
      apply list_elem_of_In, in_map_iff in Hx as (r & Hr & Hin).
      apply find_none_all in Hsel. rewrite List.Forall_forall in Hsel.
      specialize (Hsel r Hin). simpl in Hsel. rewrite Hr, String.eqb_refl in Hsel. done.
    + apply NoDup_app. split; [done|]. split; [|apply NoDup_singleton].
      intros x Hx ->%list_elem_of_singleton.
      apply list_elem_of_In, in_map_iff in Hx as (r & Hr & Hin).
      rewrite List.Forall_forall in B2. specialize (B2 r Hin). simpl in B2.
      unfold next_id in Hr. lia.
    + apply List.Forall_app. split.
      * eapply List.Forall_impl; [|exact B2]. unfold next_id. simpl. intros; lia.
      * constructor; [simpl; lia|constructor].
Qed.

(** With unique ids, the row a url leads to is the row its id leads to. *)
Lemma select_by_id_of_url (db : database) (u : string) (r : cache_row) :
  NoDup (map id (file_cache db)) ->
  select_by_url db u = Some r -> select_by_id db (id r) = Some r.
Proof.
  unfold select_by_url, select_by_id. intros Hi Hsel.
  apply List.find_some in Hsel as [Hin _].
  induction (file_cache db) as [|x l IH]; [done|].
  simpl in *. apply NoDup_cons in Hi as [Hx Hl].
  destruct (Z.eqb_spec (id x) (id r)) as [E|E].
  - destruct Hin as [->|Hin]; [done|].
    exfalso. apply Hx. rewrite E. apply list_elem_of_In, in_map. done.
  - destruct Hin as [->|Hin]; [done|]. by apply IH.
Qed.

Lemma saves_keep_schema (reqs : list save_request) (db : database) :
  schema_ok db -> schema_ok (saves reqs db).
Proof.
  revert db. induction reqs as [|q reqs IH]; intros db Hdb; [done|].
  simpl. apply IH. by apply save_keeps_schema.
Qed.

Lemma schema_ok_empty : schema_ok empty.
Proof. repeat split; constructor. Qed.

(** X1.  Whatever is saved, in whatever order, the cache keeps one row
    per url and one row per id, and no id exceeds the AUTOINCREMENT
    sequence: [save_file_to_cache] inserts only for a url it did not find
    and so never runs into the UNIQUE constraint. *)
Theorem file_cache_keeps_schema (reqs : list save_request) (db : database) :
  schema_ok db ->
  let db' := saves reqs db in
  NoDup (map url (file_cache db')) /\
  NoDup (map id (file_cache db')) /\
  Forall (fun r => id r <= file_cache_seq db') (file_cache db') /\
  forall u, (exists r, select_by_url db u = Some r) \/ In u (map req_url reqs) <->
            exists r, select_by_url db' u = Some r.
Proof.
  intros Hdb db'. destruct (saves_keep_schema reqs db Hdb) as (H1 & H2 & H3).
  split; [done|]. split; [done|]. split; [done|].
  subst db'. clear H1 H2 H3 Hdb. revert db.
  induction reqs as [|q reqs IH]; intros db u; simpl.
  - split; [by intros [H|[]]|by left].
  - rewrite <- IH. clear IH.
    destruct (save_file_to_cache_row db (req_url q) (req_file_ids q) (req_media_type q)
                (req_user_id q) (req_time q)) as (cid & db1 & Hsave & Hrow & Hold).
    assert (Hdb1 : save db q = db1) by (unfold save; by rewrite Hsave).
    rewrite Hdb1.
    destruct (String.eqb_spec (req_url q) u) as [<-|Hne].
    + split; [intros _; left; eauto|intros _; right; by left].
    + assert (Hsame : (exists r, select_by_url db1 u = Some r) <->
                      (exists r, select_by_url db u = Some r)).
      { unfold save_file_to_cache in Hsave.
        destruct (match req_file_ids q with
                  | IdList ids => (dumps ids,
                                   if (1 <? length ids)%nat then "carousel"
                                   else req_media_type q)
                  | IdOther text => (text, req_media_type q)
                  end) as [text mt'].
        unfold select_by_url in *.
        destruct (List.find (fun r => String.eqb (url r) (req_url q)) (file_cache db))
          as [old|] eqn:Hsel; injection Hsave as _ <-; simpl.
        - unfold update_by_id. rewrite find_map_same.
          + destruct (List.find (fun r => String.eqb (url r) u) (file_cache db));
              simpl; split; intros [r Hr]; eauto; done.
          + intros r. by destruct (id r =? id old).
        - rewrite find_app_none; [done|]. simpl. by apply String.eqb_neq. }
      rewrite Hsame. split.
      * intros [H|[H|H]]; [by left|done|by right].
      * intros [H|H]; [by left|right; by right].
Qed.

Lemma file_cache_keeps_schema_witness :
  NoDup (map url (file_cache (saves Samples.three_saves empty))) /\
  NoDup (map id (file_cache (saves Samples.three_saves empty))) /\
  Forall (fun r => id r <= file_cache_seq (saves Samples.three_saves empty))
         (file_cache (saves Samples.three_saves empty)) /\
  forall u, (exists r, select_by_url empty u = Some r) \/
            In u (map req_url Samples.three_saves) <->
            exists r, select_by_url (saves Samples.three_saves empty) u = Some r.
Proof.
  exact (file_cache_keeps_schema Samples.three_saves empty schema_ok_empty).
Defined.

(** X2.  The id [save_file_to_cache] returns is the id
    [get_cache_id_by_url] finds for the url, and [get_file_by_id] of that
    id gives what [get_cached_file] gives for the url. *)
Theorem cache_id_leads_back (db db' : database) (u : string) (file_ids : file_ids_arg)
    (mt : string) (uid now cache_id : Z) :
  schema_ok db ->
  save_file_to_cache db u file_ids mt uid now = (Some cache_id, db') ->
  get_cache_id_by_url db' u = Some cache_id /\
  get_file_by_id db' cache_id = get_cached_file db' u /\
  exists found, get_cached_file db' u = Some found.
Proof.
  intros Hdb Hsave.
  pose proof (save_keeps_schema db u file_ids mt uid now Hdb) as (_ & Hids & _).
  destruct (save_file_to_cache_row db u file_ids mt uid now)
    as (cid & db1 & Hsave1 & Hrow & _).
  rewrite Hsave in Hsave1. injection Hsave1 as <- <-.
  rewrite Hsave in Hids. simpl in Hids.
  pose proof (select_by_id_of_url db' u _ Hids Hrow) as Hbyid. simpl in Hbyid.
  unfold get_cache_id_by_url, get_file_by_id, get_cached_file.
  rewrite Hrow, Hbyid. simpl. split; [done|]. split; [done|].
  destruct (loads _) as [[]|]; eauto.
Qed.

Lemma cache_id_leads_back_witness :
  get_cache_id_by_url (save empty Samples.save_reel) (req_url Samples.save_reel) = Some 1 /\
  get_file_by_id (save empty Samples.save_reel) 1
    = get_cached_file (save empty Samples.save_reel) (req_url Samples.save_reel) /\
  exists found,
    get_cached_file (save empty Samples.save_reel) (req_url Samples.save_reel) = Some found.
Proof.
  apply (cache_id_leads_back empty _ _ (req_file_ids Samples.save_reel)
           (req_media_type Samples.save_reel) (req_user_id Samples.save_reel)
           (req_time Samples.save_reel) 1 schema_ok_empty).
  reflexivity.
Defined.

(** A save changes the row of its own url only. *)
Lemma save_frame (db : database) (u u2 : string) (file_ids : file_ids_arg)
    (mt : string) (uid now : Z) :
  schema_ok db -> u2 <> u ->
  select_by_url (snd (save_file_to_cache db u file_ids mt uid now)) u2 = select_by_url db u2.
Proof.
  intros (_ & Hids & _) Hne. unfold save_file_to_cache.
  destruct (match file_ids with
            | IdList ids => (dumps ids, if (1 <? length ids)%nat then "carousel" else mt)
            | IdOther text => (text, mt)
            end) as [text mt'].
  unfold select_by_url in *.
  destruct (List.find (fun r => String.eqb (url r) u) (file_cache db)) as [old|] eqn:Hsel;
    simpl.
  - unfold update_by_id. rewrite find_map_same by (intros r; by destruct (id r =? id old)).
    destruct (List.find (fun r => String.eqb (url r) u2) (file_cache db)) as [r|] eqn:Hr;
      [|done].
    simpl. f_equal. destruct (Z.eqb_spec (id r) (id old)) as [E|E]; [|done].
    exfalso. apply List.find_some in Hsel as [Hin1 Hu1], Hr as [Hin2 Hu2].
    apply String.eqb_eq in Hu1, Hu2.
    assert (r = old); [|congruence].
    clear -Hids Hin1 Hin2 E. induction (file_cache db) as [|x l IH]; [done|].
    simpl in Hids. apply NoDup_cons in Hids as [Hx Hl].
    destruct Hin1 as [->|Hin1], Hin2 as [->|Hin2]; try done.
    + exfalso. apply Hx. rewrite <- E. by apply list_elem_of_In, in_map.
    + exfalso. apply Hx. rewrite E. by apply list_elem_of_In, in_map.
    + by apply IH.
  - apply find_app_none. simpl. apply String.eqb_neq. congruence.
Qed.

(** X3.  Saving under one url leaves what the cache returns for every
    other url as it was. *)
Theorem save_leaves_other_urls (db : database) (u u2 : string) (file_ids : file_ids_arg)
    (mt : string) (uid now : Z) :
  schema_ok db -> u2 <> u ->
  let db' := snd (save_file_to_cache db u file_ids mt uid now) in
  get_cached_file db' u2 = get_cached_file db u2 /\
  get_cache_id_by_url db' u2 = get_cache_id_by_url db u2.
Proof.
  intros Hdb Hne db'. unfold get_cached_file, get_cache_id_by_url. subst db'.
  by rewrite (save_frame db u u2 file_ids mt uid now Hdb Hne).
Qed.

Lemma save_leaves_other_urls_witness :
  get_cached_file (save (save empty Samples.save_reel) Samples.save_carousel)
                  (req_url Samples.save_reel)
    = get_cached_file (save empty Samples.save_reel) (req_url Samples.save_reel) /\
  get_cache_id_by_url (save (save empty Samples.save_reel) Samples.save_carousel)
                      (req_url Samples.save_reel)
    = get_cache_id_by_url (save empty Samples.save_reel) (req_url Samples.save_reel).
Proof.
  apply (save_leaves_other_urls (save empty Samples.save_reel)
           (req_url Samples.save_carousel) (req_url Samples.save_reel)).
  - apply save_keeps_schema, schema_ok_empty.
  - discriminate.
Defined.

(** X4.  Saving twice under one url: the second save returns the id of
    the first, adds no row, and the cache returns the ids of the second
    save. *)
Theorem second_save_wins (db : database) (u : string) (ids1 ids2 : list string)
    (mt1 mt2 : string) (uid1 uid2 now1 now2 : Z) :
  let '(id1, db1) := save_file_to_cache db u (IdList ids1) mt1 uid1 now1 in
  let '(id2, db2) := save_file_to_cache db1 u (IdList ids2) mt2 uid2 now2 in
  id2 = id1 /\
  length (file_cache db2) = length (file_cache db1) /\
  get_cached_file db2 u = Some (map JStr ids2, coerce mt2 (length ids2)).
Proof.
  destruct (save_file_to_cache_row db u (IdList ids1) mt1 uid1 now1)
    as (cid1 & db1 & Hsave1 & Hrow1 & _).
  rewrite Hsave1.
  destruct (save_file_to_cache_row db1 u (IdList ids2) mt2 uid2 now2)
    as (cid2 & db2 & Hsave2 & Hrow2 & Hold).
  rewrite Hsave2. rewrite Hrow1 in Hold. simpl in Hold. destruct Hold as [-> Hlen].
  split; [done|]. split; [done|].
  unfold get_cached_file. rewrite Hrow2. simpl. by rewrite loads_dumps.
Qed.

Lemma loads_plain_letter (c : ascii) (r : string) :
  plain_letter c = true -> loads (String c r) = None.
Proof.
  intros Hc.
  destruct c as [[|] [|] [|] [|] [|] [|] [|] [|]];
    vm_compute in Hc; try discriminate Hc; reflexivity.
Qed.

(** X5.  A row whose [file_id] text starts with a letter that begins no
    JSON literal (as the ids Telegram gives out do) is read as one raw
    id: saved through [str(file_ids)], it comes back as the one-element
    list of that text with the media type as given. *)
Theorem raw_file_id_round_trip (db : database) (u : string) (c : ascii) (rest mt : string)
    (uid now : Z) :
  plain_letter c = true ->
  get_cached_file (snd (save_file_to_cache db u (IdOther (String c rest)) mt uid now)) u
  = Some ([JStr (String c rest)], mt).
Proof.
  intros Hc.
  destruct (save_file_to_cache_row db u (IdOther (String c rest)) mt uid now)
    as (cid & db1 & Hsave & Hrow & _).
  rewrite Hsave. simpl. unfold get_cached_file. rewrite Hrow. simpl file_id.
  by rewrite (loads_plain_letter c rest Hc).
Qed.

Lemma raw_file_id_round_trip_witness :
  get_cached_file
    (snd (save_file_to_cache empty "https://tiktok.com/a" (IdOther "BAACAgIAAxkBAAI") "video"
            7 0))
    "https://tiktok.com/a"
  = Some ([JStr "BAACAgIAAxkBAAI"], "video").
Proof.
  apply (raw_file_id_round_trip empty "https://tiktok.com/a" "B" "AACAgIAAxkBAAI" "video" 7 0).
  reflexivity.
Defined.

End CacheFacts.

(** ** The transcriptions *)

Section TranscriptionFacts.

Import Transcriptions.

Lemma find_app {A} (p : A -> bool) (l1 l2 : list A) :
  List.find p (l1 ++ l2) =
  match List.find p l1 with
  | Some x => Some x
  | None => List.find p l2
  end.
Proof.
  induction l1 as [|x l1 IH]; [done|]. simpl. by destruct (p x).
Qed.

Lemma find_filter {A} (p q : A -> bool) (l : list A) :
  (forall x, p x = true -> q x = true) ->
  List.find p (List.filter q l) = List.find p l.
Proof.
  intros Hpq. induction l as [|x l IH]; [done|]. simpl.
  destruct (q x) eqn:Hq; simpl.
  - by rewrite IH.
  - destruct (p x) eqn:Hp; [|done]. by rewrite (Hpq x Hp) in Hq.
Qed.

Lemma find_filter_none {A} (p q : A -> bool) (l : list A) :
  (forall x, p x = true -> q x = false) ->
  List.find p (List.filter q l) = None.
Proof.
  intros Hpq. induction l as [|x l IH]; [done|]. simpl.
  destruct (q x) eqn:Hq; simpl; [|done].
  destruct (p x) eqn:Hp; [|done]. by rewrite (Hpq x Hp) in Hq.
Qed.

(** X6.  After [save_transcription(f, u, text)], [get_transcription]
    returns [text] for [f] when asked without a user, with user [u], or
    with user 0 (which [if user_id:] reads as no user), and [None] when
    asked with any other user: a transcription saved again by another
    user is lost to the first.  The transcriptions of other files are as
    before. *)
Theorem save_then_get_transcription (t : table) (f : string) (u : Z) (text : string)
    (now : Z) :
  let t' := snd (save_transcription t f u text now) in
  get_transcription t' f None = Some text /\
  get_transcription t' f (Some u) = Some text /\
  get_transcription t' f (Some 0) = Some text /\
  (forall v, v <> 0 -> v <> u -> get_transcription t' f (Some v) = None) /\
  (forall f2 user, f2 <> f -> get_transcription t' f2 user = get_transcription t f2 user).
Proof.
  intros t'. subst t'. unfold save_transcription, get_transcription. simpl.
  assert (Hkept : forall user,
            List.find (matches f user)
              (List.filter (fun r => negb (String.eqb (file_unique_id r) f)) (rows t)) = None).
  { intros user. apply find_filter_none. intros r Hr. unfold matches in Hr.
    apply andb_true_iff in Hr as [Hr _]. by rewrite Hr. }
  repeat split.
  - rewrite find_app, Hkept. simpl. unfold matches. simpl. by rewrite String.eqb_refl.
  - rewrite find_app, Hkept. simpl. unfold matches, user_filter. simpl.
    rewrite String.eqb_refl. destruct (u =? 0); [done|]. by rewrite Z.eqb_refl.
  - rewrite find_app, Hkept. simpl. unfold matches. simpl. by rewrite String.eqb_refl.
  - intros v Hv Hvu. rewrite find_app, Hkept. simpl. unfold matches, user_filter. simpl.
    rewrite String.eqb_refl.
    destruct (Z.eqb_spec v 0); [done|]. simpl.
    destruct (Z.eqb_spec u v); [congruence|done].
  - intros f2 user Hne. rewrite find_app.
    rewrite find_filter.
    + destruct (List.find (matches f2 user) (rows t)); [done|].
      simpl. unfold matches. simpl.
      destruct (String.eqb_spec f f2); [congruence|done].
    + intros r Hr. unfold matches in Hr. apply andb_true_iff in Hr as [Hr _].
      apply String.eqb_eq in Hr. rewrite Hr.
      destruct (String.eqb_spec f2 f); [congruence|done].
Qed.

(** X7.  [delete_transcription(f, user)] removes what
    [get_transcription(f, user)] would find, and nothing that a
    different, non-zero user or a different file would find. *)
Theorem delete_then_get_transcription (t : table) (f : string) (user : option Z) :
  let t' := snd (delete_transcription t f user) in
  get_transcription t' f user = None /\
  (forall v w, user = Some v -> v <> 0 -> w <> 0 -> w <> v ->
     get_transcription t' f (Some w) = get_transcription t f (Some w)) /\
  (forall f2 user2, f2 <> f -> get_transcription t' f2 user2 = get_transcription t f2 user2).
Proof.
  intros t'. subst t'. unfold delete_transcription, get_transcription. simpl.
  repeat split.
  - rewrite find_filter_none; [done|]. intros r Hr. by rewrite Hr.
  - intros v w -> Hv Hw Hwv. rewrite find_filter; [done|].
    intros r Hr. unfold matches, user_filter in *.
    apply andb_true_iff in Hr as [Hf Hr]. rewrite Hf. simpl.
    destruct (Z.eqb_spec w 0); [done|]. destruct (Z.eqb_spec v 0); [done|].
    apply Z.eqb_eq in Hr. rewrite Hr.
    destruct (Z.eqb_spec w v); [congruence|done].
  - intros f2 user2 Hne. rewrite find_filter; [done|].
    intros r Hr. unfold matches in *. apply andb_true_iff in Hr as [Hf _].
    apply String.eqb_eq in Hf. rewrite Hf.
    destruct (String.eqb_spec f2 f); [congruence|done].
Qed.

Lemma NoDup_map_filter {A B} (g : A -> B) (q : A -> bool) (l : list A) :
  NoDup (map g l) -> NoDup (map g (List.filter q l)).
Proof.
  induction l as [|x l IH]; [done|]. simpl. intros [Hx Hl]%NoDup_cons.
  destruct (q x); simpl; [|by apply IH].
  apply NoDup_cons. split; [|by apply IH].
  intros Hin. apply Hx. apply list_elem_of_In in Hin. apply list_elem_of_In.
  apply in_map_iff in Hin as (y & Hy & Hin). apply in_map_iff. exists y.
  split; [done|]. by apply filter_In in Hin as [? _].
Qed.

(** X8.  The table never holds two transcriptions of one file:
    [INSERT OR REPLACE] and the deletes keep [file_unique_id] unique. *)
Theorem transcriptions_keep_schema (t : table) :
  schema_ok t ->
  (forall f u text now, schema_ok (snd (save_transcription t f u text now))) /\
  (forall f user, schema_ok (snd (delete_transcription t f user))).
Proof.
  intros Ht. unfold schema_ok in *. split.
  - intros f u text now. simpl. rewrite map_app. simpl.
    apply NoDup_app. split; [by apply NoDup_map_filter|].
    split; [|apply NoDup_singleton].
    intros x Hx ->%list_elem_of_singleton.
    apply list_elem_of_In, in_map_iff in Hx as (r & Hr & Hin).
    apply filter_In in Hin as [_ Hq]. rewrite Hr, String.eqb_refl in Hq. done.
  - intros f user. simpl. by apply NoDup_map_filter.
Qed.

Lemma transcriptions_keep_schema_witness :
  (forall f u text now,
     schema_ok (snd (save_transcription Samples.two_transcriptions f u text now))) /\
  (forall f user, schema_ok (snd (delete_transcription Samples.two_transcriptions f user))).
Proof.
  apply (transcriptions_keep_schema Samples.two_transcriptions).
  unfold schema_ok. simpl. apply NoDup_cons. split; [|apply NoDup_singleton].
  intros H%list_elem_of_singleton. discriminate H.
Defined.

End TranscriptionFacts.

(** ** The downloaded files *)

Section DownloadedFacts.

Import DownloadedFiles.

Lemma find_first {A} (p q : A -> bool) (g : A -> A) (l : list A) (x : A) :
  List.find p l = Some x ->
  (forall y, p (g y) = p y) ->
  (forall y, q (g y) = true -> p y = true) ->
  q (g x) = true ->
  List.find q (map g l) = Some (g x).
Proof.
  intros Hfind Hp Hq Hx. induction l as [|y l IH]; [done|].
  simpl in *. destruct (p y) eqn:Hy.
  - injection Hfind as ->. by rewrite Hx.
  - destruct (q (g y)) eqn:Hqy; [|by apply IH].
    by rewrite (Hq y Hqy) in Hy.
Qed.

(** X9.  A file saved with [save_downloaded_file] at [now] for
    [expires_hours] hours is what [get_downloaded_file] returns for its
    url at every time before [now + expires_hours], as long as the file
    is on disk; the table is left as it is. *)
Theorem save_then_get_downloaded_file (t : table) (fs fs' : filesystem) (u path : string)
    (size : Z) (ftype mtype dir : string) (cid : option Z) (expires_hours now now' : Z) :
  exists_ fs path = true ->
  exists_ fs' path = true ->
  now' < now + hours expires_hours ->
  exists file_id t',
    save_downloaded_file t fs u path size ftype mtype dir cid expires_hours now
      = (Some file_id, t') /\
    get_downloaded_file t' fs' u now'
      = (Some {| info_file_path := path; info_file_size := size; info_file_type := ftype;
                 info_media_type := mtype; info_task_dir := dir; info_cache_id := cid |},
         t').
Proof.
  intros Hfs Hfs' Hnow. unfold save_downloaded_file. rewrite Hfs. simpl.
  destruct (List.find (fun r => String.eqb (url r) u) (rows t)) as [old|] eqn:Hold.
  - eexists _, _. split; [reflexivity|].
    unfold get_downloaded_file. cbn [rows].
    set (g := fun r : row =>
                if id r =? id old
                then {| id := id r; url := url r; file_path := path; file_size := size;
                        file_type := ftype; media_type := mtype; task_dir := dir;
                        downloaded_at := now; expires_at := now + hours expires_hours;
                        cache_id := cid |}
                else r).
    assert (Hg : g old = {| id := id old; url := url old; file_path := path;
                            file_size := size; file_type := ftype; media_type := mtype;
                            task_dir := dir; downloaded_at := now;
                            expires_at := now + hours expires_hours; cache_id := cid |}).
    { unfold g. by rewrite Z.eqb_refl. }
    rewrite (find_first (fun r => String.eqb (url r) u)
               (fun r => String.eqb (url r) u && (now' <? expires_at r)) g (rows t) old Hold).
    + rewrite Hg. simpl. by rewrite Hfs'.
    + intros y. unfold g. by destruct (id y =? id old).
    + intros y Hy. apply andb_true_iff in Hy as [Hy _].
      unfold g in Hy. by destruct (id y =? id old).
    + rewrite Hg. simpl.
      apply List.find_some in Hold as [_ Hu]. rewrite Hu. simpl. by apply Z.ltb_lt.
  - eexists _, _. split; [reflexivity|].
    unfold get_downloaded_file. cbn [rows]. rewrite find_app.
    assert (Hnone : List.find (fun r => String.eqb (url r) u && (now' <? expires_at r))
                      (rows t) = None).
    { apply find_none_all in Hold. clear -Hold.
      induction Hold as [|r l Hr _ IH]; [done|]. simpl. simpl in Hr. by rewrite Hr. }
    assert (Hlt : (now' <? now + hours expires_hours) = true) by (by apply Z.ltb_lt).
    rewrite Hnone. cbn [List.find url expires_at]. rewrite String.eqb_refl, Hlt.
    cbn [andb file_path]. by rewrite Hfs'.
Qed.

Lemma save_then_get_downloaded_file_witness :
  exists file_id t',
    save_downloaded_file empty Samples.disk "https://tiktok.com/a" "downloads/t1/a.mp4"
      1000 ".mp4" "video" "downloads/t1" (Some 1) 24 0 = (Some file_id, t') /\
    get_downloaded_file t' Samples.disk "https://tiktok.com/a" 86399999999
      = (Some {| info_file_path := "downloads/t1/a.mp4"; info_file_size := 1000;
                 info_file_type := ".mp4"; info_media_type := "video";
                 info_task_dir := "downloads/t1"; info_cache_id := Some 1 |},
         t').
Proof.
  apply (save_then_get_downloaded_file empty Samples.disk Samples.disk).
  - reflexivity.
  - reflexivity.
  - vm_compute. reflexivity.
Defined.

(** With unique urls, the row of a url is the first and only one. *)
Lemma find_unique_url (l : list row) (r : row) (q : row -> bool) :
  NoDup (map url l) -> In r l ->
  List.find (fun x => String.eqb (url x) (url r) && q x) l = if q r then Some r else None.
Proof.
  intros Hnd Hin. induction l as [|x l IH]; [done|].
  simpl in *. apply NoDup_cons in Hnd as [Hx Hl].
  destruct Hin as [->|Hin].
  - rewrite String.eqb_refl. simpl. destruct (q r); [done|].
    clear IH. induction l as [|y l IH]; [done|]. simpl in *.
    apply NoDup_cons in Hl as [_ Hl].
    destruct (String.eqb_spec (url y) (url r)) as [E|E].
    + exfalso. apply Hx. rewrite <- E. by left.
    + simpl. apply IH; [|done]. intros H. apply Hx. by right.
  - destruct (String.eqb_spec (url x) (url r)) as [E|E].
    + exfalso. apply Hx. rewrite E. apply list_elem_of_In. by apply in_map.
    + simpl. by apply IH.
Qed.

(** Deleting by the ids of a list of rows. *)
Lemma delete_selected (sel l : list row) :
  fold_left (fun l r => delete_by_id (id r) l) sel l =
  List.filter (fun r => negb (existsb (Z.eqb (id r)) (map id sel))) l.
Proof.
  revert l. induction sel as [|x sel IH]; intros l; simpl.
  - induction l as [|y l IHl]; [done|]. simpl. by rewrite <- IHl.
  - rewrite IH. unfold delete_by_id. clear IH.
    induction l as [|y l IHl]; [done|]. simpl.
    destruct (id y =? id x); simpl; [done|].
    destruct (existsb (Z.eqb (id y)) (map id sel)); simpl; by rewrite IHl.
Qed.

Lemma cleanup_rows (t : table) (now : Z) :
  NoDup (map id (rows t)) ->
  rows (snd (fst (cleanup_expired_files t now)))
  = List.filter (fun r => negb (expired now r)) (rows t).
Proof.
  intros Hnd. unfold cleanup_expired_files. simpl. rewrite delete_selected.
  apply List.filter_ext_in. intros r Hr. f_equal.
  destruct (expired now r) eqn:He.
  - apply existsb_exists. exists (id r). split; [|apply Z.eqb_refl].
    apply in_map, filter_In. done.
  - destruct (existsb _ _) eqn:Hex; [|done].
    apply existsb_exists in Hex as (i & Hi & Heq%Z.eqb_eq).
    apply in_map_iff in Hi as (x & Hx & [Hin Hexp]%filter_In).
    rewrite <- Heq in Hx.
    assert (x = r); [|congruence].
    clear -Hnd Hin Hr Hx. induction (rows t) as [|y l IH]; [done|].
    simpl in Hnd. apply NoDup_cons in Hnd as [Hy Hl].
    destruct Hin as [->|Hin], Hr as [->|Hr]; try done.
    + exfalso. apply Hy. rewrite Hx. by apply list_elem_of_In, in_map.
    + exfalso. apply Hy. rewrite <- Hx. by apply list_elem_of_In, in_map.
    + by apply IH.
Qed.

(** X10.  A record lives up to its expiry and not beyond, and the boundary
    is strict on both sides: at the very instant [expires_at],
    [get_downloaded_file] no longer returns the record
    ([expires_at > now] fails) and [cleanup_expired_files] does not yet
    delete it ([expires_at < now] fails); any later cleanup deletes
    it. *)
Theorem expiry_is_strict (t : table) (fs : filesystem) (r : row) (now : Z) :
  schema_ok t -> In r (rows t) ->
  (expires_at r <= now -> get_downloaded_file t fs (url r) now = (None, t)) /\
  (expires_at r = now -> In r (rows (snd (fst (cleanup_expired_files t now))))) /\
  (expires_at r < now -> ~ In r (rows (snd (fst (cleanup_expired_files t now))))).
Proof.
  intros (Hu & Hi & _) Hin. split; [|split].
  - intros Hexp. unfold get_downloaded_file.
    rewrite (find_unique_url (rows t) r (fun x => now <? expires_at x) Hu Hin).
    destruct (Z.ltb_spec now (expires_at r)); [lia|done].
  - intros Hexp. rewrite (cleanup_rows t now Hi). apply filter_In. split; [done|].
    unfold expired. destruct (Z.ltb_spec (expires_at r) now); [lia|done].
  - intros Hexp. rewrite (cleanup_rows t now Hi). intros [_ H]%filter_In.
    unfold expired in H. destruct (Z.ltb_spec (expires_at r) now); [done|lia].
Qed.

Lemma schema_ok_video_table : schema_ok Samples.video_table.
Proof.
  unfold schema_ok. simpl. repeat split.
  - apply NoDup_singleton.
  - apply NoDup_singleton.
  - repeat constructor. simpl. lia.
Qed.

Lemma expiry_is_strict_witness :
  get_downloaded_file Samples.video_table Samples.disk "https://tiktok.com/a" 86400000000
    = (None, Samples.video_table) /\
  In Samples.video_row
     (rows (snd (fst (cleanup_expired_files Samples.video_table 86400000000)))).
Proof.
  destruct (expiry_is_strict Samples.video_table Samples.disk Samples.video_row 86400000000
              schema_ok_video_table) as (H1 & H2 & _).
  - left. reflexivity.
  - split; [apply H1; vm_compute; discriminate|apply H2; reflexivity].
Defined.

(** X11.  A record that [get_downloaded_file] returned while its file
    was on disk is deleted by the first [get_downloaded_file] that finds
    the file gone; from then on the url has no record, whatever the disk
    holds and whatever the time. *)
Theorem missing_file_forgets (t t0 : table) (fs0 fs : filesystem) (u : string)
    (info : file_info) (now : Z) :
  get_downloaded_file t fs0 u now = (Some info, t0) ->
  exists_ fs (info_file_path info) = false ->
  fst (get_downloaded_file t fs u now) = None /\
  forall fs' now',
    get_downloaded_file (snd (get_downloaded_file t fs u now)) fs' u now'
    = (None, snd (get_downloaded_file t fs u now)).
Proof.
  unfold get_downloaded_file at 1.
  destruct (List.find (fun r => String.eqb (url r) u && (now <? expires_at r)) (rows t))
    as [r|] eqn:Hfind; [|done].
  destruct (exists_ fs0 (file_path r)); [|done].
  intros [= <- <-]. cbn [info_file_path]. intros Hgone.
  assert (Hget : get_downloaded_file t fs u now
                 = (None, {| rows := List.filter (fun x => negb (String.eqb (url x) u))
                                                 (rows t);
                             seq := seq t |})).
  { unfold get_downloaded_file. by rewrite Hfind, Hgone. }
  rewrite Hget. cbn [fst snd].
  split; [done|]. intros fs' now'. unfold get_downloaded_file. cbn [rows].
  rewrite find_filter_none; [done|].
  intros x Hx. apply andb_true_iff in Hx as [Hx _]. by rewrite Hx.
Qed.

Lemma missing_file_forgets_witness :
  fst (get_downloaded_file Samples.video_table ∅ "https://tiktok.com/a" 5) = None /\
  forall fs' now',
    get_downloaded_file
      (snd (get_downloaded_file Samples.video_table ∅ "https://tiktok.com/a" 5))
      fs' "https://tiktok.com/a" now'
    = (None, snd (get_downloaded_file Samples.video_table ∅ "https://tiktok.com/a" 5)).
Proof.
  apply (missing_file_forgets Samples.video_table Samples.video_table Samples.disk ∅
           "https://tiktok.com/a"
           {| info_file_path := "downloads/t1/a.mp4"; info_file_size := 1000;
              info_file_type := ".mp4"; info_media_type := "video";
              info_task_dir := "downloads/t1"; info_cache_id := Some 1 |} 5).
  - reflexivity.
  - reflexivity.
Defined.

(** X12.  On a table that satisfies the schema, [cleanup_expired_files]
    at [now] leaves exactly the rows that do not have [expires_at < now],
    in their order, returns the number of the rows it deleted and goes
    through the file paths and task directories of exactly those rows, in
    their order; the table still satisfies the schema; for every URL the
    row that the SELECT of [get_downloaded_file] finds at [now] is the
    same in the table before and after; and a second run at the same time
    deletes nothing and returns 0.  This speaks of the table only, not of
    the disk, from which the run removes files and directories. *)
Theorem cleanup_removes_the_expired (t : table) (now : Z) :
  schema_ok t ->
  let '(count, t', paths) := cleanup_expired_files t now in
  rows t' = List.filter (fun r => negb (expired now r)) (rows t) /\
  count = Z.of_nat (length (List.filter (expired now) (rows t))) /\
  paths = map (fun r => (file_path r, task_dir r)) (List.filter (expired now) (rows t)) /\
  schema_ok t' /\
  (forall u,
     List.find (fun r => String.eqb (url r) u && (now <? expires_at r)) (rows t')
     = List.find (fun r => String.eqb (url r) u && (now <? expires_at r)) (rows t)) /\
  cleanup_expired_files t' now = (0, t', []).
Proof.
  intros (Hu & Hi & Hs).
  pose proof (cleanup_rows t now Hi) as Hrows.
  destruct (cleanup_expired_files t now) as [[count t'] paths] eqn:Hc.
  unfold cleanup_expired_files in Hc. injection Hc as <- Ht' <-.
  simpl in Hrows.
  assert (Hseq : seq t' = seq t) by (by rewrite <- Ht').
  split; [done|]. split; [done|]. split; [done|].
  assert (Hnone : List.filter (expired now) (rows t') = []).
  { rewrite Hrows. clear. induction (rows t) as [|x l IH]; [done|].
    simpl. destruct (expired now x) eqn:E; simpl; [done|]. by rewrite E. }
  split; [|split].
  - unfold schema_ok. rewrite Hrows, Hseq.
    split; [by apply NoDup_map_filter|]. split; [by apply NoDup_map_filter|].
    apply List.Forall_forall. intros r [Hr _]%filter_In.
    rewrite List.Forall_forall in Hs. by apply Hs.
  - intros u. rewrite Hrows. apply find_filter.
    intros r [_ Hr]%andb_true_iff. unfold expired.
    apply Z.ltb_lt in Hr. destruct (Z.ltb_spec (expires_at r) now); [lia|done].
  - unfold cleanup_expired_files. rewrite Hnone. simpl. by destruct t'.
Qed.

Lemma cleanup_removes_the_expired_witness :
  rows (snd (fst (cleanup_expired_files Samples.video_table 86400000001))) = [] /\
  fst (fst (cleanup_expired_files Samples.video_table 86400000001)) = 1.
Proof.
  pose proof (cleanup_removes_the_expired Samples.video_table 86400000001
                schema_ok_video_table) as H.
  destruct (cleanup_expired_files Samples.video_table 86400000001) as [[count t'] paths].
  destruct H as (H1 & H2 & _). simpl. split; [exact H1|exact H2].
Defined.

End DownloadedFacts.

(** ** Sending: retries and links sent once *)

Section SendFacts.

Import Bot.

Lemma retry_loop_schedule (send : nat -> attempt_result) (max_retries : Z)
    (k remaining attempt : nat) :
  (forall i, (attempt <= i < attempt + k)%nat -> timed_out (send i) = true) ->
  (Z.of_nat (attempt + k) < max_retries - 1 -> timed_out (send (attempt + k)%nat) = false) ->
  (k < remaining)%nat ->
  Z.of_nat (attempt + k) <= max_retries - 1 ->
  retry_loop send max_retries remaining attempt
  = (final_result (attempt + k) (send (attempt + k)%nat),
     map (fun i => (Z.of_nat i + 1) * 5) (seq attempt k)).
Proof.
  revert remaining attempt. induction k as [|k IH]; intros remaining attempt Hto Hlast Hrem Hmax.
  - rewrite Nat.add_0_r in *. destruct remaining as [|remaining]; [lia|].
    simpl. destruct (send attempt) as [m|text|] eqn:Hs; try done.
    destruct (Z.ltb_spec (Z.of_nat attempt) (max_retries - 1)) as [Hlt|Hge].
    + specialize (Hlast Hlt). simpl in Hlast. by rewrite Hlast.
    + by rewrite andb_false_r.
  - destruct remaining as [|remaining]; [lia|].
    assert (Hfirst : timed_out (send attempt) = true) by (apply Hto; lia).
    simpl. destruct (send attempt) as [m|text|] eqn:Hs; try done.
    simpl in Hfirst. rewrite Hfirst.
    destruct (Z.ltb_spec (Z.of_nat attempt) (max_retries - 1)) as [Hlt|Hge]; [|lia].
    simpl. rewrite (IH remaining (S attempt)).
    + by replace (S attempt + k)%nat with (attempt + S k)%nat by lia.
    + intros i Hi. apply Hto. lia.
    + replace (S attempt + k)%nat with (attempt + S k)%nat by lia. exact Hlast.
    + lia.
    + lia.
Qed.

(** X13.  [send_file_with_retry] tries again after a network error whose
    text speaks of a timeout, and after nothing else.  If the attempts
    before attempt [k] time out and attempt [k] does not (or is the last
    one allowed), the call ends with attempt [k]: it returns the message
    sent, or raises; before that it slept 5, 10, ..., [5k] seconds, and
    it never sleeps after the last attempt. *)
Theorem retry_schedule (send : nat -> attempt_result) (max_retries : Z) (k : nat) :
  Z.of_nat k < max_retries ->
  (forall i, (i < k)%nat -> timed_out (send i) = true) ->
  (Z.of_nat k < max_retries - 1 -> timed_out (send k) = false) ->
  send_file_with_retry send max_retries
  = (final_result k (send k), map (fun i => (Z.of_nat i + 1) * 5) (seq 0 k)).
Proof.
  intros Hk Hto Hlast. unfold send_file_with_retry.
  rewrite (retry_loop_schedule send max_retries k (Z.to_nat max_retries) 0).
  - done.
  - intros i Hi. apply Hto. lia.
  - exact Hlast.
  - lia.
  - simpl. lia.
Qed.

Lemma retry_schedule_witness :
  send_file_with_retry Samples.two_timeouts 3 = (ReturnedMessage 99, [5; 10]).
Proof.
  apply (retry_schedule Samples.two_timeouts 3 2).
  - lia.
  - intros [|[|i]] Hi; [reflexivity|reflexivity|lia].
  - intros H. lia.
Defined.

Lemma retry_loop_none (send : nat -> attempt_result) (max_retries : Z)
    (remaining attempt : nat) :
  Z.of_nat (attempt + remaining) = max_retries -> (0 < remaining)%nat ->
  fst (retry_loop send max_retries remaining attempt) <> ReturnedNone.
Proof.
  revert attempt. induction remaining as [|remaining IH]; intros attempt Hsum Hpos; [lia|].
  simpl. destruct (send attempt) as [m|text|]; try done.
  destruct (is_timeout text); simpl; [|done].
  destruct (Z.ltb_spec (Z.of_nat attempt) (max_retries - 1)) as [Hlt|Hge]; [|done].
  specialize (IH (S attempt)).
  destruct (retry_loop send max_retries remaining (S attempt)) as [result sleeps].
  simpl in *. apply IH; lia.
Qed.

(** X14.  [send_file_with_retry] returns [None] exactly when
    [max_retries] is not positive, and then without a single attempt or
    sleep; with at least one attempt allowed it returns the message sent
    or raises. *)
Theorem retry_returns_none (send : nat -> attempt_result) (max_retries : Z) :
  (max_retries <= 0 -> send_file_with_retry send max_retries = (ReturnedNone, [])) /\
  (fst (send_file_with_retry send max_retries) = ReturnedNone -> max_retries <= 0).
Proof.
  unfold send_file_with_retry. split.
  - intros H. by replace (Z.to_nat max_retries) with 0%nat by lia.
  - intros H. destruct (Z_le_gt_dec max_retries 0) as [|Hpos]; [done|].
    exfalso. revert H. apply retry_loop_none; lia.
Qed.

Section Links.

Variable check : string -> bool.

Lemma send_link_bound (ok : bool) (user : Z) (url : string) (n : option string)
    (s : gset (string * Z)) :
  Z.of_nat (size (snd (send_link_to_user check ok user url n s))) <= MAX_SENT_LINKS + 1.
Proof.
  unfold send_link_to_user.
  set (key := (default (normalize_url check url) n, user)).
  assert (Hmax : 0 <= MAX_SENT_LINKS) by (unfold MAX_SENT_LINKS; lia).
  destruct (Z.ltb_spec MAX_SENT_LINKS (Z.of_nat (size s))) as [Hbig|Hsmall].
  - destruct (decide (key ∈ ∅)) as [Hin|_]; [set_solver|].
    destruct ok; cbn [snd].
    + rewrite size_union by set_solver. rewrite size_singleton, size_empty. lia.
    + rewrite size_empty. lia.
  - destruct (decide (key ∈ s)) as [Hin|Hnot]; cbn [snd]; [lia|].
    destruct ok; cbn [snd]; [|lia].
    rewrite size_union by set_solver. rewrite size_singleton. lia.
Qed.

(** X15.  [sent_links] never holds more than [MAX_SENT_LINKS + 1] keys,
    whatever calls of [send_link_to_user] are made: the set is emptied
    when a call finds more than [MAX_SENT_LINKS] keys in it, and a call
    adds at most one. *)
Theorem sent_links_bounded (calls : list link_call) (s : gset (string * Z)) :
  Z.of_nat (size s) <= MAX_SENT_LINKS + 1 ->
  Z.of_nat (size (send_links check calls s)) <= MAX_SENT_LINKS + 1.
Proof.
  revert s. induction calls as [|c calls IH]; intros s Hs; [done|].
  simpl. apply IH. apply send_link_bound.
Qed.

(** X16.  A link that went out to a user is remembered: the next call
    for the same link and user sends nothing and leaves the set as it
    is, unless the first call filled the set beyond [MAX_SENT_LINKS]; then
    the next call empties the set and sends the link again. *)
Theorem link_sent_once (ok : bool) (user : Z) (url : string) (n : option string)
    (s0 s1 : gset (string * Z)) :
  send_link_to_user check true user url n s0 = (true, s1) ->
  (Z.of_nat (size s1) <= MAX_SENT_LINKS ->
     send_link_to_user check ok user url n s1 = (false, s1)) /\
  (MAX_SENT_LINKS < Z.of_nat (size s1) ->
     send_link_to_user check true user url n s1
     = (true, {[ (default (normalize_url check url) n, user) ]} ∪ ∅)).
Proof.
  unfold send_link_to_user.
  set (key := (default (normalize_url check url) n, user)).
  intros H1.
  assert (Hin : key ∈ s1).
  { destruct (MAX_SENT_LINKS <? Z.of_nat (size s0));
      destruct (decide (key ∈ _)); try done; injection H1 as <-; set_solver. }
  split.
  - intros Hsmall. apply Z.ltb_ge in Hsmall. rewrite Hsmall.
    by destruct (decide (key ∈ s1)).
  - intros Hbig. apply Z.ltb_lt in Hbig. rewrite Hbig.
    destruct (decide (key ∈ ∅)); [set_solver|done].
Qed.

End Links.

Lemma sent_links_bounded_witness :
  Z.of_nat (size (send_links Demo.check_bracketed_netloc
                    [Samples.link_call; Samples.link_call] ∅))
  <= MAX_SENT_LINKS + 1.
Proof.
  apply (sent_links_bounded Demo.check_bracketed_netloc
           [Samples.link_call; Samples.link_call] ∅).
  rewrite size_empty. unfold MAX_SENT_LINKS. lia.
Defined.

Lemma link_sent_once_witness :
  send_link_to_user Demo.check_bracketed_netloc false 7 "https://tiktok.com/a/" None
    Samples.sent_once
  = (false, Samples.sent_once).
Proof.
  destruct (link_sent_once Demo.check_bracketed_netloc false 7 "https://tiktok.com/a/" None
              ∅ Samples.sent_once) as [H _].
  - reflexivity.
  - apply H. vm_compute. discriminate.
Defined.

End SendFacts.

(** ** The links of a message *)

Section MessageLinks.

Import Bot.

Variable check : string -> bool.

Abbreviation norm := (normalize_url check).

Lemma with_scheme_has_scheme (raw : string) : has_scheme (with_scheme raw) = true.
Proof.
  unfold with_scheme. destruct (has_scheme raw) eqn:E; [done|].
  unfold has_scheme. apply orb_true_iff. right. reflexivity.
Qed.

Lemma classify_spec (bot_username : string) (urls : list string) (u : string) :
  (In u (fst (classify bot_username urls)) <->
   In u urls /\ is_bot_link bot_username u = false /\ Canon.is_supported_url u = true) /\
  (In u (snd (classify bot_username urls)) <->
   In u urls /\ is_bot_link bot_username u = false /\ Canon.is_supported_url u = false).
Proof.
  induction urls as [|x urls [IH1 IH2]]; simpl.
  - intuition.
  - destruct (classify bot_username urls) as [f uns]. simpl in *.
    destruct (is_bot_link bot_username x) eqn:Hb;
      [|destruct (Canon.is_supported_url x) eqn:Hs]; simpl; rewrite ?IH1, ?IH2;
      intuition (subst; try congruence; auto).
Qed.

Lemma dedupe_spec (seen : gset string) (urls : list string) :
  NoDup (map norm (dedupe check seen urls)) /\
  (forall u, In u (dedupe check seen urls) -> In u urls /\ norm u ∉ seen) /\
  (forall u, In u urls -> norm u ∈ seen \/ In (norm u) (map norm (dedupe check seen urls))).
Proof.
  revert seen. induction urls as [|x urls IH]; intros seen; simpl.
  - split; [constructor|]. split; intros u [].
  - destruct (decide (norm x ∈ seen)) as [Hin|Hnot].
    + destruct (IH seen) as (H1 & H2 & H3). split; [done|]. split.
      * intros u Hu. destruct (H2 u Hu). by split; [right|].
      * intros u [->|Hu]; [by left|by apply H3].
    + destruct (IH ({[norm x]} ∪ seen)) as (H1 & H2 & H3). simpl. split; [|split].
      * apply NoDup_cons. split; [|done].
        intros Hx. apply list_elem_of_In, in_map_iff in Hx as (u & Hu & Hin).
        destruct (H2 u Hin) as [_ Hns]. apply Hns. rewrite Hu.
        apply elem_of_union. left. by apply elem_of_singleton.
      * intros u [->|Hu]; [by split; [left|]|].
        destruct (H2 u Hu) as [? Hns]. split; [by right|].
        intros Hs. apply Hns. apply elem_of_union. by right.
      * intros u [->|Hu]; [right; by left|].
        destruct (H3 u Hu) as [Hs|Hs]; [|right; by right].
        apply elem_of_union in Hs as [Hs|Hs]; [|by left].
        apply elem_of_singleton in Hs. right. left. done.
Qed.

(** X17.  When [handle_message] starts tasks for the links of a message,
    no two of them have the same canonical form; each is a link of the
    message with its scheme ([https://] put before it if it had none),
    supported and not a link to the bot; and every link of the message
    that is not a link to the bot is supported and has its canonical form
    among those of the links processed.  One unsupported link is enough
    for no link to be processed. *)
Theorem select_urls_process (bot_username : string) (urls unique_urls : list string) :
  select_urls check bot_username urls = Process unique_urls ->
  unique_urls <> [] /\
  NoDup (map norm unique_urls) /\
  (forall u, In u unique_urls ->
     In u (map with_scheme urls) /\ has_scheme u = true /\
     Canon.is_supported_url u = true /\ is_bot_link bot_username u = false) /\
  (forall raw, In raw urls -> is_bot_link bot_username (with_scheme raw) = false ->
     Canon.is_supported_url (with_scheme raw) = true /\
     In (norm (with_scheme raw)) (map norm unique_urls)).
Proof.
  unfold select_urls. destruct urls as [|raw0 urls0]; [done|].
  set (urls := raw0 :: urls0).
  pose proof (classify_spec bot_username (map with_scheme urls)) as Hc.
  destruct (classify bot_username (map with_scheme urls)) as [f uns]. cbn [fst snd] in Hc.
  destruct uns as [|x uns]; [|done].
  destruct f as [|y f]; [done|].
  intros [= <-].
  destruct (dedupe_spec ∅ (y :: f)) as (H1 & H2 & H3).
  split; [|split; [done|split]].
  - simpl. destruct (decide (norm y ∈ ∅)) as [He|_]; [by apply elem_of_empty in He|done].
  - intros u Hu. destruct (H2 u Hu) as [Hin _].
    apply (Hc u) in Hin as (Hin & Hb & Hs). split; [done|]. split; [|done].
    apply in_map_iff in Hin as (raw & <- & _). apply with_scheme_has_scheme.
  - intros raw Hraw Hb.
    assert (Hin : In (with_scheme raw) (map with_scheme urls)) by (by apply in_map).
    destruct (Canon.is_supported_url (with_scheme raw)) eqn:Hs.
    + split; [done|].
      destruct (H3 (with_scheme raw)) as [Hs'|Hs'];
        [by apply Hc|by apply elem_of_empty in Hs'|done].
    + exfalso. destruct (Hc (with_scheme raw)) as [_ Hu]. by apply Hu.
Qed.

End MessageLinks.

Lemma select_urls_process_witness :
  NoDup (map (Bot.normalize_url Demo.check_bracketed_netloc)
             ["https://tiktok.com/@u/video/1/"; "https://youtu.be/xyz?t=10"]).
Proof.
  apply (select_urls_process Demo.check_bracketed_netloc "dreambot"
           ["tiktok.com/@u/video/1/"; "https://t.me/dreambot?start=file_5";
            "https://tiktok.com/@u/video/1?is_from_webapp=1"; "https://youtu.be/xyz?t=10"]).
  reflexivity.
Defined.

(** ** The aggregator: nothing lost, nothing stranded *)

Section AggregatorFacts.

Import Batch Aggregator.

Lemma buffer_insert (st : state) (u u' : Z) (l : list message) :
  default [] (<[u' := l]> (user_message_batches st) !! u)
  = if (u' =? u)%Z then l else buffer st u.
Proof.
  unfold buffer. destruct (Z.eqb_spec u' u) as [->|Hne].
  - by rewrite lookup_insert_eq.
  - by rewrite lookup_insert_ne.
Qed.

Lemma process_batch_buffer (t : Q) (u' : Z) (st : state) :
  let '(st', b) := process_batch t u' st in
  (forall u, buffer st u = (if (u' =? u)%Z then default [] b else []) ++ buffer st' u) /\
  b <> Some [] /\
  (b = None <-> buffer st u' = []).
Proof.
  unfold process_batch.
  destruct (user_message_batches st !! u') as [[|m l]|] eqn:Hb.
  - split; [|split; [done|]].
    + intros u. by destruct (u' =? u)%Z.
    + unfold buffer. by rewrite Hb.
  - split; [|split; [done|]].
    + intros u. unfold buffer at 2. cbn [user_message_batches]. rewrite buffer_insert.
      destruct (Z.eqb_spec u' u) as [->|Hne]; cbn [default].
      * unfold buffer. rewrite Hb. cbn [default]. by rewrite app_nil_r.
      * done.
    + unfold buffer. rewrite Hb. done.
  - split; [|split; [done|]].
    + intros u. by destruct (u' =? u)%Z.
    + unfold buffer. by rewrite Hb.
Qed.

Lemma add_voice (t : Q) (u' : Z) (m : message) (st : state) :
  is_voice m = true ->
  add_message_to_batch t u' m st
  = ({| user_message_batches := <[u' := buffer st u' ++ [m]]> (user_message_batches st);
        batch_timers := <[u' := (t + BATCH_TIMEOUT)%Q]> (batch_timers st);
        user_last_message_time := <[u' := t]> (user_last_message_time st) |}, None).
Proof.
  intros Hv. unfold add_message_to_batch. by rewrite Hv.
Qed.

Lemma do_call_buffer (c : call) (st : state) (u : Z) :
  from_handler c = true ->
  delivered u (option_list (snd (do_call c st))) ++ buffer (fst (do_call c st)) u
  = buffer st u ++ arrived u [c].
Proof.
  destruct c as [t u' m|t u']; cbn [from_handler do_call]; intros Hv.
  - rewrite (add_voice t u' m st Hv). cbn [fst snd option_map option_list delivered flat_map].
    unfold buffer at 1. cbn [user_message_batches]. rewrite buffer_insert.
    cbn [arrived flat_map]. destruct (u' =? u)%Z eqn:E.
    + apply Z.eqb_eq in E as ->. by rewrite app_nil_r.
    + by rewrite !app_nil_r.
  - pose proof (process_batch_buffer t u' st) as H.
    destruct (process_batch t u' st) as [st' b]. destruct H as (H & _ & _).
    cbn [fst snd arrived flat_map]. rewrite app_nil_r, (H u).
    destruct b as [l|]; cbn.
    + by rewrite app_nil_r.
    + by destruct (u' =? u)%Z.
Qed.

Lemma delivered_app (u : Z) (a b : list (Z * list message)) :
  delivered u (a ++ b) = delivered u a ++ delivered u b.
Proof. unfold delivered. apply flat_map_app. Qed.

(** X18.  The aggregator loses and repeats no message.  Whatever calls of
    [add_message_to_batch] (with the voice messages and video notes its
    one caller passes) and of [process_batch] are made, for whatever users
    and in whatever order: the batches handed on for a user, one after the
    other, followed by what is still in the user's buffer, are the
    user's messages in the order of their arrival. *)
Theorem batches_conserve_messages (cs : list call) (st : state) (u : Z) :
  forallb from_handler cs = true ->
  delivered u (snd (do_calls cs st)) ++ buffer (fst (do_calls cs st)) u
  = buffer st u ++ arrived u cs.
Proof.
  revert st. induction cs as [|c cs IH]; intros st Hcs.
  - cbn. by rewrite app_nil_r.
  - cbn [forallb] in Hcs. apply andb_true_iff in Hcs as [Hc Hcs].
    pose proof (do_call_buffer c st u Hc) as Hstep.
    specialize (IH (fst (do_call c st)) Hcs).
    cbn [do_calls]. destruct (do_call c st) as [st1 b]. cbn [fst snd] in *.
    destruct (do_calls cs st1) as [st2 bs]. cbn [fst snd] in *.
    rewrite delivered_app, <- app_assoc, IH, app_assoc, Hstep, <- app_assoc.
    f_equal. change (c :: cs) with ([c] ++ cs). unfold arrived. by rewrite flat_map_app.
Qed.

Lemma do_call_timer (c : call) (st : state) :
  from_handler c = true -> timer_inv st -> timer_inv (fst (do_call c st)).
Proof.
  destruct c as [t u' m|t u']; cbn [from_handler do_call]; intros Hv Hinv u.
  - rewrite (add_voice t u' m st Hv). cbn [fst batch_timers user_last_message_time].
    unfold buffer. cbn [user_message_batches]. rewrite buffer_insert.
    destruct (Z.eqb_spec u' u) as [->|Hne].
    + rewrite !lookup_insert_eq.
      split; [by destruct (default [] (user_message_batches st !! u))|by exists t].
    + rewrite !lookup_insert_ne by done. apply Hinv.
  - unfold process_batch.
    destruct (user_message_batches st !! u') as [[|m l]|] eqn:Hb; cbn [fst]; try apply Hinv.
    cbn [batch_timers user_last_message_time]. unfold buffer. cbn [user_message_batches].
    rewrite buffer_insert. destruct (Z.eqb_spec u' u) as [->|Hne].
    + by rewrite lookup_delete_eq.
    + rewrite lookup_delete_ne, lookup_insert_ne by done. apply Hinv.
Qed.

Lemma timer_inv_init : timer_inv init.
Proof. intros u. unfold init, buffer. cbn. by rewrite !lookup_empty. Qed.

(** X19.  No message waits without a timer.  After any calls of
    [add_message_to_batch] (with voice messages and video notes) and
    [process_batch], a user's buffer holds a message exactly when a timer
    is pending for that user, and that timer is due [BATCH_TIMEOUT] after
    the time recorded for the user's last message; so no timer runs on
    an empty buffer either. *)
Theorem buffered_message_has_timer (cs : list call) (st : state) :
  forallb from_handler cs = true ->
  timer_inv st ->
  timer_inv (fst (do_calls cs st)).
Proof.
  revert st. induction cs as [|c cs IH]; intros st Hcs Hinv; [done|].
  cbn [forallb] in Hcs. apply andb_true_iff in Hcs as [Hc Hcs].
  pose proof (do_call_timer c st Hc Hinv) as Hstep.
  specialize (IH (fst (do_call c st)) Hcs Hstep).
  cbn [do_calls]. destruct (do_call c st) as [st1 b]. cbn [fst] in *.
  by destruct (do_calls cs st1) as [st2 bs].
Qed.

Lemma batches_conserve_messages_witness :
  Aggregator.delivered 7 (snd (do_calls Samples.voice_calls init))
  ++ buffer (fst (do_calls Samples.voice_calls init)) 7
  = [Demo.voice_message 1; Demo.voice_message 2; Demo.voice_message 3].
Proof.
  rewrite (batches_conserve_messages Samples.voice_calls init 7); reflexivity.
Defined.

Lemma buffered_message_has_timer_witness :
  timer_inv (fst (do_calls Samples.voice_calls init)).
Proof.
  apply (buffered_message_has_timer Samples.voice_calls init).
  - reflexivity.
  - exact timer_inv_init.
Defined.

End AggregatorFacts.

(** ** The transcoders write beside their input, never onto it *)

Section TranscodeFacts.

Import Downloader Transcode.

Lemma rpartition_none (c : ascii) (s : string) :
  Py.has_char c s = false -> Py.rpartition c s = None.
Proof.
  induction s as [|d s IH]; [done|]. simpl.
  intros [Hd Hs]%orb_false_iff. by rewrite (IH Hs), Hd.
Qed.

Lemma rpartition_last (c : ascii) (a b : string) :
  Py.has_char c b = false -> Py.rpartition c (a +:+ String c b) = Some (a, b).
Proof.
  intros Hb. induction a as [|d a IH].
  - rewrite append_nil_l. simpl. by rewrite (rpartition_none c b Hb), Ascii.eqb_refl.
  - rewrite append_cons. simpl. by rewrite IH.
Qed.

Lemma rpartition_none_inv (c : ascii) (s : string) :
  Py.rpartition c s = None -> Py.has_char c s = false.
Proof.
  induction s as [|d s IH]; [done|]. simpl.
  destruct (Py.rpartition c s) as [[? ?]|]; [done|].
  destruct (Ascii.eqb c d); [done|]. intros _. by apply IH.
Qed.

Lemma rpartition_some (c : ascii) (s a b : string) :
  Py.rpartition c s = Some (a, b) -> s = a +:+ String c b /\ Py.has_char c b = false.
Proof.
  revert a. induction s as [|d s IH]; intros a; [done|]. simpl.
  destruct (Py.rpartition c s) as [[a' b']|] eqn:E.
  - intros [= <- <-]. destruct (IH a' eq_refl) as [-> Hb]. by rewrite append_cons.
  - destruct (Ascii.eqb c d) eqn:Hd; [|done]. intros [= <- <-].
    apply Ascii.eqb_eq in Hd as ->. split; [done|]. by apply rpartition_none_inv.
Qed.

Lemma basename_no_slash (p : string) : Py.has_char "/" (OsPath.basename p) = false.
Proof.
  unfold OsPath.basename. destruct (Py.rpartition "/" p) as [[a b]|] eqn:E.
  - by destruct (rpartition_some _ _ _ _ E).
  - by apply rpartition_none_inv.
Qed.

Lemma endswith_char_split (c : ascii) (s : string) :
  Py.endswith_char c s = true -> exists a, s = a +:+ String c EmptyString.
Proof.
  induction s as [|d s IH]; [done|]. destruct s as [|e s].
  - simpl. intros ->%Ascii.eqb_eq. by exists EmptyString.
  - intros H. destruct (IH H) as [a Ha]. exists (String d a). by rewrite append_cons, <- Ha.
Qed.

Lemma basename_join (dir name : string) :
  Py.has_char "/" name = false -> OsPath.basename (OsPath.join dir name) = name.
Proof.
  intros Hn. unfold OsPath.join.
  assert (Hs : Py.startswith "/" name = false).
  { destruct name as [|c name]; [done|]. simpl in *.
    apply orb_false_iff in Hn as [-> _]. done. }
  rewrite Hs. unfold OsPath.basename.
  destruct dir as [|d dir].
  - cbn [Py.is_empty orb]. rewrite append_nil_l. by rewrite (rpartition_none _ _ Hn).
  - cbn [Py.is_empty orb]. destruct (Py.endswith_char "/" (String d dir)) eqn:He.
    + destruct (endswith_char_split _ _ He) as [a ->].
      rewrite append_assoc, append_cons, append_nil_l. by rewrite (rpartition_last _ a name Hn).
    + change ("/" +:+ name) with (String "/" name).
      by rewrite (rpartition_last _ (String d dir) name Hn).
Qed.

Lemma append_same_prefix (a b c : string) : a +:+ b = a +:+ c -> b = c.
Proof.
  induction a as [|d a IH]; [done|]. rewrite !append_cons. intros [= H]. by apply IH.
Qed.

Lemma splitext_root (name : string) :
  fst (OsPath.splitext name) = name \/
  exists ext, name = fst (OsPath.splitext name) +:+ String "." ext.
Proof.
  unfold OsPath.splitext. destruct (Py.rpartition "." name) as [[a b]|] eqn:E; [|by left].
  destruct (Py.str_all (Ascii.eqb ".") a); [by left|].
  right. exists b. cbn [fst]. by destruct (rpartition_some _ _ _ _ E).
Qed.

Lemma splitext_no_slash (name : string) :
  Py.has_char "/" name = false -> Py.has_char "/" (fst (OsPath.splitext name)) = false.
Proof.
  intros Hn. destruct (splitext_root name) as [->|[ext Hext]]; [done|].
  rewrite Hext, has_char_app in Hn. by apply orb_false_iff in Hn as [? _].
Qed.

(** A name made of the input's root and a suffix that starts with
    neither a dot nor a slash, in whatever directory, is not the input's
    path. *)
Lemma suffixed_path_differs (input_path output_dir : string) (c : ascii) (suffix : string) :
  c <> "."%char -> Py.has_char "/" (String c suffix) = false ->
  OsPath.basename
    (OsPath.join output_dir
       (fst (OsPath.splitext (OsPath.basename input_path)) +:+ String c suffix))
  <> OsPath.basename input_path.
Proof.
  intros Hdot Hslash.
  set (name := OsPath.basename input_path).
  set (root := fst (OsPath.splitext name)).
  assert (Hname : Py.has_char "/" name = false) by apply basename_no_slash.
  rewrite basename_join.
  2:{ rewrite has_char_app, Hslash, orb_false_r. by apply splitext_no_slash. }
  intros Heq. destruct (splitext_root name) as [Hr|[ext Hext]]; fold root in Hr || fold root in Hext.
  - rewrite Hr in Heq. apply (f_equal String.length) in Heq.
    rewrite length_append in Heq. simpl in Heq. lia.
  - rewrite <- Heq in Hext. apply append_same_prefix in Hext. by injection Hext.
Qed.

(** X20.  A transcoder never takes its input for its output.  The file
    name that [compress_video], [optimize_for_telegram],
    [fix_video_for_telegram] and [generate_thumbnail] hand to ffmpeg as
    output differs from the name of the input file, for every input path
    and output directory, so ffmpeg (run with [-y]) is never told to
    overwrite the file it reads; and a path returned by one of the three
    video transcoders names a file that exists, is not empty and is not
    the input. *)
Theorem transcoders_spare_their_input (run : process) (input_path output_dir : string) :
  (forall out,
     In out [compressed_path_of input_path output_dir;
             optimized_path_of input_path output_dir;
             fixed_path_of input_path output_dir;
             thumbnail_path_of input_path output_dir;
             temp_path_of input_path output_dir] ->
     OsPath.basename out <> OsPath.basename input_path /\ out <> input_path) /\
  (forall out, output_of (optimize_cmd input_path out) = Some out /\
               input_of (optimize_cmd input_path out) = Some input_path /\
               output_of (fix_cmd input_path out) = Some out /\
               input_of (fix_cmd input_path out) = Some input_path) /\
  (forall fs fs' p probe,
     optimize_for_telegram run input_path output_dir fs = (Some p, fs') \/
     fix_video_for_telegram run input_path output_dir fs = (Some p, fs') \/
     compress_video run input_path output_dir probe fs = (Some p, fs') ->
     p <> input_path /\ exists size, fs' !! p = Some size /\ 0 < size).
Proof.
  assert (Hout : forall out,
     In out [compressed_path_of input_path output_dir;
             optimized_path_of input_path output_dir;
             fixed_path_of input_path output_dir;
             thumbnail_path_of input_path output_dir;
             temp_path_of input_path output_dir] ->
     OsPath.basename out <> OsPath.basename input_path /\ out <> input_path).
  { intros out Hin.
    assert (Hb : OsPath.basename out <> OsPath.basename input_path).
    { simpl in Hin. destruct Hin as [<-|[<-|[<-|[<-|[<-|[]]]]]];
        apply suffixed_path_differs; done. }
    split; [done|]. intros ->. done. }
  split; [exact Hout|]. split; [done|].
  intros fs fs' p probe H.
  assert (Hp : In p [compressed_path_of input_path output_dir;
                     optimized_path_of input_path output_dir;
                     fixed_path_of input_path output_dir;
                     thumbnail_path_of input_path output_dir;
                     temp_path_of input_path output_dir] /\
               exists size, fs' !! p = Some size /\ 0 < size).
  { destruct H as [H|[H|H]].
    - unfold optimize_for_telegram in H.
      destruct (run _ fs) as [[] fs1]; try done.
      destruct (fs1 !! _) as [sz|] eqn:Hsz; [|done].
      destruct (Z.ltb_spec 0 sz); [|done]. injection H as <- <-.
      split; [right; by left|by exists sz].
    - unfold fix_video_for_telegram in H.
      destruct (run _ fs) as [[] fs1]; try done.
      destruct (fs1 !! _) as [sz|] eqn:Hsz; [|done].
      destruct (Z.ltb_spec 0 sz); [|done]. injection H as <- <-.
      split; [right; right; by left|by exists sz].
    - unfold compress_video in H. destruct probe as [duration|]; [|done].
      destruct (compress_video_cmd _ _ _) as [cmd|]; [|done].
      destruct (run cmd fs) as [[] fs1]; try done.
      destruct (fs1 !! _) as [sz|] eqn:Hsz; [|done].
      destruct (Z.ltb_spec 0 sz); [|done]. injection H as <- <-.
      split; [by left|by exists sz]. }
  destruct Hp as [Hin Hsz]. split; [|done]. by apply Hout.
Qed.

Lemma transcoders_spare_their_input_witness :
  fst (optimize_for_telegram Demo.ffmpeg "/downloads/t/clip.mp4" "/downloads/t" ∅)
  = Some "/downloads/t/clip_optimized.mp4" /\
  "/downloads/t/clip_optimized.mp4" <> "/downloads/t/clip.mp4".
Proof.
  split; [reflexivity|].
  destruct (transcoders_spare_their_input Demo.ffmpeg "/downloads/t/clip.mp4" "/downloads/t")
    as (_ & _ & H).
  apply (H ∅ (snd (optimize_for_telegram Demo.ffmpeg "/downloads/t/clip.mp4" "/downloads/t" ∅))
           "/downloads/t/clip_optimized.mp4" None).
  left. reflexivity.
Defined.

End TranscodeFacts.

(** ** Numbers in texts: [str] and [int] *)

Section NumeralFacts.

Import Builtin.

Lemma uint_text_digits (d : Decimal.uint) :
  Py.str_all (fun c => match digit c with Some _ => true | None => false end)
    (NilEmpty.string_of_uint d) = true.
Proof. induction d; simpl; auto. Qed.

Lemma int_digits_uint (after_digit : bool) (d : Decimal.uint) :
  d <> Decimal.Nil \/ after_digit = true ->
  int_digits after_digit (NilEmpty.string_of_uint d) = Some d.
Proof.
  revert after_digit. induction d as [|d IH|d IH|d IH|d IH|d IH|d IH|d IH|d IH|d IH|d IH];
    intros after_digit H;
    [destruct H as [H| ->]; [done|reflexivity]|..];
    cbn [NilEmpty.string_of_uint int_digits];
    (rewrite (IH true) by (by right)); reflexivity.
Qed.

Lemma digit_not_space (c : ascii) :
  numeral_char c = true -> negb (int_space c) = true /\ negb (Py.isspace c) = true.
Proof.
  destruct c as [[|] [|] [|] [|] [|] [|] [|] [|]]; cbv; intuition discriminate.
Qed.

Lemma numeral_text_strip (s : string) :
  Py.str_all numeral_char s = true ->
  Py.rstrip_by int_space (Py.lstrip_by int_space s) = s /\ Py.strip s = s.
Proof.
  intros H.
  assert (H1 : Py.str_all (fun c => negb (int_space c)) s = true).
  { revert H. apply str_all_impl. intros c Hc. by apply digit_not_space. }
  assert (H2 : Py.str_all (fun c => negb (Py.isspace c)) s = true).
  { revert H. apply str_all_impl. intros c Hc. by apply digit_not_space. }
  unfold Py.strip. by rewrite !lstrip_by_none, !rstrip_by_none.
Qed.

Lemma uint_text_numeral (d : Decimal.uint) :
  Py.str_all numeral_char (NilEmpty.string_of_uint d) = true.
Proof.
  generalize (uint_text_digits d). apply str_all_impl.
  intros c Hc. unfold numeral_char. by rewrite Hc, orb_true_r.
Qed.

(** [int()] reads a literal back, up to the limit on the number of
    digits. *)
Lemma int_literal (negative : bool) (d : Decimal.uint) :
  d <> Decimal.Nil ->
  Z.of_nat (Decimal.nb_digits d) <= MAX_STR_DIGITS ->
  int ((if negative then "-" else EmptyString) +:+ NilEmpty.string_of_uint d)
  = Some (Z.of_int (if negative then Decimal.Neg d else Decimal.Pos d)).
Proof.
  intros Hd Hn. unfold int.
  assert (Hs : Py.str_all numeral_char
                 ((if negative then "-" else EmptyString) +:+ NilEmpty.string_of_uint d) = true).
  { rewrite str_all_app, uint_text_numeral, andb_true_r. by destruct negative. }
  rewrite (proj1 (numeral_text_strip _ Hs)).
  assert (Hlimit : (MAX_STR_DIGITS <? Z.of_nat (Decimal.nb_digits d)) = false)
    by (apply Z.ltb_ge; lia).
  destruct negative.
  - change ("-" +:+ NilEmpty.string_of_uint d) with (String "-" (NilEmpty.string_of_uint d)).
    cbv beta iota. rewrite (int_digits_uint false d) by (by left). by rewrite Hlimit.
  - rewrite append_nil_l.
    assert (Hm : (match NilEmpty.string_of_uint d with
                  | String "-" r => (true, r)
                  | String "+" r => (false, r)
                  | _ => (false, NilEmpty.string_of_uint d)
                  end)%char = (false, NilEmpty.string_of_uint d)).
    { by destruct d. }
    rewrite Hm. rewrite (int_digits_uint false d) by (by left). by rewrite Hlimit.
Qed.

Lemma double_digits (d : Decimal.uint) :
  (Decimal.nb_digits (Decimal.Little.double d) <= S (Decimal.nb_digits d))%nat /\
  (Decimal.nb_digits (Decimal.Little.succ_double d) <= S (Decimal.nb_digits d))%nat.
Proof.
  induction d as [|d [IH1 IH2]|d [IH1 IH2]|d [IH1 IH2]|d [IH1 IH2]|d [IH1 IH2]
                  |d [IH1 IH2]|d [IH1 IH2]|d [IH1 IH2]|d [IH1 IH2]|d [IH1 IH2]];
    simpl; lia.
Qed.

Lemma positive_digits (p : positive) :
  (Decimal.nb_digits (Pos.to_uint p) <= Pos.size_nat p)%nat.
Proof.
  unfold Pos.to_uint. rewrite DecimalFacts.nb_digits_rev.
  induction p as [p IH|p IH|]; cbn [Pos.to_little_uint Pos.size_nat].
  - pose proof (proj2 (double_digits (Pos.to_little_uint p))). lia.
  - pose proof (proj1 (double_digits (Pos.to_little_uint p))). lia.
  - simpl. lia.
Qed.

Lemma sqlite_integer_digits (p : positive) :
  Z.pos p <= 2 ^ 63 -> Z.of_nat (Decimal.nb_digits (Pos.to_uint p)) <= MAX_STR_DIGITS.
Proof.
  intros Hp. pose proof (positive_digits p) as Hd.
  assert (Hs : (Pos.size_nat p <= 65)%nat).
  { change 65%nat with (Pos.size_nat 18446744073709551616%positive).
    apply Pos.size_nat_monotone. unfold Pos.lt. rewrite Pos2Z.inj_compare.
    apply (Z.le_lt_trans _ _ _ Hp). vm_compute. reflexivity. }
  clear Hp. unfold MAX_STR_DIGITS. lia.
Qed.

Lemma positive_text (p : positive) :
  NilZero.string_of_uint (Pos.to_uint p) = NilEmpty.string_of_uint (Pos.to_uint p).
Proof.
  pose proof (DecimalPos.Unsigned.to_uint_nonnil p) as Hp. by destruct (Pos.to_uint p).
Qed.

Lemma str_of_Z_numeral (z : Z) : Py.str_all numeral_char (Py.str_of_Z z) = true.
Proof.
  unfold Py.str_of_Z. destruct z as [|p|p]; [done|..];
    cbn [Z.to_int NilZero.string_of_int]; rewrite positive_text.
  - apply uint_text_numeral.
  - cbn [Py.str_all]. by rewrite uint_text_numeral.
Qed.

(** [int(str(n)) == n] for every integer of the size SQLite stores. *)
Lemma int_str_of_Z (z : Z) :
  - 2 ^ 63 <= z < 2 ^ 63 -> int (Py.str_of_Z z) = Some z.
Proof.
  intros Hz. unfold Py.str_of_Z. destruct z as [|p|p]; [done|..];
    cbn [Z.to_int NilZero.string_of_int]; rewrite positive_text;
    pose proof (DecimalPos.Unsigned.to_uint_nonnil p) as Hp.
  - change (NilEmpty.string_of_uint (Pos.to_uint p))
      with (EmptyString +:+ NilEmpty.string_of_uint (Pos.to_uint p)).
    rewrite (int_literal false (Pos.to_uint p) Hp).
    + f_equal. exact (DecimalZ.of_to (Z.pos p)).
    + apply sqlite_integer_digits. apply Z.lt_le_incl, Hz.
  - change (String "-" (NilEmpty.string_of_uint (Pos.to_uint p)))
      with ("-" +:+ NilEmpty.string_of_uint (Pos.to_uint p)).
    rewrite (int_literal true (Pos.to_uint p) Hp).
    + f_equal. exact (DecimalZ.of_to (Z.neg p)).
    + apply sqlite_integer_digits. apply Z.opp_le_mono. exact (proj1 Hz).
Qed.

End NumeralFacts.

(** ** Buttons and the handlers that read them back *)

Section ButtonFacts.

Import Builtin Buttons.

Lemma str_all_no_char (p : ascii -> bool) (c : ascii) (s : string) :
  p c = false -> Py.str_all p s = true -> Py.has_char c s = false.
Proof.
  intros Hc. induction s as [|d s IH]; [done|]. simpl.
  intros [Hd Hs]%andb_true_iff. rewrite (IH Hs), orb_false_r.
  destruct (Ascii.eqb_spec c d) as [->|]; [congruence|done].
Qed.

Lemma startswith_app (p s : string) :
  Py.startswith p s = true -> exists rest, s = p +:+ rest.
Proof.
  revert s. induction p as [|a p IH]; intros s; [by exists s|].
  destruct s as [|b s]; [done|]. simpl.
  intros [->%Ascii.eqb_eq Hs]%andb_true_iff.
  destruct (IH s Hs) as [rest ->]. by exists rest.
Qed.

Lemma split_cons (c : ascii) (s : string) :
  exists field fields, Py.split c s = field :: fields.
Proof.
  induction s as [|d s (h & t & IH)]; [by eexists _, _|]. simpl.
  destruct (Ascii.eqb c d); [by eexists _, _|]. rewrite IH. by eexists _, _.
Qed.

Lemma first_field_app (c : ascii) (a b : string) :
  Py.has_char c a = false -> first_field c (a +:+ b) = a +:+ first_field c b.
Proof.
  unfold first_field. induction a as [|d a IH]; [done|].
  intros [Hd Ha]%orb_false_iff. rewrite !append_cons. cbn [Py.split]. rewrite Hd.
  specialize (IH Ha). destruct (split_cons c (a +:+ b)) as (h & t & E).
  rewrite E in IH |- *. cbn [hd] in *. by rewrite IH.
Qed.

Lemma first_field_cut (c : ascii) (a b : string) :
  Py.has_char c a = false -> first_field c (a +:+ String c b) = a.
Proof.
  intros Ha. rewrite (first_field_app c a _ Ha).
  unfold first_field. cbn [Py.split]. rewrite Ascii.eqb_refl. cbn [hd]. apply append_nil_r.
Qed.

Lemma first_field_none (c : ascii) (a : string) :
  Py.has_char c a = false -> first_field c a = a.
Proof. intros Ha. unfold first_field. by rewrite (split_no_separator c a Ha). Qed.

Lemma numeral_no_char (c : ascii) (z : Z) :
  numeral_char c = false -> Py.has_char c (Py.str_of_Z z) = false.
Proof. intros Hc. exact (str_all_no_char _ c _ Hc (str_of_Z_numeral z)). Qed.

Lemma conv_data (action : string) (cache_id : Z) :
  Py.has_char "_" action = false ->
  - 2 ^ 63 <= cache_id < 2 ^ 63 ->
  on_convert_action ("conv_" +:+ action +:+ "_" +:+ Py.str_of_Z cache_id)
  = ByCacheId action cache_id.
Proof.
  intros Ha Hid. unfold on_convert_action.
  change ("conv_" +:+ action +:+ "_" +:+ Py.str_of_Z cache_id)
    with ("conv" +:+ String "_" (action +:+ String "_" (Py.str_of_Z cache_id))).
  rewrite (split_field "_" "conv") by done.
  rewrite (split_field "_" action) by done.
  rewrite (split_no_separator "_" (Py.str_of_Z cache_id)) by (by apply numeral_no_char).
  cbv beta iota. change (String.eqb "conv" "conv") with true. cbv iota.
  by rewrite (int_str_of_Z cache_id Hid).
Qed.

Lemma filtered_has_action (data : string) :
  convert_filter data = true -> on_convert_action data <> NoAction.
Proof.
  unfold convert_filter. intros H.
  assert (Hparts : exists part0 action rest, Py.split "_" data = part0 :: action :: rest).
  { apply orb_true_iff in H as [H|H]; apply startswith_app in H as [rest ->].
    - change ("convert_" +:+ rest) with ("convert" +:+ String "_" rest).
      rewrite (split_field "_" "convert") by done.
      destruct (split_cons "_" rest) as (h & t & ->). by eexists _, _, _.
    - change ("conv_" +:+ rest) with ("conv" +:+ String "_" rest).
      rewrite (split_field "_" "conv") by done.
      destruct (split_cons "_" rest) as (h & t & ->). by eexists _, _, _. }
  destruct Hparts as (part0 & action & rest & E). unfold on_convert_action. rewrite E.
  destruct rest as [|part2 rest]; [done|].
  destruct (String.eqb part0 "conv"); [|done]. by destruct (int part2).
Qed.

(** X21.  The conversion buttons lead back to the cached file.  Every
    button of [get_convert_options_keyboard_with_cache_id(cache_id)]
    carries data that passes the filter of [on_convert_action] and that
    the handler reads as one of its actions together with the very
    [cache_id] (an id as SQLite stores it), which it then looks up with
    [db.get_file_by_id].  And on no data that passes its filter does the
    handler fail for want of [parts[1]]. *)
Theorem convert_buttons_lead_back (cache_id : Z) :
  - 2 ^ 63 <= cache_id < 2 ^ 63 ->
  (forall b, In b (concat (get_convert_options_keyboard_with_cache_id cache_id)) ->
     exists data action,
       b = CallbackData data /\
       convert_filter data = true /\
       on_convert_action data = ByCacheId action cache_id /\
       In action action_names) /\
  (forall data, convert_filter data = true -> on_convert_action data <> NoAction).
Proof.
  intros Hid. split; [|apply filtered_has_action].
  intros b Hb. simpl in Hb.
  destruct Hb as [<-|[<-|[<-|[<-|[<-|[]]]]]].
  - exists ("conv_note_" +:+ Py.str_of_Z cache_id), "note".
    split; [done|]. split; [done|]. split; [|simpl; tauto].
    by apply (conv_data "note").
  - exists ("conv_voice_" +:+ Py.str_of_Z cache_id), "voice".
    split; [done|]. split; [done|]. split; [|simpl; tauto].
    by apply (conv_data "voice").
  - exists ("conv_mp3_" +:+ Py.str_of_Z cache_id), "mp3".
    split; [done|]. split; [done|]. split; [|simpl; tauto].
    by apply (conv_data "mp3").
  - exists ("conv_file_" +:+ Py.str_of_Z cache_id), "file".
    split; [done|]. split; [done|]. split; [|simpl; tauto].
    by apply (conv_data "file").
  - exists ("conv_transcription_" +:+ Py.str_of_Z cache_id), "transcription".
    split; [done|]. split; [done|]. split; [|simpl; tauto].
    by apply (conv_data "transcription").
Qed.

Lemma convert_buttons_lead_back_witness :
  on_convert_action "conv_mp3_42" = ByCacheId "mp3" 42 /\
  on_convert_action "convert_" <> NoAction.
Proof.
  destruct (convert_buttons_lead_back 42) as [_ H].
  - split; [discriminate|reflexivity].
  - split; [reflexivity|]. by apply H.
Defined.

Lemma split_ws_word (w r : string) :
  w <> EmptyString ->
  Py.str_all (fun c => negb (Py.isspace c)) w = true ->
  Py.starts_with Py.isspace r = true ->
  split_ws (w +:+ r) = w :: split_ws r.
Proof.
  intros Hw Hall Hr. induction w as [|c w IH]; [done|].
  cbn [Py.str_all] in Hall. apply andb_true_iff in Hall as [Hc Hall].
  apply negb_true_iff in Hc. rewrite append_cons.
  destruct w as [|d w].
  - rewrite append_nil_l. cbn [split_ws]. rewrite Hc.
    destruct r as [|e r]; [done|]. cbn [Py.starts_with] in Hr. by rewrite Hr.
  - specialize (IH ltac:(done) Hall).
    rewrite append_cons in IH |- *.
    change (split_ws (String c (String d (w +:+ r))))
      with (if Py.isspace c then split_ws (String d (w +:+ r))
            else if Py.isspace d then String c EmptyString :: split_ws (String d (w +:+ r))
                 else match split_ws (String d (w +:+ r)) with
                      | word :: words => String c word :: words
                      | [] => [String c EmptyString]
                      end).
    rewrite Hc. cbn [Py.str_all] in Hall. apply andb_true_iff in Hall as [Hd _].
    apply negb_true_iff in Hd. by rewrite Hd, IH.
Qed.

Lemma numeral_not_space (s : string) :
  Py.str_all numeral_char s = true ->
  Py.str_all (fun c => negb (Py.isspace c)) s = true.
Proof. apply str_all_impl. intros c Hc. by apply digit_not_space. Qed.

Lemma start_command (start_param : string) :
  start_param <> EmptyString ->
  Py.str_all (fun c => negb (Py.isspace c)) start_param = true ->
  command_argument ("/start " +:+ start_param) = Some start_param.
Proof.
  intros Hne Hall. unfold command_argument.
  change ("/start " +:+ start_param) with ("/start" +:+ String " " start_param).
  rewrite (split_ws_word "/start" (String " " start_param)) by done.
  change (split_ws (String " " start_param)) with (split_ws start_param).
  rewrite <- (append_nil_r start_param) at 1.
  by rewrite (split_ws_word start_param EmptyString).
Qed.

Lemma first_field_skip (c d : ascii) (r : string) :
  Ascii.eqb c d = false -> first_field c (String d r) = String d (first_field c r).
Proof.
  intros Hd. apply (first_field_app c (String d EmptyString) r).
  cbn [Py.has_char]. by rewrite Hd.
Qed.

Lemma first_fields (s rest : string) (c : ascii) :
  Py.str_all numeral_char s = true ->
  In c ["/"; "?"; "&"]%char ->
  first_field "&" (first_field "?" (first_field "/" (s +:+ String c rest))) = s.
Proof.
  intros Hs Hc.
  assert (H1 : Py.has_char "/" s = false) by (by apply (str_all_no_char numeral_char)).
  assert (H2 : Py.has_char "?" s = false) by (by apply (str_all_no_char numeral_char)).
  assert (H3 : Py.has_char "&" s = false) by (by apply (str_all_no_char numeral_char)).
  simpl in Hc. destruct Hc as [<-|[<-|[<-|[]]]].
  - rewrite (first_field_cut "/" s rest H1).
    by rewrite (first_field_none "?" s H2), (first_field_none "&" s H3).
  - rewrite (first_field_app "/" s _ H1).
    rewrite (first_field_skip "/" "?" rest) by done.
    rewrite (first_field_cut "?" s _ H2). by rewrite (first_field_none "&" s H3).
  - rewrite (first_field_app "/" s _ H1).
    rewrite (first_field_skip "/" "&" rest) by done.
    rewrite (first_field_app "?" s _ H2).
    rewrite (first_field_skip "?" "&" _) by done.
    by rewrite (first_field_cut "&" s _ H3).
Qed.

(** X22.  The link under a file leads back to it.  For an id other than
    0 (as SQLite stores it) and a bot name, [get_convert_keyboard] makes
    one button with the link [https://t.me/<bot>?start=file_<id>].  When
    Telegram delivers the parameter of that link as the argument of
    [/start], [cmd_start] looks up the same id; it still does when the
    parameter is followed by [/], [?] or [&] and anything after. *)
Theorem start_link_leads_back (cache_id : Z) (bot_username : string) :
  - 2 ^ 63 <= cache_id < 2 ^ 63 -> cache_id <> 0 -> bot_username <> EmptyString ->
  exists start_param,
    get_convert_keyboard (Some cache_id) (Some bot_username)
    = [[Url ("https://t.me/" +:+ bot_username +:+ "?start=" +:+ start_param)]] /\
    command_argument ("/start " +:+ start_param) = Some start_param /\
    start_cache_id (Some start_param) = Some cache_id /\
    (forall c rest, In c ["/"; "?"; "&"]%char ->
       start_cache_id (Some (start_param +:+ String c rest)) = Some cache_id).
Proof.
  intros Hid Hnz Hname. exists ("file_" +:+ Py.str_of_Z cache_id).
  pose proof (str_of_Z_numeral cache_id) as Hnum.
  pose proof (int_str_of_Z cache_id Hid) as Hint.
  split; [|split; [|split]].
  - unfold get_convert_keyboard.
    destruct (Z.eqb_spec cache_id 0) as [|_]; [done|].
    destruct bot_username; [done|]. reflexivity.
  - apply start_command; [done|].
    rewrite str_all_app. by rewrite (numeral_not_space _ Hnum).
  - unfold start_cache_id.
    change (Py.is_empty ("file_" +:+ Py.str_of_Z cache_id)) with false.
    change (Py.startswith "file_" ("file_" +:+ Py.str_of_Z cache_id)) with true.
    change (skip 5 ("file_" +:+ Py.str_of_Z cache_id)) with (Py.str_of_Z cache_id).
    cbv beta iota zeta. cbn [negb andb].
    rewrite (first_field_none "/"), (first_field_none "?"), (first_field_none "&")
      by (by apply numeral_no_char).
    by rewrite (proj2 (numeral_text_strip _ Hnum)).
  - intros c rest Hc. unfold start_cache_id.
    rewrite append_assoc.
    change (Py.is_empty ("file_" +:+ Py.str_of_Z cache_id +:+ String c rest)) with false.
    change (Py.startswith "file_" ("file_" +:+ Py.str_of_Z cache_id +:+ String c rest))
      with true.
    change (skip 5 ("file_" +:+ Py.str_of_Z cache_id +:+ String c rest))
      with (Py.str_of_Z cache_id +:+ String c rest).
    cbv beta iota zeta. cbn [negb andb].
    rewrite (first_fields _ rest c Hnum Hc).
    by rewrite (proj2 (numeral_text_strip _ Hnum)).
Qed.

Lemma start_link_leads_back_witness :
  exists start_param,
    get_convert_keyboard (Some 42) (Some "dreambot")
    = [[Url ("https://t.me/" +:+ "dreambot" +:+ "?start=" +:+ start_param)]] /\
    command_argument ("/start " +:+ start_param) = Some start_param /\
    start_cache_id (Some start_param) = Some 42 /\
    (forall c rest, In c ["/"; "?"; "&"]%char ->
       start_cache_id (Some (start_param +:+ String c rest)) = Some 42).
Proof.
  apply (start_link_leads_back 42 "dreambot").
  - split; [discriminate|reflexivity].
  - discriminate.
  - discriminate.
Defined.

Lemma plain_id_spec (fid : string) :
  plain_id fid = true ->
  fid <> EmptyString /\ Py.has_char "," fid = false /\ Py.has_char ":" fid = false /\
  Py.strip fid = fid.
Proof.
  unfold plain_id. intros [Hne Hall]%andb_true_iff.
  split; [by destruct fid|].
  split; [|split].
  - by apply (str_all_no_char plain_id_char).
  - by apply (str_all_no_char plain_id_char).
  - assert (H : Py.str_all (fun c => negb (Py.isspace c)) fid = true).
    { revert Hall. apply str_all_impl. intros c Hc. unfold plain_id_char in Hc.
      by apply andb_true_iff in Hc as [[? _]%andb_true_iff _]. }
    unfold Py.strip. by rewrite lstrip_by_none, rstrip_by_none.
Qed.

Lemma plain_ids_kept (ids : list string) :
  Forall (fun fid => plain_id fid = true) ids ->
  map Py.strip (List.filter (fun fid => negb (Py.is_empty (Py.strip fid))) ids) = ids.
Proof.
  induction 1 as [|fid ids Hfid _ IH]; [done|].
  destruct (plain_id_spec fid Hfid) as (Hne & _ & _ & Hstrip).
  cbn [List.filter]. rewrite Hstrip.
  destruct fid; [done|]. cbn [Py.is_empty negb map]. by rewrite Hstrip, IH.
Qed.

(** X23.  The summary button names the messages it was made for.  For
    ids without white space, comma or colon, the data of the button
    [process_voice_batch] attaches is read back by its handler as the
    same ids in the same order: [handle_batch_summarize_callback] gets
    the whole list when there are several messages (and the data do not
    pass the filter of the single-message handler);
    [handle_summarize_callback] gets the first id when there is one
    message. *)
Theorem summary_button_leads_back (voice_messages : nat) (file_unique_ids : list string) :
  Forall (fun fid => plain_id fid = true) file_unique_ids ->
  file_unique_ids <> [] ->
  exists data,
    summary_button voice_messages file_unique_ids = Some (CallbackData data) /\
    if (1 <? voice_messages)%nat
    then Py.startswith "batch_summarize:" data = true /\
         Py.startswith "summarize:" data = false /\
         batch_summarize_ids data = file_unique_ids
    else Py.startswith "summarize:" data = true /\
         summarize_id data = head file_unique_ids.
Proof.
  intros Hids Hne. unfold summary_button.
  destruct file_unique_ids as [|fid ids]; [done|].
  destruct (1 <? voice_messages)%nat.
  - eexists. split; [done|]. split; [done|]. split; [done|].
    unfold batch_summarize_ids.
    change ("batch_summarize:" +:+ Py.join "," (fid :: ids))
      with ("batch_summarize" +:+ String ":" (Py.join "," (fid :: ids))).
    rewrite (partition_found ":" "batch_summarize") by done.
    assert (Hj : Py.is_empty (Py.join "," (fid :: ids)) = false).
    { apply Forall_cons in Hids as [Hfid _].
      destruct (plain_id_spec fid Hfid) as (Hn & _). destruct fid; [done|].
      cbn [Py.join]. by destruct ids. }
    rewrite Hj. rewrite (split_join "," (fid :: ids)); [|done|].
    + by apply plain_ids_kept.
    + eapply List.Forall_impl; [|exact Hids]. intros x Hx. by apply plain_id_spec.
  - eexists. split; [done|]. split; [done|].
    apply Forall_cons in Hids as [Hfid _].
    destruct (plain_id_spec fid Hfid) as (_ & _ & Hcolon & _).
    unfold summarize_id.
    change ("summarize:" +:+ fid) with ("summarize" +:+ String ":" fid).
    rewrite (split_field ":" "summarize") by done.
    by rewrite (split_no_separator ":" fid Hcolon).
Qed.

Lemma summary_button_leads_back_witness :
  exists data,
    summary_button 2 ["AgADuid1"; "AgADuid2"] = Some (CallbackData data) /\
    Py.startswith "batch_summarize:" data = true /\
    Py.startswith "summarize:" data = false /\
    batch_summarize_ids data = ["AgADuid1"; "AgADuid2"].
Proof.
  apply (summary_button_leads_back 2 ["AgADuid1"; "AgADuid2"]).
  - repeat constructor.
  - discriminate.
Defined.

End ButtonFacts.

(** ** A file the user sent stays behind its button *)

Section UploadFacts.

Import Json Database Uploads.

Lemma str_of_Z_inj (a b : Z) :
  - 2 ^ 63 <= a < 2 ^ 63 -> - 2 ^ 63 <= b < 2 ^ 63 ->
  Py.str_of_Z a = Py.str_of_Z b -> a = b.
Proof.
  intros Ha Hb E. apply (f_equal Builtin.int) in E.
  rewrite (int_str_of_Z a Ha), (int_str_of_Z b Hb) in E. by injection E.
Qed.

Lemma key_parts (prefix : string) (a b a' b' : Z) :
  prefix +:+ Py.str_of_Z a +:+ "_" +:+ Py.str_of_Z b
  = prefix +:+ Py.str_of_Z a' +:+ "_" +:+ Py.str_of_Z b' ->
  Py.str_of_Z a = Py.str_of_Z a' /\ Py.str_of_Z b = Py.str_of_Z b'.
Proof.
  intros E. apply append_same_prefix in E.
  change (Py.str_of_Z a +:+ String "_" (Py.str_of_Z b)
          = Py.str_of_Z a' +:+ String "_" (Py.str_of_Z b')) in E.
  apply (f_equal (Py.partition "_")) in E.
  rewrite !partition_found in E by (by apply numeral_no_char).
  by injection E.
Qed.

Lemma cache_key_inj (m m' : message) :
  telegram_ids m -> telegram_ids m' ->
  cache_key m = cache_key m' ->
  kind m = kind m' /\ from_user m = from_user m' /\ message_id m = message_id m'.
Proof.
  intros [Hu Hm] [Hu' Hm'] E. unfold cache_key in E.
  destruct (kind m), (kind m'); try discriminate E;
    apply key_parts in E as [E1 E2];
    (split; [done|]); split; by apply str_of_Z_inj.
Qed.

Lemma saves_frame (reqs : list save_request) (db : database) (u : string) :
  schema_ok db ->
  Forall (fun q => req_url q <> u) reqs ->
  select_by_url (saves reqs db) u = select_by_url db u.
Proof.
  revert db. induction reqs as [|q reqs IH]; intros db Hdb Hreqs; [done|].
  apply Forall_cons in Hreqs as [Hq Hreqs]. cbn [saves fold_left].
  change (fold_left save reqs (save db q)) with (saves reqs (save db q)).
  rewrite IH; [|by apply save_keeps_schema|done].
  apply save_frame; [done|]. congruence.
Qed.

Lemma rowids_positive_save (db : database) (u : string) (file_ids : file_ids_arg)
    (mt : string) (uid now : Z) :
  rowids_positive db ->
  rowids_positive (snd (save_file_to_cache db u file_ids mt uid now)) /\
  forall cache_id, fst (save_file_to_cache db u file_ids mt uid now) = Some cache_id ->
                   0 < cache_id.
Proof.
  intros [Hseq Hrows]. unfold save_file_to_cache.
  destruct (match file_ids with
            | IdList ids => (dumps ids, if (1 <? length ids)%nat then "carousel" else mt)
            | IdOther text => (text, mt)
            end) as [text mt'].
  destruct (max_ids_bound (file_cache_seq db) (file_cache db)) as [B1 _].
  destruct (select_by_url db u) as [old|] eqn:Hsel; cbn [fst snd].
  - assert (Hold : 0 < id old).
    { apply List.find_some in Hsel as [Hin _].
      rewrite List.Forall_forall in Hrows. by apply Hrows. }
    split; [|by intros ? [= <-]].
    split; [done|]. cbn [file_cache]. unfold update_by_id. rewrite List.Forall_map.
    eapply List.Forall_impl; [|exact Hrows]. intros r Hr. by destruct (id r =? id old).
  - unfold next_id. split; [|intros ? [= <-]; lia].
    split; cbn [file_cache_seq file_cache]; [lia|].
    apply List.Forall_app. split; [done|]. constructor; [cbn [id]; lia|constructor].
Qed.

Lemma rowids_positive_saves (reqs : list save_request) (db : database) :
  rowids_positive db -> rowids_positive (saves reqs db).
Proof.
  revert db. induction reqs as [|q reqs IH]; intros db Hdb; [done|].
  cbn [saves fold_left]. apply IH. by apply rowids_positive_save.
Qed.

(** X24.  A file the user sent stays behind its button.
    [handle_video_file] and [handle_audio_file] save the file under a key
    made of the kind, the user and the message, and put the returned id in
    the link of the answer (for a bot that has a name).  Whatever is saved
    afterwards under other keys, [get_file_by_id] of that id returns the
    one [file_id] of the message with its media type; and the key of
    another message is another key unless kind, user and message id are
    all the same. *)
Theorem sent_file_stays_behind_its_button (db db1 : database) (bot_username : string)
    (m : message) (keyboard : list (list Buttons.button)) (reqs : list save_request) :
  schema_ok db -> rowids_positive db ->
  telegram_ids m ->
  bot_username <> EmptyString ->
  handle_file db (Some bot_username) m = (keyboard, db1) ->
  Forall (fun q => req_url q <> cache_key m) reqs ->
  (exists cache_id,
     keyboard = [[Buttons.Url ("https://t.me/" +:+ bot_username +:+ "?start=file_"
                                 +:+ Py.str_of_Z cache_id)]] /\
     get_file_by_id (saves reqs db1) cache_id = Some ([JStr (file_id m)], media_type m)) /\
  (forall m', telegram_ids m' ->
     cache_key m' = cache_key m ->
     kind m' = kind m /\ from_user m' = from_user m /\ message_id m' = message_id m).
Proof.
  intros Hdb Hpos Hm Hname Hfile Hreqs. split.
  2:{ intros m' Hm' E. by apply cache_key_inj. }
  unfold handle_file in Hfile.
  destruct (save_file_to_cache_row db (cache_key m) (IdList [file_id m]) (media_type m)
              (from_user m) (date m)) as (cache_id & db' & Hsave & Hrow & _).
  pose proof (save_keeps_schema db (cache_key m) (IdList [file_id m]) (media_type m)
                (from_user m) (date m) Hdb) as Hdb'.
  pose proof (proj2 (rowids_positive_save db (cache_key m) (IdList [file_id m])
                       (media_type m) (from_user m) (date m) Hpos) cache_id) as Hid.
  rewrite Hsave in Hfile, Hdb', Hid. cbn [fst snd] in Hdb', Hid.
  specialize (Hid eq_refl). injection Hfile as <- <-.
  exists cache_id. split.
  - unfold Buttons.get_convert_keyboard.
    destruct (Z.eqb_spec cache_id 0) as [->|_]; [lia|]. by destruct bot_username.
  - pose proof (saves_keep_schema reqs db' Hdb') as (_ & Hids & _).
    pose proof (saves_frame reqs db' (cache_key m) Hdb' Hreqs) as Hsame.
    rewrite Hrow in Hsame.
    pose proof (select_by_id_of_url _ _ _ Hids Hsame) as Hbyid. cbn [id] in Hbyid.
    unfold get_file_by_id. rewrite Hbyid. cbn [Database.file_id Database.media_type].
    rewrite (loads_dumps [file_id m]). reflexivity.
Qed.

Lemma sent_file_stays_behind_its_button_witness :
  exists cache_id,
    fst (handle_file empty (Some "dreambot") Samples.sent_video)
    = [[Buttons.Url ("https://t.me/" +:+ "dreambot" +:+ "?start=file_"
                       +:+ Py.str_of_Z cache_id)]] /\
    get_file_by_id
      (saves [Samples.save_reel] (snd (handle_file empty (Some "dreambot") Samples.sent_video)))
      cache_id
    = Some ([JStr "BAACAgIAAxkBAAIB"], "video").
Proof.
  apply (sent_file_stays_behind_its_button empty _ "dreambot" Samples.sent_video _
           [Samples.save_reel]).
  - exact schema_ok_empty.
  - split; [done|constructor].
  - split; split; try discriminate; reflexivity.
  - discriminate.
  - reflexivity.
  - repeat constructor. discriminate.
Defined.

End UploadFacts.

(** ** The users: the first registration stays *)

Section UserFacts.

Import Users.

Lemma add_user_registered (t : table) (u : user) (now tid : Z) (r : row) :
  select_by_telegram_id t tid = Some r ->
  select_by_telegram_id (add_user t u now) tid = Some r.
Proof.
  intros Hr. unfold add_user.
  destruct (select_by_telegram_id t (user_id u)); [done|].
  unfold select_by_telegram_id in *. cbn [rows].
  rewrite find_app. by rewrite Hr.
Qed.

Lemma add_users_registered (calls : list (user * Z)) (t : table) (tid : Z) (r : row) :
  select_by_telegram_id t tid = Some r ->
  select_by_telegram_id (add_users calls t) tid = Some r.
Proof.
  revert t. induction calls as [|c calls IH]; intros t Hr; [done|].
  cbn [add_users fold_left]. apply IH. by apply add_user_registered.
Qed.

Lemma add_user_schema (t : table) (u : user) (now : Z) :
  schema_ok t -> schema_ok (add_user t u now).
Proof.
  unfold schema_ok, add_user. intros Ht.
  destruct (select_by_telegram_id t (user_id u)) eqn:Hsel; [done|].
  cbn [rows]. rewrite map_app. apply NoDup_app. split; [done|].
  split; [|apply NoDup_singleton].
  intros x Hx ->%list_elem_of_singleton.
  apply list_elem_of_In, in_map_iff in Hx as (r & Hr & Hin).
  apply find_none_all in Hsel. rewrite List.Forall_forall in Hsel.
  specialize (Hsel r Hin). cbn in Hsel, Hr. rewrite Hr in Hsel.
  by rewrite Z.eqb_refl in Hsel.
Qed.

(** X25.  The first registration stays.  [add_user] writes a user's
    names once: after a call for a user, whatever calls follow (for that
    user under other names, or for others), the row of the user is the
    one found before the call if there was one, and otherwise holds the
    names and the date of that call; and no user ever has two rows. *)
Theorem first_registration_stays (t : table) (u : user) (now : Z) (calls : list (user * Z)) :
  schema_ok t ->
  schema_ok (add_users ((u, now) :: calls) t) /\
  exists r,
    select_by_telegram_id (add_users ((u, now) :: calls) t) (user_id u) = Some r /\
    match select_by_telegram_id t (user_id u) with
    | Some old => r = old
    | None => account r = u /\ registration_date r = now
    end.
Proof.
  intros Ht. split.
  - clear -Ht. revert t Ht. generalize ((u, now) :: calls). intros l.
    induction l as [|c l IH]; intros t Ht; [done|].
    cbn [add_users fold_left]. apply IH. by apply add_user_schema.
  - cbn [add_users fold_left fst snd].
    change (fold_left _ calls (add_user t u now)) with (add_users calls (add_user t u now)).
    destruct (select_by_telegram_id t (user_id u)) as [old|] eqn:Hsel.
    + exists old. split; [|done]. apply add_users_registered.
      by apply add_user_registered.
    + exists {| id := next_id t; account := u; registration_date := now |}.
      split; [|done].
      apply add_users_registered. unfold add_user. rewrite Hsel.
      unfold select_by_telegram_id in *. cbn [rows].
      apply find_snoc_none; [done|]. cbn. apply Z.eqb_refl.
Qed.

Lemma first_registration_stays_witness :
  exists r,
    select_by_telegram_id
      (add_users [(Samples.alice, 100); (Samples.alice_renamed, 200)] empty) 7 = Some r /\
    account r = Samples.alice /\ registration_date r = 100.
Proof.
  apply (first_registration_stays empty Samples.alice 100 [(Samples.alice_renamed, 200)]).
  constructor.
Defined.

End UserFacts.

(** ** The downloads of a voice batch do not overwrite each other *)

Section VoiceFileFacts.

Import Batch VoiceFiles.

Lemma join_ends (dir name : string) : exists before, OsPath.join dir name = before +:+ name.
Proof.
  unfold OsPath.join. destruct (Py.startswith "/" name); [by exists EmptyString|].
  destruct (Py.is_empty dir || Py.endswith_char "/" dir); [by exists dir|].
  exists (dir +:+ "/"). by rewrite append_assoc.
Qed.

Lemma str_of_Z_injective (a b : Z) : Py.str_of_Z a = Py.str_of_Z b -> a = b.
Proof.
  assert (Hnil : forall z, Z.to_int z <> Decimal.Pos Decimal.Nil /\
                           Z.to_int z <> Decimal.Neg Decimal.Nil).
  { intros [|p|p]; cbn; split; try discriminate;
      intros [= E]; by apply (DecimalPos.Unsigned.to_uint_nonnil p). }
  unfold Py.str_of_Z. intros E. apply (f_equal NilZero.int_of_string) in E.
  destruct (Hnil a) as [Ha1 Ha2], (Hnil b) as [Hb1 Hb2].
  rewrite !NilZero.isi in E by done. injection E as E. by apply DecimalZ.to_int_inj.
Qed.

Lemma temp_input_path_index (tempdir : string) (i j : nat) (m m' : message)
    (ext ext' : string) :
  Py.has_char "." ext = false -> Py.has_char "." ext' = false ->
  temp_input_path tempdir i m ext = temp_input_path tempdir j m' ext' -> i = j.
Proof.
  intros He He' E. unfold temp_input_path in E.
  destruct (join_ends tempdir (file_unique_id m +:+ "_" +:+ Py.str_of_Z (Z.of_nat i) +:+ "_"
              +:+ Py.str_of_Z (message_id m) +:+ "." +:+ ext)) as [b Hb].
  destruct (join_ends tempdir (file_unique_id m' +:+ "_" +:+ Py.str_of_Z (Z.of_nat j) +:+ "_"
              +:+ Py.str_of_Z (message_id m') +:+ "." +:+ ext')) as [b' Hb'].
  rewrite Hb, Hb' in E. clear Hb Hb'.
  assert (Hshape : forall (before uid : string) (k : nat) (mid : Z) (e : string),
            before +:+ uid +:+ "_" +:+ Py.str_of_Z (Z.of_nat k) +:+ "_"
              +:+ Py.str_of_Z mid +:+ "." +:+ e
            = (((before +:+ uid) +:+ String "_" (Py.str_of_Z (Z.of_nat k)))
                 +:+ String "_" (Py.str_of_Z mid)) +:+ String "." e).
  { intros. by rewrite !append_assoc. }
  rewrite !Hshape in E.
  apply (f_equal (Py.rpartition ".")) in E.
  rewrite !rpartition_last in E by done. injection E as E _.
  apply (f_equal (Py.rpartition "_")) in E.
  rewrite !rpartition_last in E by (by apply numeral_no_char). injection E as E _.
  apply (f_equal (Py.rpartition "_")) in E.
  rewrite !rpartition_last in E by (by apply numeral_no_char). injection E as _ E.
  apply str_of_Z_injective in E. lia.
Qed.

Lemma input_extension_plain (m : message) (ext : string) :
  input_extension m = Some ext -> Py.has_char "." ext = false.
Proof. unfold input_extension. by destruct (kind m); intros [= <-]. Qed.

Lemma downloaded_from_index (tempdir : string) (i : nat) (l : list message) (p : string) :
  In p (downloaded_from tempdir i l) ->
  exists j m ext, (i <= j)%nat /\ input_extension m = Some ext /\
                  p = temp_input_path tempdir j m ext.
Proof.
  revert i. induction l as [|m l IH]; intros i; [done|]. cbn [downloaded_from].
  destruct (input_extension m) as [ext|] eqn:Hext.
  - intros [<-|Hin]; [by exists i, m, ext|].
    destruct (IH (S i) Hin) as (j & m' & ext' & Hj & H1 & H2).
    exists j, m', ext'. split; [lia|done].
  - intros Hin. destruct (IH (S i) Hin) as (j & m' & ext' & Hj & H1 & H2).
    exists j, m', ext'. split; [lia|done].
Qed.

(** X26.  The downloads of a voice batch do not overwrite each other.
    The temporary files [process_voice_batch] downloads the messages of
    a batch to all have different paths, whatever the temporary
    directory, also when two messages carry the same [file_unique_id] and
    the same message id (a 64-bit number, as Telegram sends it): the
    position in the batch is part of the name.  For voice messages and
    video notes no message is skipped. *)
Theorem voice_downloads_distinct (tempdir : string) (voice_messages : list message) :
  Forall (fun m => - 2 ^ 63 <= message_id m < 2 ^ 63) voice_messages ->
  NoDup (downloaded_files tempdir voice_messages) /\
  (Forall (fun m => is_voice m = true) voice_messages ->
   length (downloaded_files tempdir voice_messages) = length voice_messages).
Proof.
  intros _. unfold downloaded_files. generalize 0%nat. split.
  - revert n. induction voice_messages as [|m l IH]; intros i; [constructor|].
    cbn [downloaded_from]. destruct (input_extension m) as [ext|] eqn:Hext; [|apply IH].
    apply NoDup_cons. split; [|apply IH].
    intros Hin%list_elem_of_In.
    destruct (downloaded_from_index _ _ _ _ Hin) as (j & m' & ext' & Hj & Hext' & E).
    apply temp_input_path_index in E; [lia|by eapply input_extension_plain..].
  - revert n. induction voice_messages as [|m l IH]; intros i Hall; [done|].
    apply Forall_cons in Hall as [Hm Hall]. cbn [downloaded_from].
    unfold input_extension. unfold is_voice in Hm.
    destruct (kind m); try done; cbn [length]; by rewrite IH.
Qed.

Lemma voice_downloads_distinct_witness :
  NoDup (downloaded_files "/tmp" Samples.same_note_twice) /\
  length (downloaded_files "/tmp" Samples.same_note_twice) = 2%nat.
Proof.
  destruct (voice_downloads_distinct "/tmp" Samples.same_note_twice) as [H1 H2].
  - repeat constructor; discriminate.
  - split; [exact H1|]. apply H2. by repeat constructor.
Defined.

End VoiceFileFacts.

(** ** The web API and the bot name a link alike *)

Section ApiFacts.

Variable check : string -> bool.










End ApiFacts.

